(** * Compass LK: duplicate resolution and local image matching

    A shallow embedding of the two algorithmic parts of the application:

    - the duplicate resolver, written three times in the sources
      ([scripts/remove_duplicates.mjs], the "Remove Duplicates" button of the
      admin page, and [dedupeDestinations] of the destinations list page);
    - the local asset matcher ([normalizeForKey], [findLocalImages],
      [findManualOverride]) of the destination detail page and of the
      destinations list page, with the fallback text generators
      [getFallback] and [getSnippet].

    JavaScript strings are sequences of UTF-16 code units; they are modelled
    as lists of numbers.  The parts of the ECMAScript library that rest on
    the Unicode tables ([toLowerCase], [normalize('NFKD')], [localeCompare])
    are the fields of the class [Engine], together with the facts about them
    that the development uses. *)

From Stdlib Require Import String Ascii.
From Stdlib Require Import List NArith ZArith Bool Lia.
From Stdlib Require Import Permutation Sorted QArith_base.
Import ListNotations.

Set Implicit Arguments.

(* ================================================================== *)
(** * JavaScript strings *)
(* ================================================================== *)

Module Js.

(** A string is the list of its UTF-16 code units. *)
Definition jsstring := list N.

Definition eqb (s t : jsstring) : bool :=
  if list_eq_dec N.eq_dec s t then true else false.

(** ** Literals: the UTF-8 bytes of a source literal, as code units *)

Fixpoint bytes (s : string) : list N :=
  match s with
  | EmptyString => []
  | String c s' => N_of_ascii c :: bytes s'
  end.

(** The code units of one code point. *)
Definition units (cp : N) : list N :=
  if (cp <? 65536)%N then [cp]
  else [(55296 + (cp - 65536) / 1024)%N; (56320 + (cp - 65536) mod 1024)%N].

Fixpoint decode (l : list N) : jsstring :=
  match l with
  | [] => []
  | b0 :: r =>
    if (b0 <? 128)%N then b0 :: decode r
    else if (b0 <? 224)%N then
      match r with
      | b1 :: r1 => units ((b0 - 192) * 64 + (b1 - 128))%N ++ decode r1
      | [] => []
      end
    else if (b0 <? 240)%N then
      match r with
      | b1 :: b2 :: r2 =>
        units ((b0 - 224) * 4096 + (b1 - 128) * 64 + (b2 - 128))%N ++ decode r2
      | _ => []
      end
    else
      match r with
      | b1 :: b2 :: b3 :: r3 =>
        units ((b0 - 240) * 262144 + (b1 - 128) * 4096
               + (b2 - 128) * 64 + (b3 - 128))%N ++ decode r3
      | _ => []
      end
  end.

(** [lit "..."] is the JavaScript string written as that literal. *)
Definition lit (s : string) : jsstring := decode (bytes s).

(** ** Character classes *)

Definition isAscii (c : N) : bool := (c <? 128)%N.

(** [a-z0-9] *)
Definition isLowerAlnum (c : N) : bool :=
  ((97 <=? c) && (c <=? 122) || (48 <=? c) && (c <=? 57))%N.

(** WhiteSpace and LineTerminator of ECMAScript: what [trim] removes and what
    [\s] matches. *)
Definition isWhiteSpace (c : N) : bool :=
  ((9 <=? c) && (c <=? 13) || (c =? 32) || (c =? 160) || (c =? 5760)
   || (8192 <=? c) && (c <=? 8202) || (c =? 8232) || (c =? 8233)
   || (c =? 8239) || (c =? 8287) || (c =? 12288) || (c =? 65279))%N.

(** Lower-casing of a code unit of the Basic Latin block. *)
Definition lowerAscii (c : N) : N :=
  if ((65 <=? c) && (c <=? 90))%N then (c + 32)%N else c.

(** ** String.prototype.includes *)

Fixpoint startsWith (s t : jsstring) {struct t} : bool :=
  match t with
  | [] => true
  | b :: t' =>
    match s with
    | [] => false
    | a :: s' => (a =? b)%N && startsWith s' t'
    end
  end.

Fixpoint includes (s t : jsstring) : bool :=
  startsWith s t ||
  match s with
  | [] => false
  | _ :: s' => includes s' t
  end.

(** ** String.prototype.trim *)

Fixpoint trimStart (s : jsstring) : jsstring :=
  match s with
  | [] => []
  | c :: s' => if isWhiteSpace c then trimStart s' else s
  end.

Definition trimEnd (s : jsstring) : jsstring := rev (trimStart (rev s)).

Definition trim (s : jsstring) : jsstring := trimEnd (trimStart s).

(** ** replace(/[^a-z0-9]/g, '') *)

Definition stripNonAlnum (s : jsstring) : jsstring := filter isLowerAlnum s.

(** ** split(/[^a-z0-9]+/)

    [acc] is the piece being read, reversed; [inSep] tells that the previous
    code unit belonged to a separator.  A separator at either end of the
    string leaves an empty piece there, as in JavaScript. *)
Fixpoint splitGo (s : jsstring) (acc : jsstring) (inSep : bool)
  : list jsstring :=
  match s with
  | [] => [rev acc]
  | c :: s' =>
    if isLowerAlnum c then splitGo s' (c :: acc) false
    else if inSep then splitGo s' acc true
    else rev acc :: splitGo s' [] true
  end.

Definition splitNonAlnum (s : jsstring) : list jsstring := splitGo s [] false.

(** A string is truthy when it is not empty. *)
Definition nonEmpty (s : jsstring) : bool :=
  match s with [] => false | _ :: _ => true end.

(** [x.filter(Boolean)] on a list of strings. *)
Definition filterBoolean (l : list jsstring) : list jsstring :=
  filter nonEmpty l.

(** ** The library functions that depend on the Unicode tables *)

#[projections(primitive)]
Class Engine := {
  (** [String.prototype.toLowerCase] *)
  toLowerCase : jsstring -> jsstring;
  (** [String.prototype.normalize('NFKD')] *)
  normalizeNFKD : jsstring -> jsstring;
  (** [String.prototype.localeCompare], in the locale of the run *)
  localeCompare : jsstring -> jsstring -> Z;
  toLowerCase_ascii :
    forall s, forallb isAscii s = true -> toLowerCase s = map lowerAscii s;
  normalizeNFKD_ascii :
    forall s, forallb isAscii s = true -> normalizeNFKD s = s;
  localeCompare_antisym :
    forall a b, Z.sgn (localeCompare b a) = (- Z.sgn (localeCompare a b))%Z;
  localeCompare_trans :
    forall a b c, (localeCompare a b <= 0)%Z -> (localeCompare b c <= 0)%Z ->
                  (localeCompare a c <= 0)%Z
}.

(** ** An engine for the Basic Latin block

    Lower-casing maps [A-Z] to [a-z] and leaves other code units alone,
    compatibility decomposition changes nothing, and strings are compared
    code unit by code unit.  On strings of the Basic Latin block the first
    two are what every engine does. *)

Fixpoint compareUnits (a b : jsstring) : Z :=
  match a, b with
  | [], [] => 0
  | [], _ :: _ => -1
  | _ :: _, [] => 1
  | x :: a', y :: b' =>
    match (x ?= y)%N with
    | Lt => -1
    | Gt => 1
    | Eq => compareUnits a' b'
    end
  end.

Definition toLowerBasic (s : jsstring) : jsstring := map lowerAscii s.

(** ** Facts about the string functions *)

Lemma eqb_eq (s t : jsstring) : eqb s t = true <-> s = t.
Proof.
  unfold eqb. destruct (list_eq_dec N.eq_dec s t); split; congruence.
Qed.

Lemma eqb_refl (s : jsstring) : eqb s s = true.
Proof. now apply eqb_eq. Qed.

Lemma startsWith_spec (s t : jsstring) :
  startsWith s t = true <-> exists post, s = t ++ post.
Proof.
  revert s. induction t as [|b t IH]; intros s; simpl.
  - split; [intros _; now exists s | reflexivity].
  - destruct s as [|a s].
    + split; [discriminate | intros [post H]; discriminate].
    + rewrite andb_true_iff, N.eqb_eq, IH. split.
      * intros [-> [post ->]]. now exists post.
      * intros [post H]. injection H as -> ->. split; [reflexivity | now exists post].
Qed.

(** [s.includes(t)] holds exactly when [t] occurs in [s]. *)
Lemma includes_spec (s t : jsstring) :
  includes s t = true <-> exists pre post, s = pre ++ t ++ post.
Proof.
  induction s as [|a s IH]; simpl.
  - rewrite orb_false_r, startsWith_spec. split.
    + intros [post H]. now exists [], post.
    + intros [pre [post H]]. destruct pre; [now exists post|discriminate].
  - rewrite orb_true_iff, startsWith_spec, IH. split.
    + intros [[post H] | [pre [post H]]].
      * now exists [], post.
      * exists (a :: pre), post. simpl. now rewrite H.
    + intros [pre [post H]]. destruct pre as [|x pre]; simpl in H.
      * left. now exists post.
      * right. injection H as _ ->. now exists pre, post.
Qed.

Lemma includes_nil (s : jsstring) : includes s [] = true.
Proof. destruct s; reflexivity. Qed.

Lemma includes_refl (s : jsstring) : includes s s = true.
Proof. apply includes_spec. exists [], []. now rewrite app_nil_r. Qed.

Lemma nil_includes (t : jsstring) : includes [] t = true -> t = [].
Proof.
  intros H. apply includes_spec in H as [pre [post H]].
  destruct pre; [destruct t; [reflexivity | discriminate] | discriminate].
Qed.

Lemma alnum_range (c : N) : isLowerAlnum c = true -> (48 <= c <= 122)%N.
Proof.
  unfold isLowerAlnum. rewrite orb_true_iff, !andb_true_iff, !N.leb_le. lia.
Qed.

Lemma alnum_not_space (c : N) : isLowerAlnum c = true -> isWhiteSpace c = false.
Proof.
  intros H. apply alnum_range in H. unfold isWhiteSpace.
  replace (c <=? 13)%N with false by (symmetry; apply N.leb_gt; lia).
  replace (8192 <=? c)%N with false by (symmetry; apply N.leb_gt; lia).
  repeat match goal with
         | |- context [(c =? ?k)%N] =>
           replace (c =? k)%N with false by (symmetry; apply N.eqb_neq; lia)
         end.
  now rewrite andb_false_r.
Qed.

Lemma trimStart_id (s : jsstring) :
  Forall (fun c => isLowerAlnum c = true) s -> trimStart s = s.
Proof.
  intros H. destruct H as [|c s Hc _]; simpl; [reflexivity|].
  now rewrite (alnum_not_space _ Hc).
Qed.

(** After the characters outside [a-z0-9] are gone, [trim] has nothing to
    remove. *)
Lemma trim_stripNonAlnum (s : jsstring) : trim (stripNonAlnum s) = stripNonAlnum s.
Proof.
  assert (A : forall l, Forall (fun c => isLowerAlnum c = true) (stripNonAlnum l)).
  { intros l. apply Forall_forall. intros c Hc. now apply filter_In in Hc. }
  unfold trim, trimEnd. rewrite (trimStart_id (A s)).
  rewrite trimStart_id; [apply rev_involutive|].
  apply Forall_rev, A.
Qed.

Lemma compareUnits_antisym (a b : jsstring) :
  Z.sgn (compareUnits b a) = (- Z.sgn (compareUnits a b))%Z.
Proof.
  revert b. induction a as [|x a IH]; intros [|y b]; simpl; try reflexivity.
  rewrite (N.compare_antisym x y).
  destruct (x ?= y)%N; simpl; [apply IH | reflexivity | reflexivity].
Qed.

Lemma compareUnits_trans (a b c : jsstring) :
  (compareUnits a b <= 0)%Z -> (compareUnits b c <= 0)%Z ->
  (compareUnits a c <= 0)%Z.
Proof.
  revert b c. induction a as [|x a IH]; intros [|y b] [|z c]; simpl;
    try lia.
  destruct (N.compare_spec x y), (N.compare_spec y z); subst; try lia;
    intros H1 H2.
  - rewrite N.compare_refl. eauto.
  - apply N.compare_lt_iff in H0. now rewrite H0.
  - apply N.compare_lt_iff in H. now rewrite H.
  - assert (L : (x < z)%N) by lia. apply N.compare_lt_iff in L. now rewrite L.
Qed.

#[refine]
Instance basicEngine : Engine := {
  toLowerCase := toLowerBasic;
  normalizeNFKD := fun s => s;
  localeCompare := compareUnits
}.
Proof.
  - reflexivity.
  - reflexivity.
  - apply compareUnits_antisym.
  - apply compareUnits_trans.
Defined.

End Js.

(* ================================================================== *)
(** * Array.prototype.sort *)
(* ================================================================== *)

(** [Array.prototype.sort] is stable.  For a comparator that orders its
    arguments consistently the result is the stable ordering of the array,
    which is computed here by insertion from the right: an element stays
    before the elements it was before unless the comparator puts it after
    them. *)
Module JsArray.

Section Sort.
Variable A : Type.
Variable cmp : A -> A -> Z.

Fixpoint insert (x : A) (l : list A) : list A :=
  match l with
  | [] => [x]
  | y :: l' => if (cmp x y <=? 0)%Z then x :: l else y :: insert x l'
  end.

Definition sort (l : list A) : list A := fold_right insert [] l.

(** [arr.find(p)]: the first element that satisfies [p]. *)
Definition find (p : A -> bool) (l : list A) : option A := List.find p l.

Lemma insert_perm (x : A) (l : list A) : Permutation (insert x l) (x :: l).
Proof.
  induction l as [|y l IH]; simpl; [reflexivity|].
  destruct (cmp x y <=? 0)%Z; [reflexivity|].
  rewrite IH. apply perm_swap.
Qed.

Lemma sort_perm (l : list A) : Permutation (sort l) l.
Proof.
  induction l as [|x l IH]; simpl; [reflexivity|].
  rewrite insert_perm. now constructor.
Qed.

Lemma sort_In (x : A) (l : list A) : In x (sort l) <-> In x l.
Proof.
  split; apply Permutation_in; [|symmetry]; apply sort_perm.
Qed.

Lemma sort_length (l : list A) : length (sort l) = length l.
Proof. apply Permutation_length, sort_perm. Qed.

Lemma sort_one (x : A) : sort [x] = [x].
Proof. reflexivity. Qed.

(** The comparator orders its arguments consistently. *)
Definition consistent : Prop :=
  (forall a b, (0 < cmp a b)%Z -> (cmp b a <= 0)%Z)
  /\ (forall a b c, (cmp a b <= 0)%Z -> (cmp b c <= 0)%Z -> (cmp a c <= 0)%Z).

Definition le (a b : A) : Prop := (cmp a b <= 0)%Z.

Lemma insert_sorted (x : A) (l : list A) :
  consistent -> StronglySorted le l -> StronglySorted le (insert x l).
Proof.
  intros [Htot Htr] Hs. induction Hs as [|y l Hs IH Hy]; simpl.
  - repeat constructor.
  - destruct (Z.leb_spec (cmp x y) 0) as [Hxy|Hxy].
    + constructor; [now constructor|].
      constructor; [exact Hxy|].
      apply Forall_forall. intros z Hz.
      rewrite Forall_forall in Hy. exact (Htr _ _ _ Hxy (Hy _ Hz)).
    + constructor; [exact IH|].
      apply Forall_forall. intros z Hz.
      apply (Permutation_in _ (insert_perm x l)) in Hz as [<-|Hz].
      * now apply Htot.
      * rewrite Forall_forall in Hy. now apply Hy.
Qed.

(** For a consistent comparator the result is ordered. *)
Lemma sort_sorted (l : list A) : consistent -> StronglySorted le (sort l).
Proof.
  intros Hc. induction l as [|x l IH]; simpl; [constructor|].
  now apply insert_sorted.
Qed.

(** The first element of the result is not after any element. *)
Lemma sort_head (l : list A) (h : A) (r : list A) (x : A) :
  consistent -> sort l = h :: r -> In x l -> h = x \/ (cmp h x <= 0)%Z.
Proof.
  intros Hc Hs Hx. pose proof (sort_sorted l Hc) as S. rewrite Hs in S.
  apply sort_In in Hx. rewrite Hs in Hx. destruct Hx as [->|Hx]; [now left|].
  right. inversion S as [|? ? _ F]; subst. rewrite Forall_forall in F.
  now apply F.
Qed.

(** An element that the comparator puts after another one is not the
    first of the result. *)
Lemma sort_head_not (l : list A) (h : A) (r : list A) (x y : A) :
  consistent -> sort l = h :: r -> In x l -> (0 < cmp y x)%Z -> h <> y.
Proof.
  intros Hc Hs Hx Hyx ->.
  destruct (@sort_head l y r x Hc Hs Hx) as [->|H]; [|lia].
  destruct Hc as [Htot _]. specialize (Htot _ _ Hyx). lia.
Qed.

Lemma sort_tail (l : list A) (h : A) (r : list A) (x y : A) :
  consistent -> sort l = h :: r -> In x l -> In y l -> (0 < cmp y x)%Z ->
  In y r.
Proof.
  intros Hc Hs Hx Hy Hyx. apply sort_In in Hy. rewrite Hs in Hy.
  destruct Hy as [Hy|Hy]; [|exact Hy].
  subst h. now destruct (@sort_head_not l y r x y Hc Hs Hx Hyx).
Qed.

(** Two elements tie when the comparator puts neither after the other. *)
Definition ties (z x : A) : bool := (cmp z x <=? 0)%Z && (cmp x z <=? 0)%Z.

Lemma insert_ties (z x : A) (l : list A) :
  consistent ->
  filter (ties z) (insert x l) = filter (ties z) (x :: l).
Proof.
  intros [Htot Htr]. induction l as [|y l IH]; [reflexivity|].
  cbn [insert]. destruct (Z.leb_spec (cmp x y) 0) as [Hxy|Hxy]; [reflexivity|].
  cbn [filter] in *. rewrite IH.
  destruct (ties z x) eqn:Tx, (ties z y) eqn:Ty; try reflexivity.
  unfold ties in Tx, Ty.
  apply andb_true_iff in Tx as [Hzx Hxz], Ty as [Hzy Hyz].
  apply Z.leb_le in Hzx, Hxz, Hzy, Hyz.
  pose proof (Htr _ _ _ Hxz Hzy). lia.
Qed.

(** The sort is stable: the elements that tie with a given element are in
    the result in the order they had.  With [sort_perm] and [sort_sorted]
    this is what [Array.prototype.sort] guarantees for a consistent
    comparator. *)
Lemma sort_stable (z : A) (l : list A) :
  consistent -> filter (ties z) (sort l) = filter (ties z) l.
Proof.
  intros Hc. induction l as [|x l IH]; [reflexivity|].
  cbn [sort fold_right]. fold (sort l). rewrite (insert_ties z x (sort l) Hc).
  cbn [filter]. now rewrite IH.
Qed.

(** An element that the comparator does not put after any element of an
    ordered list goes to its front. *)
Lemma insert_front (x : A) (l : list A) :
  Forall (fun y => (cmp x y <= 0)%Z) l -> insert x l = x :: l.
Proof.
  intros [|y l' Hy _]; simpl; [reflexivity|].
  apply Z.leb_le in Hy. now rewrite Hy.
Qed.
End Sort.

(** Sorting on a flag, the elements with the flag first: the stable result
  is the elements with the flag, in their order, followed by the others,
  in their order. *)
Section Flag.
Variable A : Type.
Variable flag : A -> bool.

Definition compareFlag (a b : A) : Z :=
  if Bool.eqb (flag a) (flag b) then 0%Z
  else if flag a then (-1)%Z else 1%Z.

Lemma compareFlag_consistent : consistent compareFlag.
Proof.
  unfold compareFlag. split.
  - intros a b. destruct (flag a), (flag b); simpl; lia.
  - intros a b c. destruct (flag a), (flag b), (flag c); simpl; lia.
Qed.

Lemma insert_unflagged (x : A) (f n : list A) :
  flag x = false ->
  Forall (fun y => flag y = true) f ->
  Forall (fun y => flag y = false) n ->
  insert compareFlag x (f ++ n) = f ++ x :: n.
Proof.
  intros Fx Hf Hn. induction Hf as [|y f Fy _ IH]; simpl.
  - apply insert_front. eapply Forall_impl; [|exact Hn].
    intros y Fy. unfold compareFlag. now rewrite Fx, Fy.
  - unfold compareFlag at 1. rewrite Fx, Fy. simpl. now rewrite IH.
Qed.

Lemma insert_flagged (x : A) (l : list A) :
  flag x = true -> insert compareFlag x l = x :: l.
Proof.
  intros Fx. apply insert_front, Forall_forall. intros y _.
  unfold compareFlag. rewrite Fx. now destruct (flag y).
Qed.

Lemma sort_flag (l : list A) :
  sort compareFlag l = filter flag l ++ filter (fun y => negb (flag y)) l.
Proof.
  induction l as [|x l IH]; simpl; [reflexivity|].
  rewrite IH. destruct (flag x) eqn:Fx; simpl.
  - now apply insert_flagged.
  - apply insert_unflagged; [exact Fx| |]; apply Forall_forall; intros y Hy;
      apply filter_In in Hy as [_ Hy]; [exact Hy | now apply negb_true_iff].
Qed.
End Flag.

End JsArray.

(* ================================================================== *)
(** * Regular expressions *)
(* ================================================================== *)

(** The regular expressions of the sources are made of characters of the
    Basic Latin block, [\s], grouping, alternation, [?] and [*].  With the
    flag [i] (and without the flag [u]) a character of the pattern matches
    the characters that have its canonical form, which for a pattern
    character of the Basic Latin block are its two cases and nothing else. *)
Module Regex.
Import Js.

Inductive re :=
| Fail                (* no string at all: the derivative of a mismatch *)
| Eps                 (* the empty string *)
| Chr (c : N)
| Space               (* \s *)
| Seq (a b : re)
| Alt (a b : re)
| Opt (a : re)
| Star (a : re).

Definition canon (c : N) : N :=
  if ((97 <=? c) && (c <=? 122))%N then (c - 32)%N else c.

Definition sameChar (i : bool) (p c : N) : bool :=
  if i then (canon p =? canon c)%N else (p =? c)%N.

Fixpoint nullable (r : re) : bool :=
  match r with
  | Fail => false
  | Eps => true
  | Chr _ => false
  | Space => false
  | Seq a b => nullable a && nullable b
  | Alt a b => nullable a || nullable b
  | Opt _ => true
  | Star _ => true
  end.

(** What is left of [r] to match after the code unit [c]. *)
Fixpoint deriv (i : bool) (c : N) (r : re) : re :=
  match r with
  | Fail => Fail
  | Eps => Fail
  | Chr p => if sameChar i p c then Eps else Fail
  | Space => if isWhiteSpace c then Eps else Fail
  | Seq a b =>
    if nullable a then Alt (Seq (deriv i c a) b) (deriv i c b)
    else Seq (deriv i c a) b
  | Alt a b => Alt (deriv i c a) (deriv i c b)
  | Opt a => deriv i c a
  | Star a => Seq (deriv i c a) (Star a)
  end.

(** Does [r] match at the start of [s]? *)
Fixpoint matchPrefix (i : bool) (r : re) (s : jsstring) : bool :=
  nullable r ||
  match s with
  | [] => false
  | c :: s' => matchPrefix i (deriv i c r) s'
  end.

(** [r.test(s)]: does [r] match somewhere in [s]? *)
Fixpoint test (i : bool) (r : re) (s : jsstring) : bool :=
  matchPrefix i r s ||
  match s with
  | [] => false
  | _ :: s' => test i r s'
  end.

(** ** Writing patterns *)

Fixpoint chars (s : jsstring) : re :=
  match s with
  | [] => Eps
  | [c] => Chr c
  | c :: s' => Seq (Chr c) (chars s')
  end.

(** A run of literal characters. *)
Definition str (s : string) : re := chars (lit s).

Fixpoint seqOf (l : list re) : re :=
  match l with
  | [] => Eps
  | [r] => r
  | r :: l' => Seq r (seqOf l')
  end.

(** [a|b|c] *)
Fixpoint anyOf (l : list re) : re :=
  match l with
  | [] => Fail
  | [r] => r
  | r :: l' => Alt r (anyOf l')
  end.

(** ** The strings a pattern matches *)

Inductive matches (i : bool) : re -> jsstring -> Prop :=
| MEps : matches i Eps []
| MChr p c : sameChar i p c = true -> matches i (Chr p) [c]
| MSpace c : isWhiteSpace c = true -> matches i Space [c]
| MSeq a b s t : matches i a s -> matches i b t -> matches i (Seq a b) (s ++ t)
| MAltL a b s : matches i a s -> matches i (Alt a b) s
| MAltR a b s : matches i b s -> matches i (Alt a b) s
| MOptNone a : matches i (Opt a) []
| MOptSome a s : matches i a s -> matches i (Opt a) s
| MStarNil a : matches i (Star a) []
| MStarCons a s t :
    matches i a s -> matches i (Star a) t -> matches i (Star a) (s ++ t).

Ltac inv H := inversion H; subst; clear H.

Lemma nullable_spec (i : bool) (r : re) : nullable r = true <-> matches i r [].
Proof.
  induction r; simpl.
  - split; [discriminate | intros H; inv H].
  - split; [constructor | reflexivity].
  - split; [discriminate | intros H; inv H].
  - split; [discriminate | intros H; inv H].
  - rewrite andb_true_iff, IHr1, IHr2. split.
    + intros [H1 H2]. exact (MSeq H1 H2).
    + intros H. inv H.
      match goal with E : _ ++ _ = [] |- _ => apply app_eq_nil in E as [-> ->] end.
      now split.
  - rewrite orb_true_iff, IHr1, IHr2. split.
    + intros [H|H]; [now apply MAltL | now apply MAltR].
    + intros H. inv H; [now left | now right].
  - split; [constructor | reflexivity].
  - split; [constructor | reflexivity].
Qed.

(** A match of [Star a] on a string that starts with [c] starts with a match
    of [a] on a string that starts with [c]. *)
Lemma star_cons (i : bool) (a : re) (u : jsstring) :
  matches i (Star a) u ->
  forall c s, u = c :: s ->
  exists s1 s2, s = s1 ++ s2 /\ matches i a (c :: s1) /\ matches i (Star a) s2.
Proof.
  intros H. remember (Star a) as r eqn:Hr.
  induction H as [| | | | | | | | |a' s1 s2 H1 _ H2 IH2]; try discriminate.
  injection Hr as ->. intros c u Hu.
  destruct s1 as [|x s1]; simpl in Hu.
  - now apply IH2.
  - injection Hu as -> <-. now exists s1, s2.
Qed.

Lemma seq_cons (i : bool) (a b : re) (c : N) (s : jsstring) :
  matches i (Seq a b) (c :: s) ->
  (exists s1 s2, s = s1 ++ s2 /\ matches i a (c :: s1) /\ matches i b s2)
  \/ (matches i a [] /\ matches i b (c :: s)).
Proof.
  intros H. inv H.
  match goal with E : ?s1 ++ ?s2 = _ |- _ => destruct s1 as [|x s1]; simpl in E end.
  - right. subst. now split.
  - match goal with E : _ :: _ = _ :: _ |- _ => injection E as -> <- end.
    left. eauto.
Qed.

Lemma deriv_spec (i : bool) (c : N) (r : re) (s : jsstring) :
  matches i (deriv i c r) s <-> matches i r (c :: s).
Proof.
  revert s. induction r; intros s; simpl.
  - split; intros H; inv H.
  - split; intros H; inv H.
  - destruct (sameChar i c0 c) eqn:Hc; split; intros H; inv H.
    + now constructor.
    + constructor.
    + congruence.
  - destruct (isWhiteSpace c) eqn:Hc; split; intros H; inv H.
    + now constructor.
    + constructor.
    + congruence.
  - assert (L : matches i (Seq (deriv i c r1) r2) s ->
                matches i (Seq r1 r2) (c :: s)).
    { intros H. inv H.
      match goal with H1 : matches _ (deriv _ _ _) _ |- _ => apply IHr1 in H1 end.
      match goal with H1 : matches _ r1 (_ :: ?u), H2 : matches _ r2 ?v |- _ =>
        exact (MSeq H1 H2) end. }
    assert (R : matches i (Seq r1 r2) (c :: s) ->
                matches i (Seq (deriv i c r1) r2) s
                \/ (matches i r1 [] /\ matches i r2 (c :: s))).
    { intros H. apply seq_cons in H as [[s1 [s2 [-> [H1 H2]]]]|H]; [left|now right].
      apply IHr1 in H1. exact (MSeq H1 H2). }
    destruct (nullable r1) eqn:N1; split.
    + intros H. inv H; [now apply L|].
      apply nullable_spec with (i := i) in N1.
      match goal with H2 : matches _ (deriv _ _ r2) _ |- _ => apply IHr2 in H2;
        exact (MSeq (s := []) N1 H2) end.
    + intros H. apply R in H as [H|[_ H]]; [now apply MAltL|].
      apply MAltR. now apply IHr2.
    + exact L.
    + intros H. apply R in H as [H|[H _]]; [exact H|].
      apply nullable_spec in H. congruence.
  - split; intros H; inv H.
    + apply MAltL. now apply IHr1.
    + apply MAltR. now apply IHr2.
    + apply MAltL. now apply IHr1.
    + apply MAltR. now apply IHr2.
  - rewrite IHr. split; intros H.
    + now apply MOptSome.
    + now inv H.
  - split; intros H.
    + inv H.
      match goal with H1 : matches _ (deriv _ _ _) _ |- _ => apply IHr in H1 end.
      match goal with H1 : matches _ r (_ :: ?u), H2 : matches _ (Star r) ?v |- _ =>
        exact (MStarCons H1 H2) end.
    + destruct (star_cons H eq_refl) as [s1 [s2 [-> [H1 H2]]]].
      apply IHr in H1. exact (MSeq H1 H2).
Qed.

Lemma matchPrefix_spec (i : bool) (r : re) (s : jsstring) :
  matchPrefix i r s = true <-> exists m post, s = m ++ post /\ matches i r m.
Proof.
  revert r. induction s as [|c s IH]; intros r; simpl.
  - rewrite orb_false_r, nullable_spec with (i := i). split.
    + intros H. now exists [], [].
    + intros [m [post [Hs H]]]. symmetry in Hs.
      apply app_eq_nil in Hs as [-> _]. exact H.
  - rewrite orb_true_iff, nullable_spec with (i := i), IH. split.
    + intros [H|[m [post [-> H]]]].
      * now exists [], (c :: s).
      * exists (c :: m), post. split; [reflexivity | now apply deriv_spec].
    + intros [m [post [Hs H]]]. destruct m as [|x m]; [now left|].
      right. simpl in Hs. injection Hs as <- ->. exists m, post.
      split; [reflexivity | now apply deriv_spec].
Qed.

(** [test] finds a match exactly when some part of the string matches. *)
Lemma test_spec (i : bool) (r : re) (s : jsstring) :
  test i r s = true <->
  exists pre m post, s = pre ++ m ++ post /\ matches i r m.
Proof.
  induction s as [|c s IH]; cbn [test].
  - rewrite orb_false_r, matchPrefix_spec. split.
    + intros [m [post [Hs H]]]. now exists [], m, post.
    + intros [pre [m [post [Hs H]]]]. destruct pre; [|discriminate].
      now exists m, post.
  - rewrite orb_true_iff, matchPrefix_spec, IH. split.
    + intros [[m [post [Hs H]]]|[pre [m [post [Hs H]]]]].
      * now exists [], m, post.
      * exists (c :: pre), m, post. simpl. now rewrite Hs.
    + intros [pre [m [post [Hs H]]]]. destruct pre as [|x pre]; simpl in Hs.
      * left. now exists m, post.
      * right. injection Hs as _ ->. now exists pre, m, post.
Qed.

End Regex.

(* ================================================================== *)
(** * The duplicate resolver *)
(* ================================================================== *)

Module Resolver.
Import Js.

(** ** Rows of the [destinations] table

    A column that is [null] (or a property that is missing) is [None].
    Numbers come from JSON, so they are finite: they are rationals here. *)

Record DestinationImage := {
  img_url : jsstring;
  is_primary : bool;
  caption : option jsstring
}.

Record Destination := {
  id : option jsstring;
  name : option jsstring;
  description : option jsstring;
  province_id : option jsstring;
  image_url : option jsstring;
  location_lat : option Q;
  location_lng : option Q;
  (** joined rows, present on the destinations list page only *)
  destination_images : option (list DestinationImage);
  (** [provinces.name] of the joined province *)
  province_name : option jsstring
}.

(** ** Truthiness and coercions *)

(** A string or [null] is truthy when it is a non-empty string. *)
Definition truthyStr (o : option jsstring) : bool :=
  match o with
  | Some s => nonEmpty s
  | None => false
  end.

(** A number or [null] is truthy when it is a number other than zero. *)
Definition truthyNum (o : option Q) : bool :=
  match o with
  | Some q => negb (Qnum q =? 0)%Z
  | None => false
  end.

(** [x || ''] *)
Definition orEmpty (o : option jsstring) : jsstring :=
  match o with
  | Some s => if nonEmpty s then s else []
  | None => []
  end.

(** [String(x)] for a string or [null]. *)
Definition toStr (o : option jsstring) : jsstring :=
  match o with
  | Some s => s
  | None => lit "null"
  end.

(** ** The values [normalize] can be applied to *)

Inductive value :=
| Undefined
| Null
| Bool (b : bool)
| Str (s : jsstring).

Inductive error := TypeError.

Inductive outcome (A : Type) :=
| Returns (a : A)
| Throws (e : error).
Arguments Returns {A} a.
Arguments Throws {A} e.

Definition bind {A B} (o : outcome A) (f : A -> outcome B) : outcome B :=
  match o with
  | Returns a => f a
  | Throws e => Throws e
  end.

(** [String(v)] *)
Definition String_ (v : value) : jsstring :=
  match v with
  | Undefined => lit "undefined"
  | Null => lit "null"
  | Bool true => lit "true"
  | Bool false => lit "false"
  | Str s => s
  end.

Definition truthy (v : value) : bool :=
  match v with
  | Undefined | Null => false
  | Bool b => b
  | Str s => nonEmpty s
  end.

Section WithEngine.
Context {E : Engine}.

(** ** normalize *)

(** scripts/remove_duplicates.mjs:
    [(s = '') => String(s).toLowerCase().replace(/[^a-z0-9]/g, '').trim()].
    The default value replaces [undefined] only. *)
Definition normalize_script (s : value) : outcome jsstring :=
  let s := match s with Undefined => Str [] | _ => s end in
  Returns (trim (stripNonAlnum (toLowerCase (String_ s)))).

(** Admin page and destinations list page:
    [(s: string) => (s || '').toLowerCase().replace(/[^a-z0-9]/g, '').trim()].
    A truthy value that is not a string has no [toLowerCase]. *)
Definition normalize (s : value) : outcome jsstring :=
  let s := if truthy s then s else Str [] in
  match s with
  | Str s => Returns (trim (stripNonAlnum (toLowerCase s)))
  | _ => Throws TypeError
  end.

(** The key of a row, [normalize(d.name || '')]; the argument is a string
    at every call, so that the three copies agree on it. *)
Definition keyOf (d : Destination) : jsstring :=
  trim (stripNonAlnum (toLowerCase (orEmpty (name d)))).

(** ** Scores *)

(** scripts/remove_duplicates.mjs, and the same lines in the admin page. *)
Definition score (item : Destination) : Z :=
  let score := 0%Z in
  let score :=
    if truthyStr (description item)
       && (0 <? List.length (trim (toStr (description item))))%nat
    then (score + 2)%Z else score in
  let score := if truthyStr (province_id item) then (score + 1)%Z else score in
  let score := if truthyStr (image_url item) then (score + 2)%Z else score in
  let score :=
    if truthyNum (location_lat item) || truthyNum (location_lng item)
    then (score + 1)%Z else score in
  score.

(** An array or [undefined] with [x && x.length > 0]. *)
Definition hasImages (o : option (list DestinationImage)) : bool :=
  match o with
  | Some l => (0 <? List.length l)%nat
  | None => false
  end.

(** [dedupeDestinations] of the destinations list page. *)
Definition score_list (item : Destination) : Z :=
  let score := 0%Z in
  let score :=
    if truthyStr (description item)
       && (0 <? List.length (trim (toStr (description item))))%nat
    then (score + 2)%Z else score in
  let score := if truthyStr (province_id item) then (score + 1)%Z else score in
  let score := if truthyStr (image_url item) then (score + 2)%Z else score in
  let score :=
    if hasImages (destination_images item) then (score + 3)%Z else score in
  let score :=
    if truthyNum (location_lat item) || truthyNum (location_lng item)
    then (score + 1)%Z else score in
  score.

Record Scored := { item : Destination; points : Z }.

(** ** Comparators *)

(** scripts/remove_duplicates.mjs: score, then the longer description, then
    the id. *)
Definition compare_script (a b : Scored) : Z :=
  if negb (points b =? points a)%Z then (points b - points a)%Z
  else
    let al := Z.of_nat (List.length (orEmpty (description (item a)))) in
    let bl := Z.of_nat (List.length (orEmpty (description (item b)))) in
    if negb (bl =? al)%Z then (bl - al)%Z
    else localeCompare (orEmpty (id (item a))) (orEmpty (id (item b))).

(** Admin page and destinations list page: score, then the id. *)
Definition compare_id (a b : Scored) : Z :=
  if negb (points b =? points a)%Z then (points b - points a)%Z
  else localeCompare (orEmpty (id (item a))) (orEmpty (id (item b))).

(** ** Grouping

    [groups] is an object used as a map: its own properties in the order
    they were created, over [Object.prototype]. *)
Definition groups := list (jsstring * list Destination).

Definition objectPrototypeKeys : list jsstring :=
  map lit ["constructor"; "hasOwnProperty"; "isPrototypeOf";
           "propertyIsEnumerable"; "toLocaleString"; "toString"; "valueOf";
           "__defineGetter__"; "__defineSetter__"; "__lookupGetter__";
           "__lookupSetter__"; "__proto__"]%string.

Definition inherited (k : jsstring) : bool :=
  existsb (eqb k) objectPrototypeKeys.

Fixpoint getOwn (g : groups) (k : jsstring) : option (list Destination) :=
  match g with
  | [] => None
  | (k', l) :: g' => if eqb k' k then Some l else getOwn g' k
  end.

Fixpoint pushOwn (g : groups) (k : jsstring) (d : Destination) : groups :=
  match g with
  | [] => []
  | (k', l) :: g' =>
    if eqb k' k then (k', l ++ [d]) :: g' else (k', l) :: pushOwn g' k d
  end.

(** [if (!groups[key]) groups[key] = []; groups[key].push(d)].  A key that
    names a property of [Object.prototype] finds that property, which is
    truthy and has no [push]. *)
Definition addTo (g : groups) (d : Destination) : outcome groups :=
  let key := keyOf d in
  match getOwn g key with
  | Some _ => Returns (pushOwn g key d)
  | None =>
    if inherited key then Throws TypeError
    else Returns (g ++ [(key, [d])])
  end.

Fixpoint groupFrom (g : groups) (items : list Destination) : outcome groups :=
  match items with
  | [] => Returns g
  | d :: items' => bind (addTo g d) (fun g' => groupFrom g' items')
  end.

Definition groupAll (items : list Destination) : outcome groups :=
  groupFrom [] items.

(** ** Object.values

    Property names that are array indices come first, in increasing order;
    the other names follow in the order of their creation. *)
Definition isDigit (c : N) : bool := ((48 <=? c) && (c <=? 57))%N.

Definition numericValue (k : jsstring) : N :=
  fold_left (fun acc c => (acc * 10 + (c - 48))%N) k 0%N.

Definition isArrayIndex (k : jsstring) : bool :=
  match k with
  | [] => false
  | c :: r =>
    forallb isDigit k
    && (negb (c =? 48)%N || negb (nonEmpty r))
    && (numericValue k <? 4294967295)%N
  end.

Definition compareIndex (a b : jsstring * list Destination) : Z :=
  (Z.of_N (numericValue (fst a)) - Z.of_N (numericValue (fst b)))%Z.

Definition objectValues (g : groups) : list (list Destination) :=
  map snd
      (JsArray.sort compareIndex (filter (fun e => isArrayIndex (fst e)) g)
       ++ filter (fun e => negb (isArrayIndex (fst e))) g).

(** ** The three resolvers *)

Record Duplicate := { keep : Destination; remove : list Destination }.

Definition scoreAll (grp : list Destination) : list Scored :=
  map (fun item => {| item := item; points := score item |}) grp.

(** One group of scripts/remove_duplicates.mjs. *)
Definition duplicateOf (grp : list Destination) : list Duplicate :=
  if (List.length grp <=? 1)%nat then []
  else
    let scored := JsArray.sort compare_script (scoreAll grp) in
    match scored with
    | [] => []
    | s0 :: rest => [{| keep := item s0; remove := map item rest |}]
    end.

(** scripts/remove_duplicates.mjs: the list [duplicates]. *)
Definition duplicates (destinations : list Destination)
  : outcome (list Duplicate) :=
  bind (groupAll destinations)
       (fun g => Returns (flat_map duplicateOf (objectValues g))).

(** scripts/remove_duplicates.mjs: the list [toDelete]. *)
Definition toDelete (dups : list Duplicate) : list (option jsstring) :=
  flat_map (fun g => map id (remove g)) dups.

(** One group of the admin page: the rows whose ids are pushed. *)
Definition removedOf (grp : list Destination) : list Destination :=
  if (List.length grp <=? 1)%nat then []
  else map item (tl (JsArray.sort compare_id (scoreAll grp))).

(** Admin page: the list [idsToDelete]. *)
Definition idsToDelete (destinations : list Destination)
  : outcome (list (option jsstring)) :=
  bind (groupAll destinations)
       (fun g =>
          Returns (flat_map (fun grp => map id (removedOf grp))
                            (objectValues g))).

(** The keeper of a group of the admin page. *)
Definition keeperOf (grp : list Destination) : option Destination :=
  option_map item (hd_error (JsArray.sort compare_id (scoreAll grp))).

Definition scoreAll_list (grp : list Destination) : list Scored :=
  map (fun item => {| item := item; points := score_list item |}) grp.

(** One group of [dedupeDestinations]: the row that is kept.  A group is
    never empty; reading [scored[0].item] of an empty group would throw. *)
Definition chosenOf (grp : list Destination) : list Destination :=
  match grp with
  | [d] => [d]
  | _ =>
    match JsArray.sort compare_id (scoreAll_list grp) with
    | [] => []
    | s0 :: _ => [item s0]
    end
  end.

(** [new Map(items.map((it, idx) => [it.id, idx]))] followed by [get]: the
    last position at which the id occurs. *)
Definition sameId (a b : option jsstring) : bool :=
  match a, b with
  | Some x, Some y => eqb x y
  | None, None => true
  | _, _ => false
  end.

Fixpoint mapGet (i : option jsstring) (items : list Destination) (idx : nat)
         (found : option nat) : option nat :=
  match items with
  | [] => found
  | d :: items' =>
    mapGet i items' (S idx) (if sameId (id d) i then Some idx else found)
  end.

(** [indexMap.get(a.id) ?? 0] *)
Definition indexOf (items : list Destination) (a : Destination) : Z :=
  match mapGet (id a) items 0%nat None with
  | Some n => Z.of_nat n
  | None => 0%Z
  end.

Definition compare_position (items : list Destination) (a b : Destination)
  : Z := (indexOf items a - indexOf items b)%Z.

(** Destinations list page: [dedupeDestinations]. *)
Definition dedupeDestinations (items : list Destination)
  : outcome (list Destination) :=
  bind (groupAll items)
       (fun g =>
          let chosen := flat_map chosenOf (objectValues g) in
          Returns (JsArray.sort (compare_position items) chosen)).

End WithEngine.
End Resolver.

(* ================================================================== *)
(** * The local asset matcher: what the two pages share *)
(* ================================================================== *)

Module Matcher.
Import Js Regex.

(** One local image file, as both pages record it. *)
Record Entry := {
  path : jsstring;
  url : jsstring;
  filename : jsstring;
  key : jsstring
}.

(** The class of apostrophes of [normalizeForKey]: ['], [`] and U+2019. *)
Definition isApostrophe (c : N) : bool :=
  ((c =? 39) || (c =? 8217) || (c =? 96))%N.

(** The combining marks U+0300 to U+036F. *)
Definition isCombining (c : N) : bool := ((768 <=? c) && (c <=? 879))%N.

(** [path.split('/')] *)
Fixpoint splitSlashGo (s acc : jsstring) : list jsstring :=
  match s with
  | [] => [rev acc]
  | c :: s' =>
    if (c =? 47)%N then rev acc :: splitSlashGo s' []
    else splitSlashGo s' (c :: acc)
  end.

Definition splitSlash (s : jsstring) : list jsstring := splitSlashGo s [].

(** [filename.replace(/\.[^/.]+$/, '')]: the first place where a dot is
    followed, up to the end, by one or more characters other than a slash
    or a dot. *)
Fixpoint stripExtension (s : jsstring) : jsstring :=
  match s with
  | [] => []
  | c :: s' =>
    if (c =? 46)%N && nonEmpty s'
       && forallb (fun x => negb ((x =? 47) || (x =? 46))%N) s'
    then []
    else c :: stripExtension s'
  end.

(** [/\/src\/pictures\/|\\src\\pictures\\/i] *)
Definition picPattern : re :=
  anyOf [str "/src/pictures/";
         chars (92%N :: lit "src" ++ 92%N :: lit "pictures" ++ [92%N])].

Definition isPicture (e : Entry) : bool := test true picPattern (path e).

(** The comparator of [localImageEntries.sort]: entries under
    [src/pictures] first. *)
Definition comparePictures (a b : Entry) : Z :=
  let aPic := isPicture a in
  let bPic := isPicture b in
  if Bool.eqb aPic bPic then 0%Z
  else if aPic then (-1)%Z else 1%Z.

Section WithEngine.
Context {E : Engine}.

(** [normalizeForKey]; its argument is a string, on which [String(s || '')]
    changes nothing. *)
Definition normalizeForKey (s : jsstring) : jsstring :=
  stripNonAlnum
    (toLowerCase
       (filter (fun c => negb (isCombining c))
               (filter (fun c => negb (isApostrophe c)) (normalizeNFKD s)))).

(** One entry of [Object.entries(_localImages)]. *)
Definition mkEntry (file : jsstring * jsstring) : Entry :=
  let '(path, url) := file in
  let parts := splitSlash path in
  let filename := last parts [] in
  let nameWithoutExt := stripExtension filename in
  {| path := path; url := url; filename := filename;
     key := normalizeForKey nameWithoutExt |}.

(** [localImageEntries], from the files the bundler found. *)
Definition localImageEntries (files : list (jsstring * jsstring)) : list Entry :=
  JsArray.sort comparePictures (map mkEntry files).

End WithEngine.
End Matcher.

(* ================================================================== *)
(** * Texts shown for a destination without a description *)
(* ================================================================== *)

Module Text.
Import Js Regex.

Record Snippet := { pattern : re; text : jsstring }.

Definition snippet (r : re) (s : string) : Snippet :=
  {| pattern := r; text := lit s |}.

(** What [getFallback] and [getSnippet] return: a string, [null], or a
    property of [Object.prototype] found where an override was looked
    up. *)
Inductive result :=
| Text (s : jsstring)
| Null
| Inherited.

Fixpoint getOwn (o : list (jsstring * jsstring)) (k : jsstring)
  : option jsstring :=
  match o with
  | [] => None
  | (k', v) :: o' => if eqb k' k then Some v else getOwn o' k
  end.

(** [if (o[key]) return o[key]]: the value returned, if any. *)
Definition override (o : list (jsstring * jsstring)) (k : jsstring)
  : option result :=
  match getOwn o k with
  | Some v => if nonEmpty v then Some (Text v) else None
  | None => if Resolver.inherited k then Some Inherited else None
  end.

(** [table.find((f) => f.pattern.test(name))] *)
Definition findPattern (table : list Snippet) (name : jsstring)
  : option Snippet :=
  JsArray.find (fun f => test true (pattern f) name) table.

End Text.

(* ================================================================== *)
(** * The destination detail page *)
(* ================================================================== *)

Module Detail.
Import Js Regex Resolver Matcher Text.

Definition pinnawala : jsstring :=
  lit "The Pinnawala Elephant Orphanage is a sanctuary that cares for abandoned and injured elephants. Visitors can watch elephants being fed and bathed in the nearby river. It offers a rare opportunity to observe herds in a semi-natural environment. The orphanage plays a key role in elephant conservation in Sri Lanka.".

Definition manualTextOverrides : list (jsstring * jsstring) := [
  (lit "kegallepinnawalaelephanthorphanage", pinnawala);
  (lit "kegallepinnawelaelephanthorphanage", pinnawala);
  (lit "pinnawelaelephanthorphanage", pinnawala);
  (lit "pinnawela", pinnawala);
  (lit "pinnawalaelephanthorphanage", pinnawala)
].

(** Destination detail page: the table [fallbackDescriptions]. *)
Definition fallbackDescriptions : list Snippet := [
  (* /galle face/i *)
  snippet (str "galle face")
    "Galle Face Green is a long, oceanfront promenade built during the Dutch colonial period. It is one of the most popular places in Colombo for evening walks, relaxing by the sea, and enjoying street food like isso wade and kottu. The strong sea breeze and open space make it perfect for flying kites. It is also a great spot to watch sunsets, attracting locals and tourists alike.";
  (* /lotus tower/i *)
  snippet (str "lotus tower")
    "The Lotus Tower is the tallest structure in South Asia at 350 meters, offering a panoramic observation deck with 360-degree views of Colombo. The tower houses restaurants, exhibitions, and entertainment zones, and its colorful night lighting makes it a striking city landmark.";
  (* /independence square|independence arcade/i *)
  snippet (anyOf [str "independence square"; str "independence arcade"])
    "Independence Square is a national monument commemorating Sri Lanka’s independence. The surrounding gardens are peaceful and ideal for jogging, photos, and evening walks. The nearby Independence Arcade houses shops and restaurants in a restored colonial building.";
  (* /colombo national museum|national museum/i *)
  snippet (anyOf [str "colombo national museum"; str "national museum"])
    "The National Museum showcases Sri Lanka’s ancient heritage with royal regalia, statues, and Kandyan monarchy artifacts. Its historic architecture provides a classic colonial atmosphere and the grounds are spacious and shaded for a pleasant educational visit.";
  (* /dutch hospital/i *)
  snippet (str "dutch hospital")
    "The Dutch Hospital precinct is a restored colonial building converted into a stylish shopping and dining complex featuring cafes, pubs, restaurants, and boutique shops. The preserved architecture creates a charming ambience, lively at night with music and entertainment.";
  (* /mount lavinia/i *)
  snippet (str "mount lavinia")
    "Mount Lavinia Beach is a popular urban beach with golden sand and calm waves, known for seafood restaurants along the shore. It’s ideal for swimming, beach photography, and offers a lively nightlife after sunset.";
  (* /dehiwala zoo|zoo/i *)
  snippet (anyOf [str "dehiwala zoo"; str "zoo"])
    "Dehiwala Zoo is one of Asia’s oldest zoological gardens, home to a wide range of animals and birds, daily animal shows including elephants, and a beautiful butterfly garden — a family-friendly attraction.";
  (* /diyatha uyana/i *)
  snippet (str "diyatha uyana")
    "Diyatha Uyana is a lakeside recreational area with walking paths, fish ponds, open-air restaurants, and a weekend market — clean, calm, and ideal for evening strolls with beautiful night lighting by the water.";
  (* /beddagana/i *)
  snippet (str "beddagana")
    "Beddagana Wetland Park preserves a wetland ecosystem of birds and butterflies with elevated wooden paths for safe exploration — perfect for nature lovers, joggers, and photographers.";
  (* /attidiya/i *)
  snippet (str "attidiya")
    "Attidiya Bird Sanctuary is a natural wetland sanctuary attracting local and migratory bird species, offering excellent birdwatching opportunities and a peaceful ecosystem close to the city.";
  (* /kelaniya|kelaniya raja maha viharaya/i *)
  snippet (anyOf [str "kelaniya"; str "kelaniya raja maha viharaya"])
    "Kelaniya Raja Maha Viharaya is a sacred Buddhist temple famed for its stunning murals and architecture. It hosts the annual Duruthu Perahera and is known as a place for spiritual ceremonies and blessings.";
  (* /negombo beach/i *)
  snippet (str "negombo beach")
    "Negombo Beach is a long sandy coastline known for water sports, sunset views, and traditional fishing catamarans. The nearby town offers lively restaurants and markets, and it’s close to the airport.";
  (* /negombo lagoon/i *)
  snippet (str "negombo lagoon")
    "Negombo Lagoon is a rich brackish-water ecosystem with mangroves and birdlife, popular for boat rides and eco-tours. Local fishermen use traditional methods and lagoon crab harvesting is common.";
  (* /hamilton canal/i *)
  snippet (str "hamilton canal")
    "Hamilton Canal, built during colonial times, once connected Colombo and Negombo. Today visitors enjoy peaceful boat rides and scenic views of village life and wetlands along the canal.";
  (* /muthurajawela/i *)
  snippet (str "muthurajawela")
    "Muthurajawela Wetlands is one of Sri Lanka’s largest wetlands, home to rare birds, crocodiles, and diverse plant life. Boat tours explore deep into the marshes and highlight an important biodiversity zone.";
  (* /kalutara bodhiya|kalutara temple/i *)
  snippet (anyOf [str "kalutara bodhiya"; str "kalutara temple"])
    "Kalutara Bodhiya is a major Buddhist shrine identifiable by its large white stupa beside the riverside. The hollow stupa allows visitors to walk inside and many devotees stop to offer prayers.";
  (* /richmond castle/i *)
  snippet (str "richmond castle")
    "Richmond Castle is an elegant early 1900s mansion inspired by Indian palace architecture, noted for carved woodwork, stained glass, spacious halls and picturesque gardens.";
  (* /kalutara beach/i *)
  snippet (str "kalutara beach")
    "Kalutara Beach is a wide sandy shore popular for resorts and peaceful seaside relaxation, quieter than Colombo and Negombo and suitable for swimming in calmer areas.";
  (* /moragalla/i *)
  snippet (str "moragalla")
    "Moragalla Beach is a shallow, calm beach with crystal-clear water ideal for snorkeling and peaceful escapes away from crowds.";
  (* /barberyn|beruwala lighthouse|barberyn island/i *)
  snippet (anyOf [str "barberyn"; str "beruwala lighthouse"; str "barberyn island"])
    "Beruwala (Barberyn) Island features a historic lighthouse built in 1889; a short boat ride offers great ocean views and photography opportunities.";
  (* /kande viharaya/i *)
  snippet (str "kande viharaya")
    "Kande Viharaya is a large southern Buddhist temple famous for its giant Buddha statue, ancient frescoes, and peaceful meditation areas — a popular pilgrimage site.";
  (* /thudugala/i *)
  snippet (str "thudugala")
    "Thudugala Waterfall is a small scenic waterfall with a shallow natural pool suitable for bathing, surrounded by forest walking paths and wildlife.";
  (* /horana lakshapana|lakshapana tea museum/i *)
  snippet (anyOf [str "horana lakshapana"; str "lakshapana tea museum"])
    "Horana Lakshapana Tea Museum showcases Sri Lanka’s tea industry history, old machinery, and offers tea tastings in a setting surrounded by small tea estates.";
  (* /temple of the tooth|dalada maligawa|tooth relic/i *)
  snippet (anyOf [str "temple of the tooth"; str "dalada maligawa"; str "tooth relic"])
    "The Temple of the Tooth Relic (Sri Dalada Maligawa) is one of Sri Lanka’s most sacred Buddhist temples, housing the revered tooth relic of Lord Buddha. Its Kandyan architecture features golden ornaments and traditional wooden carvings. Hundreds of devotees visit daily, and during the Esala Perahera the temple becomes the center of a grand cultural festival.";
  (* /kandy lake|sea of milk/i *)
  snippet (anyOf [str "kandy lake"; str "sea of milk"])
    "Kandy Lake (the ‘Sea of Milk’) is an artificial lake built in 1807. The lakeside walkway is perfect for peaceful strolls, birdwatching, and photography. The calm water and surrounding hills create a serene atmosphere in the heart of Kandy.";
  (* /peradeniya botanical|peradeniya garden/i *)
  snippet (anyOf [str "peradeniya botanical"; str "peradeniya garden"])
    "Peradeniya Botanical Garden is Sri Lanka’s largest botanical garden, home to over 4,000 plant species. It is famous for its orchid house, Royal Palm Avenue and ancient fig trees — a must-visit for nature lovers and photographers.";
  (* /udawatte kele|udawatta kele|udawatte/i *)
  snippet (anyOf [str "udawatte kele"; str "udawatta kele"; str "udawatte"])
    "Udawatte Kele Sanctuary is a historic forest reserve behind the Temple of the Tooth, once reserved for Kandyan royalty. The shaded trails host diverse birdlife, monkeys and reptiles — a refreshing escape from the city.";
  (* /knuckles|knuckles mountain/i *)
  snippet (anyOf [str "knuckles"; str "knuckles mountain"])
    "The Knuckles Mountain Range, a UNESCO-listed area, is known for misty peaks, deep valleys and rich biodiversity. It’s a premier hiking destination offering routes from easy walks to challenging treks and spectacular viewpoints.";
  (* /hunnasgiriya/i *)
  snippet (str "hunnasgiriya")
    "Hunnasgiriya is a cool, misty mountain near the Knuckles Range offering panoramic views of tea plantations and villages — a peaceful spot for moderate hikes and nature observation.";
  (* /sembuwatta/i *)
  snippet (str "sembuwatta")
    "Sembuwatta Lake is a scenic man-made lake surrounded by pine forests and tea estates with turquoise waters ideal for picnics, paddle boating and relaxing in the cool mountain air.";
  (* /ambuluwawa/i *)
  snippet (str "ambuluwawa")
    "Ambuluwawa Tower is a multi-religious biodiversity center with a distinctive spiral tower. Visitors can climb the external winding staircase for panoramic 360-degree views and explore the gardens and sanctuaries.";
  (* /riverston/i *)
  snippet (str "riverston")
    "Riverston is a cool plateau in the Knuckles region known for windy viewpoints, dramatic drops and scenic drives — a favorite among hikers and photographers.";
  (* /bambarakiri|bambarakiri ella/i *)
  snippet (anyOf [str "bambarakiri"; str "bambarakiri ella"])
    "Bambarakiri Ella is a picturesque waterfall surrounded by lush greenery with a hanging bridge offering great views; it’s an ideal spot for nature lovers and peaceful picnics.";
  (* /balangoda|fa\-?hien|fa hien|fa-hien cave|fa hien cave/i *)
  snippet (anyOf [str "balangoda"; seqOf [str "fa"; Opt (str "-"); str "hien"]; str "fa hien"; str "fa-hien cave"; str "fa hien cave"])
    "Balangoda Caves, also known as Fa-Hien Cave, are among the largest prehistoric cave sites in Sri Lanka, famous for discoveries related to the island’s earliest human settlers known as the ‘Balangoda Man.’ The cave has revealed tools, skeletal remains, and evidence of human activity dating back over 38,000 years, making it a significant archaeological treasure. Its massive rock overhang and forest surroundings create a dramatic and atmospheric natural setting. Today, the cave stands as one of Sri Lanka’s most important prehistoric heritage sites, offering insights into human evolution and ancient lifestyles.";
  (* /bogoda|bogoda wooden bridge/i *)
  snippet (anyOf [str "bogoda"; str "bogoda wooden bridge"])
    "Bogoda Wooden Bridge is one of Sri Lanka’s oldest surviving wooden bridges, believed to date back to the 16th century during the Kandyan era. It is built entirely from timber—without a single nail—using traditional carpentry techniques and beautifully carved wooden pillars. The bridge sits beside the historic Bogoda Raja Maha Viharaya and spans a quiet stream surrounded by lush greenery. Today, it stands as a rare example of ancient craftsmanship and remains a peaceful cultural landmark in the Badulla district.";
  (* /nalanda gedige/i *)
  snippet (str "nalanda gedige")
    "Nalanda Gedige is an ancient stone temple blending Hindu and Buddhist architectural styles, considered by some to be the geographical center of Sri Lanka and notable for its mysterious historical significance.";
  (* /(?:abha?ya(?:giri|giriya)|abayagiri|abhayagiri)(?:\s*(?:stupa|vihara|temple|monastery))?/i *)
  snippet (seqOf [anyOf [seqOf [str "abh"; Opt (str "a"); str "ya"; anyOf [str "giri"; str "giriya"]]; str "abayagiri"; str "abhayagiri"]; Opt (seqOf [Star Space; anyOf [str "stupa"; str "vihara"; str "temple"; str "monastery"]])])
    "A sprawling monastery complex once home to 5,000 monks, Abhayagiri was one of the greatest Buddhist universities in the ancient world. Built in the 1st century BC, it attracted scholars from China, India, and Southeast Asia. The massive Abhayagiri Stupa, ornate carvings, and monastic ruins reveal the brilliance of ancient architecture and the intellectual vibrancy of the kingdom.";
  (* /aluvihare|aluvihare rock temple/i *)
  snippet (anyOf [str "aluvihare"; str "aluvihare rock temple"])
    "Aluvihare Rock Temple is the place where Buddhist scriptures (Tripitaka) were first written down on palm leaves. The temple features a series of caves filled with ancient paintings and statues. It played a critical role in preserving Buddhist teachings. The atmosphere is quiet, spiritual, and full of historical significance.";
  (* /avukana|aukana|avukana buddha|aukana buddha|avukana statue/i *)
  snippet (anyOf [str "avukana"; str "aukana"; str "avukana buddha"; str "aukana buddha"; str "avukana statue"])
    "The Avukana Buddha Statue is a towering 40-foot standing Buddha carved out of a single granite rock during the 5th century, showcasing extraordinary ancient craftsmanship. The statue depicts the Buddha in the Asisa Mudra, symbolizing blessing and reassurance, with incredibly detailed robes that appear to flow naturally. It stands near the Kala Wewa reservoir, adding to its serene and majestic atmosphere. Today, Avukana remains one of Sri Lanka’s most iconic Buddhist sculptures and a remarkable testament to the island’s artistic and spiritual heritage.";
  (* /matale spice|spice gardens/i *)
  snippet (anyOf [str "matale spice"; str "spice gardens"])
    "Matale Spice Gardens showcase cinnamon, pepper, cardamom and vanilla cultivation with guided tours, spice demonstrations and shops selling natural products and Ayurvedic oils.";
  (* /anuradhapura|anuradhapura sacred city/i *)
  snippet (anyOf [str "anuradhapura"; str "anuradhapura sacred city"])
    "Anuradhapura Sacred City is an ancient royal capital founded in the 4th century BC and is one of South Asia’s greatest archaeological and spiritual centers. It is home to massive stupas, vast monastic complexes, and the revered Jaya Sri Maha Bodhi, believed to be the oldest historically documented tree in the world. The city showcases the height of early Sri Lankan engineering, including intricate irrigation systems and monumental architecture. Today, Anuradhapura is a UNESCO World Heritage Site and remains a major pilgrimage destination that reflects the island’s deep Buddhist heritage.";
  (* /katugas ella|katugasella|katugas/i *)
  snippet (anyOf [str "katugas ella"; str "katugasella"; str "katugas"])
    "Katugas Ella is a beautiful waterfall hidden within the lush greenery of Kegalle. It is known for its peaceful natural pool formed at the base of the falls. The surrounding forest provides a cool and refreshing atmosphere, making it perfect for short hikes and nature relaxation.";
  (* /kegalle\s*-?\s*pinnawala|pinnawala|pinnawala elephant orphanage|kegalle pinnawala elephant orphanage/i *)
  snippet (anyOf [seqOf [str "kegalle"; Star Space; Opt (str "-"); Star Space; str "pinnawala"]; str "pinnawala"; str "pinnawala elephant orphanage"; str "kegalle pinnawala elephant orphanage"])
    "The Pinnawala Elephant Orphanage is a sanctuary that cares for abandoned and injured elephants. Visitors can watch elephants being fed and bathed in the nearby river. It offers a rare opportunity to observe herds in a semi-natural environment. The orphanage plays a key role in elephant conservation in Sri Lanka and provides educational visits for visitors who want to learn about elephant care and rehabilitation.";
  (* /kitulgala|kithulgala/i *)
  snippet (anyOf [str "kitulgala"; str "kithulgala"])
    "Kitulgala is a scenic town famous for adventurous water activities, especially white-water rafting. Surrounded by dense rainforests, waterfalls and natural pools, the area is ideal for eco-tourism, birdwatching and hiking. It is also known as a filming location for ‘The Bridge on the River Kwai’.";
  (* /pahiyangala|pahiyangala cave|fa-?hien cave|fa hien cave/i *)
  snippet (anyOf [str "pahiyangala"; str "pahiyangala cave"; seqOf [str "fa"; Opt (str "-"); str "hien cave"]; str "fa hien cave"])
    "Pahiyangala (Fa Hien Cave) is one of the largest natural rock caves in Asia and holds great archaeological importance. Named after the Chinese monk Fa Hien, excavations have revealed evidence of prehistoric human settlements. The cave’s massive entrance and surrounding forest make it a stunning natural attraction.";
  (* /pelmadulla falls|pelmadulla/i *)
  snippet (anyOf [str "pelmadulla falls"; str "pelmadulla"])
    "Pelmadulla Falls refers to several picturesque waterfalls in the Pelmadulla area, where natural streams flow through rocky terrain and thick greenery. These falls offer peaceful picnic spots, cool waters and tranquil environments popular with nature lovers.";
  (* /saman dewalaya|saman devalaya|saman dewalaya sabaragamuwa/i *)
  snippet (anyOf [str "saman dewalaya"; str "saman devalaya"; str "saman dewalaya sabaragamuwa"])
    "Saman Dewalaya is a major Buddhist temple in Sabaragamuwa dedicated to God Saman, a revered guardian deity of Sri Lanka. The shrine is known for its historic architecture and spiritual significance; devotees gather during the annual Saman Devala Perahera to participate in colorful processions.";
  (* /sinharaja|sinharaja rain forest|sinharaja rainforest/i *)
  snippet (anyOf [str "sinharaja"; str "sinharaja rain forest"; str "sinharaja rainforest"])
    "Sinharaja Rain Forest is Sri Lanka’s last remaining primary tropical rainforest and a UNESCO World Heritage Site. It is exceptionally rich in biodiversity with many rare and endemic species. Guided nature trails offer a chance to explore its untouched canopy and unique wildlife.";
  (* /udawalawa elephant transit home|udawalawa transit home|elephant transit home udawalawe/i *)
  snippet (anyOf [str "udawalawa elephant transit home"; str "udawalawa transit home"; str "elephant transit home udawalawe"])
    "The Udawalawe Elephant Transit Home rehabilitates orphaned baby elephants until they are fit to return to the wild. Visitors can observe feeding times from a safe distance; the facility focuses on minimal human contact to encourage natural behavior and supports national conservation efforts.";
  (* /udawalawe national park|udawalawe national park|udawalawe/i *)
  snippet (anyOf [str "udawalawe national park"; str "udawalawe national park"; str "udawalawe"])
    "Udawalawe National Park is one of the best places in Sri Lanka to see wild elephants in their natural habitat. The park’s open grasslands, forests and reservoir create diverse ecosystems supporting elephants, water buffalo, deer, crocodiles and many bird species — making it ideal for safari tours.";
  (* /isurumuniya/i *)
  snippet (str "isurumuniya")
    "Isurumuniya is a beautiful ancient rock temple in Anuradhapura known for its exquisite stone carvings. The famous ‘Isurumuniya Lovers’ sculpture is one of Sri Lanka’s most iconic artworks. The temple combines natural rock formations with serene Buddhist architecture. Its peaceful atmosphere makes it a favorite spiritual and historical site.";
  (* /jaya sri maha bodhi|jaya sri maha bodhiya|jaya sri maha bodhi/i *)
  snippet (anyOf [str "jaya sri maha bodhi"; str "jaya sri maha bodhiya"; str "jaya sri maha bodhi"])
    "The Jaya Sri Maha Bodhiya is one of the oldest living trees in the world with a recorded history. It is believed to be a sapling from the Bodhi tree under which Lord Buddha attained Enlightenment. Revered by millions, it is among the most sacred Buddhist sites in Sri Lanka. Devotees visit daily to offer prayers, flowers, and traditional rituals.";
  (* /kala wewa|kalawewa|kala wewa reservoir/i *)
  snippet (anyOf [str "kala wewa"; str "kalawewa"; str "kala wewa reservoir"])
    "Kala Wewa is a massive ancient reservoir built by King Dhatusena in the 5th century. It showcases the advanced engineering skills of ancient Sri Lankan civilization. The tank provides irrigation to large farming areas in the North Central Province. Its scenic surroundings and calm waters make it a peaceful getaway.";
  (* /kaudulla national park|kaudulla/i *)
  snippet (anyOf [str "kaudulla national park"; str "kaudulla"])
    "Kaudulla National Park is a wildlife sanctuary famous for its large herds of wild elephants. The park’s lush landscapes and water sources attract animals throughout the year. Safari visitors often spot deer, peacocks, crocodiles, and many bird species. It is one of the best places in Sri Lanka to observe elephants in their natural habitat.";
  (* /mihinthale/i *)
  snippet (str "mihinthale")
    "Mihinthale is the sacred mountain where Buddhism was first introduced to Sri Lanka. It is considered the birthplace of Buddhism in the country. The site has ancient stupas, stone stairways, and panoramic viewpoints. Pilgrims and travellers visit to experience its deep spiritual and historical significance.";
  (* /minneriya national park|minneriya/i *)
  snippet (anyOf [str "minneriya national park"; str "minneriya"])
    "Minneriya National Park is home to the world-famous ‘Gathering’ of elephants, one of the largest yearly elephant gatherings. The Minneriya Tank attracts wildlife during the dry season, making it ideal for safaris. Visitors can see elephants, monkeys, reptiles, and many birds. The park’s grasslands and forests offer a vibrant wildlife experience.";
  (* /parakrama samudra|parakrama samudraya/i *)
  snippet (anyOf [str "parakrama samudra"; str "parakrama samudraya"])
    "Parakrama Samudra is a vast ancient reservoir built by King Parakramabahu the Great. It consists of several interconnected tanks forming one large water body. The famous saying ‘Not even a drop of water should flow to the sea unused’ reflects its purpose. Its surroundings are picturesque, especially during sunrise and sunset.";
  (* /pidurangala rock|pidurangala/i *)
  snippet (anyOf [str "pidurangala rock"; str "pidurangala"])
    "Pidurangala Rock is a popular hiking destination offering stunning views of Sigiriya Lion Rock. The climb is adventurous, with rocks and forest pathways. At the summit, travellers are rewarded with panoramic landscapes and peaceful views. It is a quieter and more natural alternative to climbing Sigiriya.";
  (* /polonnaruwa|polonnaruwa ancient city/i *)
  snippet (anyOf [str "polonnaruwa"; str "polonnaruwa ancient city"])
    "Polonnaruwa Ancient City is a UNESCO World Heritage Site filled with well-preserved ruins of palaces, temples, and statues. It was once a thriving royal capital of Sri Lanka. Highlights include the Gal Vihara Buddha statues and the Royal Palace complex. The city showcases the grandeur of medieval Sri Lankan architecture.";
  (* /ritigala/i *)
  snippet (str "ritigala")
    "Ritigala is a mysterious forest-covered mountain with ancient monastic ruins. The site is known for its cool climate and unique biodiversity compared to the surrounding dry zone. Ancient meditation pathways and stone structures reveal its monastic history. Its peaceful, untouched environment gives it an almost mythical atmosphere.";
  (* /ruwanweliseya|ruwanwelisaya|ruwan weliseya/i *)
  snippet (anyOf [str "ruwanweliseya"; str "ruwanwelisaya"; str "ruwan weliseya"])
    "Ruwanweliseya is one of the most revered stupas in Sri Lanka, built by King Dutugemunu. Its large white dome symbolizes purity and Buddhist devotion. The stupa holds great historical and religious significance for Buddhists worldwide. Thousands of pilgrims visit each year to pay homage.";
  (* /thuparamaya|thuparamaya stupa/i *)
  snippet (anyOf [str "thuparamaya"; str "thuparamaya stupa"])
    "Thuparamaya is the earliest documented Buddhist stupa in Sri Lanka, built during King Devanampiya Tissa’s reign. It is believed to enshrine the sacred right collarbone relic of Lord Buddha. The stupa’s distinctive ‘vata-da-ge’ structure of stone pillars surrounds it. It remains an important pilgrimage site with deep cultural value.";
  (* /nuwara eliya|little england/i *)
  snippet (anyOf [str "nuwara eliya"; str "little england"])
    "Nuwara Eliya (‘Little England’) is a cool hill station known for colonial-era architecture, tea plantations, lakes and gardens — a romantic and scenic mountain retreat.";
  (* /horton plains|world's end|worlds end/i *)
  snippet (anyOf [str "horton plains"; str "world's end"; str "worlds end"])
    "Horton Plains National Park features misty grasslands and the famous ‘World’s End’ cliff with an 870m drop. Early morning visits are best to avoid fog and to see sweeping views and Baker’s Falls.";
  (* /gregory lake/i *)
  snippet (str "gregory lake")
    "Gregory Lake is a central reservoir in Nuwara Eliya offering boat rides, water sports, horse rides and lakeside picnics with well-maintained walking paths and lively evenings.";
  (* /victoria park/i *)
  snippet (str "victoria park")
    "Victoria Park is one of Sri Lanka’s oldest parks featuring flowers, ponds and shaded walkways; it’s especially colorful during the flowering season and popular with birdwatchers.";
  (* /lovers' leap|lovers leap/i *)
  snippet (anyOf [str "lovers' leap"; str "lovers leap"])
    "Lovers’ Leap Waterfall is a tall, narrow fall framed by tea estates and a local legend; the short trek offers scenic valley views and a peaceful setting.";
  (* /moon plains/i *)
  snippet (str "moon plains")
    "Moon Plains is an open grassland with panoramic 360-degree mountain views and a ‘Mini World’s End’ viewpoint overlooking deep valleys — ideal for photography and quiet walks.";
  (* /bomburu ella/i *)
  snippet (str "bomburu ella")
    "Bomburu Ella is a wide, multi-cascade waterfall offering impressive views; the hike through forests and streams makes it a rewarding eco-tourism destination.";
  (* /diyaluma|diyaluma falls|diyaluma waterfall/i *)
  snippet (anyOf [str "diyaluma"; str "diyaluma falls"; str "diyaluma waterfall"])
    "Diyaluma Falls is the second-highest waterfall in Sri Lanka, standing at about 220 meters near Koslanda in the Badulla District. It is famous for its multi-tier cascading streams and the natural infinity pools at the top, where visitors can swim while enjoying breathtaking views of the surrounding mountains and valleys. The hike to the upper pools is relatively easy and offers one of the most scenic waterfall experiences in the country.";
  (* /dunhinda|dunhinda falls|dunhinda waterfall/i *)
  snippet (anyOf [str "dunhinda"; str "dunhinda falls"; str "dunhinda waterfall"])
    "Dunhinda Falls is one of Sri Lanka’s most beautiful waterfalls, located near Badulla in the Uva Province. The waterfall is about 64 meters high and is famous for the misty spray created as the water crashes down—this mist inspired the name ‘Dunhinda’ meaning ‘smoky waterfall’. Visitors walk a scenic jungle path to the viewpoint, enjoying small streams and wildlife along the way. It’s a peaceful, picturesque location popular among both tourists and locals.";
  (* /haputale|haputhale|haputal?e/i *)
  snippet (anyOf [str "haputale"; str "haputhale"; seqOf [str "haputa"; Opt (str "l"); str "e"]])
    "Haputale is a cool, misty mountain town in the Badulla District, famous for its stunning viewpoints and lush green tea estates. Located on the southern edge of Sri Lanka’s hill country at over 1,400 meters above sea level, it offers refreshing weather and dramatic scenery. The town is surrounded by Lipton's Seat, Adisham Bungalow, and sprawling plantations that create some of the country’s most scenic train rides. Haputale is peaceful, nature-rich, and perfect for hiking, photography, and enjoying quiet hill-country life.";
  (* /lipton'?s\s*seat|liptons\s*seat|lipton seat/i *)
  snippet (anyOf [seqOf [str "lipton"; Opt (str "'"); str "s"; Star Space; str "seat"]; seqOf [str "liptons"; Star Space; str "seat"]; str "lipton seat"])
    "Lipton's Seat is a famous viewpoint in the Haputale hills, rising to about 1,970 meters above sea level. Named after Sir Thomas Lipton, who used it to view his Dambatenne tea plantation, the lookout provides sweeping panoramas of misty tea fields, undulating hills and distant lakes on clear mornings. The route to the viewpoint — a scenic trek or short tuk‑tuk ride through lush tea estates — is part of the experience and adds to its charm.";
  (* /little\s*adam'?s?\s*peak|little\s*adam/i *)
  snippet (anyOf [seqOf [str "little"; Star Space; str "adam"; Opt (str "'"); Opt (str "s"); Star Space; str "peak"]; seqOf [str "little"; Star Space; str "adam"]])
    "Little Adam’s Peak, located in Ella in the Badulla District, is one of Sri Lanka’s most popular and easily accessible hiking spots. The trail is short and beginner-friendly, offering stunning panoramic views of rolling hills, tea plantations, and surrounding valleys; the summit provides a peaceful atmosphere with spectacular sunrise and sunset scenes. It’s an ideal hike for travelers seeking a rewarding climb without high difficulty.";
  (* /namunukula|namu?nukula\s*mountain/i *)
  snippet (anyOf [str "namunukula"; seqOf [str "nam"; Opt (str "u"); str "nukula"; Star Space; str "mountain"]])
    "Namunukula Mountain, located near Ella and Badulla, is a prominent peak known for its nine summits and panoramic views over the Uva Province. The trek offers a mix of pine forests, grasslands, and misty cloud forests, and is popular among hikers for its peaceful, untouched natural setting. From the top, visitors can enjoy breathtaking sunrise and sunset views.";
  (* /okkampitiya|okkampitiya archaeological|okkampitiya site/i *)
  snippet (anyOf [str "okkampitiya"; str "okkampitiya archaeological"; str "okkampitiya site"])
    "The Okkampitiya Archaeological Site in Monaragala is an ancient heritage area linked to early Buddhist settlements. The site contains ruins of old monasteries, stone pillars and artifacts that reflect the region’s historical significance. It’s a quiet, less-visited site ideal for exploring Sri Lanka’s early cultural history and archaeological context.";
  (* /ravana\s*cave|ravana'?s?\s*cave/i *)
  snippet (anyOf [seqOf [str "ravana"; Star Space; str "cave"]; seqOf [str "ravana"; Opt (str "'"); Opt (str "s"); Star Space; str "cave"]])
    "Ravana Cave near Ella is a small limestone cave associated with the legend of King Ravana from the Ramayana. Access requires climbing a steep stairway through a forested path; inside you’ll find narrow passages and rock formations that lend a mysterious atmosphere. It’s a popular cultural stop when exploring Ravana heritage sites.";
  (* /ravana\s*falls|ravana\s*fall/i *)
  snippet (anyOf [seqOf [str "ravana"; Star Space; str "falls"]; seqOf [str "ravana"; Star Space; str "fall"]])
    "Ravana Falls is one of Sri Lanka’s most famous waterfalls, cascading in multiple tiers from the Ella mountain range. The falls are especially scenic during the rainy season and are easily accessible from the Ella–Wellawaya road, making them popular with visitors who enjoy the cool mist and natural rock pools nearby.";
  (* /st\. clair|devon falls|st clair/i *)
  snippet (anyOf [str "st. clair"; str "devon falls"; str "st clair"])
    "St. Clair’s and Devon Falls are two of Sri Lanka’s most photographed waterfalls, offering dramatic views along the Hatton–Nuwara Eliya road with excellent photo vantage points.";
  (* /pidurutalagala|mount pidurutalagala/i *)
  snippet (anyOf [str "pidurutalagala"; str "mount pidurutalagala"])
    "Pidurutalagala is Sri Lanka’s highest mountain (2,524m) with restricted summit access; on clear days it offers sweeping highland views and cool mountain air.";
  (* /ramboda falls/i *)
  snippet (str "ramboda falls")
    "Ramboda Falls is a multi-layered waterfall near the Ramboda Pass surrounded by tea estates and forests — a scenic stop on routes to Nuwara Eliya.";
  (* /bluefield|pedro tea|pedro estate/i *)
  snippet (anyOf [str "bluefield"; str "pedro tea"; str "pedro estate"])
    "Bluefield and Pedro Tea Estates offer guided tours of tea cultivation and processing, tea tastings, and scenic views across rolling hills and misty tea country.";
  (* /galle fort/i *)
  snippet (str "galle fort")
    "Galle Fort is a UNESCO World Heritage Site first built by the Portuguese and later expanded by the Dutch in the 17th century. It’s a living colonial town with narrow cobbled streets, churches, museums, boutique cafes, old mansions and ocean ramparts — ideal for strolling, exploring history and watching sunsets from the walls.";
  (* /unawatuna beach|unawatuna/i *)
  snippet (anyOf [str "unawatuna beach"; str "unawatuna"])
    "Unawatuna Beach is a popular golden-sand beach with calm shallow waters perfect for swimming, snorkeling and beginner diving. The shoreline is lined with beach restaurants and guesthouses, producing a lively evening atmosphere.";
  (* /jungle beach/i *)
  snippet (str "jungle beach")
    "Jungle Beach is a small secluded bay tucked between forested hills near Unawatuna, with turquoise water ideal for snorkeling and kayaking — a peaceful alternative to busier beaches.";
  (* /japanese peace pagoda/i *)
  snippet (str "japanese peace pagoda")
    "The Japanese Peace Pagoda is a serene white stupa built by Japanese Buddhist monks, located on a hill between Unawatuna and Jungle Beach. It symbolizes peace and offers panoramic coastal views including Galle Fort and nearby lighthouses.";
  (* /koggala lake|koggala/i *)
  snippet (anyOf [str "koggala lake"; str "koggala"])
    "Koggala Lake is a freshwater lake surrounded by cinnamon plantations, small islands, temples and rich birdlife. Boat rides to Cinnamon Island, spice gardens and hermitages are popular activities.";
  (* /mirissa beach|mirissa/i *)
  snippet (anyOf [str "mirissa beach"; str "mirissa"])
    "Mirissa Beach is a crescent-shaped, turquoise-sanded beach known for surfing, a lively nightlife, beachfront restaurants and as a departure point for whale-watching tours.";
  (* /secret beach/i *)
  snippet (str "secret beach")
    "Secret Beach (near Mirissa) is a quiet, hidden cove with coconut trees, shallow lagoons and rock pools — a peaceful spot for photography and relaxation.";
  (* /coconut hill/i *)
  snippet (str "coconut hill")
    "Coconut Hill is a scenic headland of leaning coconut palms known for dramatic sunset photography and sweeping coastal views.";
  (* /whale watching|whale watching mirissa|mirissa whale/i *)
  snippet (anyOf [str "whale watching"; str "whale watching mirissa"; str "mirissa whale"])
    "Mirissa is one of the world’s top whale-watching spots; early-morning boat tours commonly sight blue whales, sperm whales and dolphins during peak season (November–April).";
  (* /hikkaduwa coral|hikkaduwa coral sanctuary/i *)
  snippet (anyOf [str "hikkaduwa coral"; str "hikkaduwa coral sanctuary"])
    "Hikkaduwa Coral Sanctuary protects colorful coral reefs and tropical fish; snorkeling provides close encounters with marine life and sometimes sea turtles.";
  (* /hikkaduwa beach/i *)
  snippet (str "hikkaduwa beach")
    "Hikkaduwa Beach is a surfing and water-sports hotspot with lively seafood dining, nightlife and a mix of backpacker and luxury offerings.";
  (* /dodanduwa turtle|dodanduwa/i *)
  snippet (anyOf [str "dodanduwa turtle"; str "dodanduwa"])
    "Dodanduwa Turtle Hatchery is a conservation project protecting rescued turtle eggs and releasing hatchlings; visitors learn about sea turtle rehabilitation and conservation efforts.";
  (* /tangalle beach|tangalle/i *)
  snippet (anyOf [str "tangalle beach"; str "tangalle"])
    "Tangalle Beach is a long, quiet coastline with turquoise water, soft golden sand, luxury resorts and lagoon tours — ideal for relaxation and romantic stays.";
  (* /rekawa|rekawa turtle/i *)
  snippet (anyOf [str "rekawa"; str "rekawa turtle"])
    "Rekawa Beach is a key turtle-nesting site where guided night tours allow visitors to witness nesting sea turtles and conservation activities.";
  (* /mulkirigala/i *)
  snippet (str "mulkirigala")
    "Mulkirigala Rock Temple is an ancient cave temple complex atop a 200m rock with murals, reclining Buddha statues and panoramic summit views.";
  (* /kalametiya/i *)
  snippet (str "kalametiya")
    "Kalametiya Bird Sanctuary is a coastal wetland of lagoons and mangroves supporting 150+ bird species; boat safaris are popular for birdwatching and photography.";
  (* /ridgeway safari|hambantota ridgeway/i *)
  snippet (anyOf [str "ridgeway safari"; str "hambantota ridgeway"])
    "Ridgeway Safari (Hambantota) is a quieter nature safari across wetlands and scrublands where visitors can spot deer, peacocks, reptiles and migratory birds.";
  (* /bundala/i *)
  snippet (str "bundala")
    "Bundala National Park is a UNESCO biosphere reserve famed for large flocks of flamingos, storks, crocodiles, elephants and diverse birdlife — a paradise for birdwatchers.";
  (* /yala national park/i *)
  snippet (str "yala national park")
    "Yala National Park (southern access) is Sri Lanka’s most famous wildlife park, known for its high density of leopards and diverse wildlife including elephants and sloth bears.";
  (* /kirinda/i *)
  snippet (str "kirinda")
    "Kirinda Beach & Temple is a coastal Buddhist shrine on rocky cliffs offering sweeping ocean views; the quiet nearby beach is ideal for contemplation.";
  (* /hambantota birds research|hambantota birds/i *)
  snippet (anyOf [str "hambantota birds research"; str "hambantota birds"])
    "Hambantota Birds Research Center focuses on bird conservation, breeding and field research, supporting endangered species and public education.";
  (* /nilaveli/i *)
  snippet (str "nilaveli")
    "Nilaveli Beach is an east-coast gem known for long stretches of soft white sand and calm turquoise waters ideal for swimming, snorkeling and relaxing — family-friendly and often ranked among the top beaches on the east coast.";
  (* /uppuveli/i *)
  snippet (str "uppuveli")
    "Uppuveli Beach is a laid-back shore near Trincomalee popular with backpackers and divers, featuring wide sandy beaches, dive centers and a relaxed seaside atmosphere.";
  (* /pigeon island/i *)
  snippet (str "pigeon island")
    "Pigeon Island National Park, off Nilaveli, is one of Sri Lanka’s marine national parks with coral reefs, colorful reef fish, turtles and excellent snorkeling and underwater photography spots.";
  (* /koneswaram/i *)
  snippet (str "koneswaram")
    "Koneswaram Temple is a historic Hindu shrine perched on Swami Rock overlooking the Indian Ocean — famed for its thousand-pillared architecture, priceless sea views and ties to ancient legends.";
  (* /fort frederick/i *)
  snippet (str "fort frederick")
    "Fort Frederick, built by the Portuguese in 1623 and later used by the Dutch and British, houses Koneswaram Temple and colonial structures; sambar deer occasionally roam the grounds.";
  (* /marble beach/i *)
  snippet (str "marble beach")
    "Marble Beach is a pristine, glass-clear bay managed by the Sri Lankan Air Force — extremely clean, peaceful and ideal for swimming and quiet relaxation.";
  (* /trincomalee hot wells|hot wells/i *)
  snippet (anyOf [str "trincomalee hot wells"; str "hot wells"])
    "Trincomalee Hot Wells (Kanniyai) feature seven natural hot water wells with varying temperatures that attract pilgrims and visitors seeking cultural bathing rituals and relaxation.";
  (* /pasikuda|pasikudah/i *)
  snippet (anyOf [str "pasikuda"; str "pasikudah"])
    "Pasikuda Beach is famed for its exceptionally shallow lagoon stretching hundreds of meters, making it very safe for swimming and popular with family-friendly resorts and watersports.";
  (* /kalkuda/i *)
  snippet (str "kalkuda")
    "Kalkuda Beach, south of Pasikuda, offers a quieter and more peaceful environment with wide sandy shores and calm seas ideal for long walks and sunsets.";
  (* /batticaloa lagoon/i *)
  snippet (str "batticaloa lagoon")
    "Batticaloa Lagoon is a large mangrove-rich lagoon system known for its fishing communities, birdlife and the unique ‘singing fish’ phenomenon; boat tours explore islands and local life.";
  (* /batticaloa fort/i *)
  snippet (str "batticaloa fort")
    "Batticaloa Fort, originally built by the Portuguese in 1628 and expanded by the Dutch, sits between the lagoon and sea and contains colonial-era bastions and scenic waterfront views.";
  (* /arugam bay/i *)
  snippet (str "arugam bay")
    "Arugam Bay is a world-class surfing destination with top right-hand breaks, attracting surfers, backpackers and eco-tourists; the surrounding landscape includes lagoons and wildlife.";
  (* /elephant rock/i *)
  snippet (str "elephant rock")
    "Elephant Rock (Arugam Bay) is an iconic granite outcrop rising from the coast offering short hikes and panoramic views; it’s a popular sunset viewpoint and occasionally sighting area for elephants.";
  (* /peanut farm beach/i *)
  snippet (str "peanut farm beach")
    "Peanut Farm Beach is a secluded stretch south of Arugam Bay favored for intermediate surfing, camping and quiet coastal scenery with rock formations and lagoons.";
  (* /kumana national park|kumana/i *)
  snippet (anyOf [str "kumana national park"; str "kumana"])
    "Kumana National Park is a southeastern bird and wildlife sanctuary known for nesting and migratory birds, elephants, leopards and coastal wetlands — a quieter alternative to busier parks.";
  (* /okanda/i *)
  snippet (str "okanda")
    "Okanda Beach & Temple is a sacred site on the eastern coast linked to Kataragama pilgrimage routes, known for rugged coastal scenery and traditional devotional activities.";
  (* /gal oya/i *)
  snippet (str "gal oya")
    "Gal Oya National Park is Sri Lanka’s unique boat-safari park where elephants swim between islands in the Senanayake Samudraya reservoir; it features forests, wildlife tours and village visits.";
  (* /senanayake samudraya/i *)
  snippet (str "senanayake samudraya")
    "Senanayake Samudraya is Sri Lanka’s largest reservoir surrounded by mountains and forests, offering boating, wildlife observation and scenic photography — sometimes elephants are spotted along the shore.";
  (* /jaffna fort|jaffna/i *)
  snippet (anyOf [str "jaffna fort"; str "jaffna"])
    "Jaffna Fort, originally built by the Portuguese in 1618 and later expanded by the Dutch and British, is one of Sri Lanka’s largest and best-preserved forts. Surrounded by water and star-shaped ramparts, it offers insights into colonial military architecture and expansive lagoon views.";
  (* /nallur kovil|nallur kovil/i *)
  snippet (anyOf [str "nallur kovil"; str "nallur kovil"])
    "Nallur Kovil is one of the most important Hindu temples in Sri Lanka, dedicated to Lord Murugan. The temple features a magnificent golden gopuram (tower), daily pujas, traditional Tamil ceremonies and a large annual festival drawing thousands of devotees.";
  (* /jaffna public library|public library/i *)
  snippet (anyOf [str "jaffna public library"; str "public library"])
    "The Jaffna Public Library is a cultural symbol of the region, known for classical architecture and a once-vast collection of books. Destroyed in 1981 and rebuilt, it stands for knowledge, resilience and the intellectual history of northern Sri Lanka.";
  (* /casuarina beach/i *)
  snippet (str "casuarina beach")
    "Casuarina Beach on Karainagar Island is famed for Casuarina trees lining the shore, shallow calm waters and powdery sands — a clean, family-friendly beach ideal for swimming and relaxation.";
  (* /keerimalai|keerimalai holy springs/i *)
  snippet (anyOf [str "keerimalai"; str "keerimalai holy springs"])
    "Keerimalai Holy Springs are natural freshwater springs adjacent to the sea, believed to have healing powers. The sacred bathing pool and nearby temples attract pilgrims and visitors for ritual bathing.";
  (* /nagadeepa|nagadeepa temple|nainativu/i *)
  snippet (anyOf [str "nagadeepa"; str "nagadeepa temple"; str "nainativu"])
    "Nagadeepa Temple on Nainativu Island is an important Buddhist pilgrimage site said to have been visited by the Buddha. Accessible by boat, the island hosts sacred shrines and a serene pilgrimage atmosphere.";
  (* /delft island|delft/i *)
  snippet (anyOf [str "delft island"; str "delft"])
    "Delft Island is a remote island with Dutch colonial remnants, baobab trees, wild horses and salt plains. Its rugged, sparsely populated landscape offers a step-back-in-time experience.";
  (* /nagarkovil|nagar kovil/i *)
  snippet (anyOf [str "nagarkovil"; str "nagar kovil"])
    "Nagarkovil (Nagar Kovil) Beach is a quiet stretch known for clear waters and serene surroundings — popular for evening walks and local fishing activities.";
  (* /point pedro/i *)
  snippet (str "point pedro")
    "Point Pedro is the northernmost point of Sri Lanka, marked by a lighthouse and coastal viewpoint; the area features traditional fishing villages and open ocean horizons.";
  (* /charty beach|charty jetty/i *)
  snippet (anyOf [str "charty beach"; str "charty jetty"])
    "Charty Beach (Charty Jetty Beach) is a picturesque local beach near Jaffna, ideal for swimming, relaxing and enjoying sunsets in a quiet setting.";
  (* /mannar island|mannar/i *)
  snippet (anyOf [str "mannar island"; str "mannar"])
    "Mannar Island is a large dry-zone island connected by causeway, offering birdwatching, historical sites, salt pans and coastal habitats — a rewarding spot for nature and history lovers.";
  (* /doric at arippu|arippu/i *)
  snippet (anyOf [str "doric at arippu"; str "arippu"])
    "Doric at Arippu are the ruins of the first British governor’s residence built in the early 1800s; the crumbling coastal structure and ocean views make it a photogenic historical site.";
  (* /thiruketheeswaram|thiruketheeswaram temple/i *)
  snippet (anyOf [str "thiruketheeswaram"; str "thiruketheeswaram temple"])
    "Thiruketheeswaram Temple is a sacred Hindu shrine dedicated to Lord Shiva, with ancient roots in Tamil devotional tradition and ongoing ritual practices attracting pilgrims.";
  (* /adam'?s\s*bridge|rama'?s\s*bridge/i *)
  snippet (anyOf [seqOf [str "adam"; Opt (str "'"); str "s"; Star Space; str "bridge"]; seqOf [str "rama"; Opt (str "'"); str "s"; Star Space; str "bridge"]])
    "Adam’s Bridge (Rama’s Bridge) is a chain of submerged sandbars and shoals between Mannar and India, steeped in myth and natural history; it’s a striking feature for photography and coastal ecology.";
  (* /mullaitivu beach/i *)
  snippet (str "mullaitivu beach")
    "Mullaitivu Beach is a quiet, largely undeveloped coastline with wide sands and strong waves — a reflective place for long walks and coastal scenery.";
  (* /vavuniya archaeological museum|vavuniya museum/i *)
  snippet (anyOf [str "vavuniya archaeological museum"; str "vavuniya museum"])
    "Vavuniya Archaeological Museum displays artifacts from northern civilizations including pottery, coins and inscriptions that highlight the region’s multicultural past.";
  (* /wilpattu/i *)
  snippet (str "wilpattu")
    "Wilpattu National Park is Sri Lanka’s largest and one of its oldest national parks, famous for its natural ‘Willus’ (rainwater lakes), diverse wildlife including leopards, elephants, sloth bears, crocodiles and over 200 bird species. Safaris here are quieter and more immersive than other parks.";
  (* /kalpitiya/i *)
  snippet (str "kalpitiya")
    "Kalpitiya is an unspoiled coastal region known for calm beaches, world-class kitesurfing (May–September), dolphin and whale watching in the lagoon, and a relaxed eco-resort atmosphere blending naturally with the environment.";
  (* /kalpitiya lagoon|dolphin/i *)
  snippet (anyOf [str "kalpitiya lagoon"; str "dolphin"])
    "Kalpitiya Lagoon is a top destination for wild dolphin watching, especially spinner dolphins. Early-morning boat tours often encounter large pods and the area also offers kayaking and calm waters for paddle sports.";
  (* /kalpitiya dutch fort|kalpitiya fort/i *)
  snippet (anyOf [str "kalpitiya dutch fort"; str "kalpitiya fort"])
    "The Kalpitiya Dutch Fort, built in the 17th century, features coral-stone walls and bastions used historically to control trade across the lagoon; it offers a compact but insightful look into colonial maritime history.";
  (* /munneswaram temple|munneshwaram/i *)
  snippet (anyOf [str "munneswaram temple"; str "munneshwaram"])
    "Munneswaram Temple is a major Hindu pilgrimage complex dedicated mainly to Lord Shiva, with a history spanning centuries and rich festival traditions including the vibrant Munneswaram Festival.";
  (* /chilaw beach|chilaw/i *)
  snippet (anyOf [str "chilaw beach"; str "chilaw"])
    "Chilaw Beach is a local favorite near the town of Chilaw, offering calm seas, evening strolls and scenic sunsets often visited alongside nearby Munneswaram Temple.";
  (* /kudawa/i *)
  snippet (str "kudawa")
    "Kudawa Beach (Kalpitiya) is a popular kitesurfing spot with seasonal winds, lagoon views and a laid-back adventure atmosphere supported by kite schools and eco-lodges.";
  (* /yapahuwa/i *)
  snippet (str "yapahuwa")
    "Yapahuwa Rock Fortress was a 13th-century capital built atop a granite rock with a dramatic steep staircase leading to palace ruins, carvings and panoramic summit views — an impressive archaeological site.";
  (* /kurunegala lake/i *)
  snippet (str "kurunegala lake")
    "Kurunegala Lake is an urban reservoir with walking paths, landscaped areas and viewpoints; locals enjoy evening strolls, jogging and dining near the lakeside restaurants.";
  (* /athugala|elephant rock/i *)
  snippet (anyOf [str "athugala"; str "elephant rock"])
    "Athugala (Elephant Rock) is a massive hill resembling a resting elephant, with a climb to a white Buddha and panoramic views of Kurunegala and surrounding countryside.";
  (* /panduwasnuwara/i *)
  snippet (str "panduwasnuwara")
    "Panduwasnuwara Ruins are the remains of an ancient capital featuring palaces, moats, monasteries and stone foundations that offer a quiet glimpse into early Sri Lankan royal civilization.";
  (* /ridi viharaya|ridi/i *)
  snippet (anyOf [str "ridi viharaya"; str "ridi"])
    "Ridi Viharaya (Silver Temple) is an ancient temple complex with frescoes, carved stairways, rock caves and image houses, historically tied to the Ruwanweliseya construction through silver offerings.";
  (* /munneshwaram kali|kali kovil/i *)
  snippet (anyOf [str "munneshwaram kali"; str "kali kovil"])
    "Munneshwaram Kali Kovil (Kali Kovil) is part of the Munneswaram complex dedicated to Goddess Kali; it’s known for vibrant rituals, drumming and devotional festivals."
].

Section WithEngine.
Context {E : Engine}.

Definition tokensOf (name : jsstring) : list jsstring :=
  filterBoolean (splitNonAlnum (toLowerCase name)).

(** The loop over the tokens in [findLocalImages]. *)
Fixpoint anyToken (lowerFilename lowerPath : jsstring)
         (tokens : list jsstring) : bool :=
  match tokens with
  | [] => false
  | t :: tokens' =>
    if negb (nonEmpty t) then anyToken lowerFilename lowerPath tokens'
    else if includes lowerFilename t || includes lowerPath t then true
    else anyToken lowerFilename lowerPath tokens'
  end.

(** The filter of [findLocalImages]. *)
Definition matchesEntry (k : jsstring) (tokens : list jsstring) (e : Entry)
  : bool :=
  if negb (nonEmpty (key e)) then false
  else if includes (key e) k || includes k (key e) then true
  else
    let lowerFilename := toLowerCase (filename e) in
    let lowerPath := toLowerCase (path e) in
    anyToken lowerFilename lowerPath tokens.

Definition findLocalEntries (entries : list Entry) (name : jsstring)
  : list Entry :=
  let k := normalizeForKey name in
  let tokens := tokensOf name in
  filter (matchesEntry k tokens) entries.

Definition findLocalImages (entries : list Entry) (name : jsstring)
  : list jsstring :=
  map url (findLocalEntries entries name).

Definition findManualOverride (entries : list Entry) (name : jsstring)
  : option jsstring :=
  let k := normalizeForKey name in
  if test false (str "aluvihare") k
     || test false (str "aluviharetemple") k
     || test false (seqOf [str "aluvihare"; Space; str "temple"]) k
  then
    option_map url
      (JsArray.find
         (fun e => includes (toLowerCase (filename e)) (lit "aluvihare"))
         entries)
  else if test false (str "independence") k
          || test false (str "independencesquare") k
          || test false (seqOf [str "independence"; Star Space; str "square"]) k
  then
    option_map url
      (JsArray.find
         (fun e => includes (toLowerCase (filename e)) (lit "independence"))
         entries)
  else if test true
               (anyOf [str "horton plains"; str "world's end"; str "worlds end"])
               name
  then
    option_map url
      (JsArray.find
         (fun e =>
            test true (seqOf [str "horton"; Opt (str " "); str "plains"])
                 (filename e)
            && test true (str "pictures") (path e))
         entries)
  else None.

(** [a || b] on strings and [null]. *)
Definition orElse (a b : option jsstring) : option jsstring :=
  if truthyStr a then a else b.

(** [provinceFallback]; reading the name of a province that is missing
    throws, and the exception is caught. *)
Definition provinceFallback (entries : list Entry) (d : Destination)
  : option jsstring :=
  match province_name d with
  | None => None
  | Some p =>
    orElse
      (option_map url
         (JsArray.find
            (fun e => includes (toLowerCase (path e)) (toLowerCase p)
                      || includes (key e) (normalizeForKey p))
            entries))
      None
  end.

(** [primaryImageUrl]; [destination_images] is an array on this page. *)
Definition primaryImageUrl (entries : list Entry) (d : Destination)
  : outcome (option jsstring) :=
  match destination_images d with
  | None => Throws TypeError
  | Some images =>
    let primaryImage := JsArray.find is_primary images in
    let localFallbacks := findLocalImages entries (orEmpty (name d)) in
    let manual := findManualOverride entries (orEmpty (name d)) in
    let provinceFallback := provinceFallback entries d in
    Returns
      match primaryImage with
      | Some primaryImage => Some (img_url primaryImage)
      | None =>
        orElse (orElse (orElse (hd_error localFallbacks) manual)
                       provinceFallback)
               None
      end
  end.

Definition getFallback (name : jsstring) : result :=
  let k := normalizeForKey name in
  match override manualTextOverrides k with
  | Some v => v
  | None =>
    match findPattern fallbackDescriptions name with
    | Some found => Text (text found)
    | None => Null
    end
  end.

(** [displayDescription]: [destination.description || getFallback(...)]. *)
Definition displayDescription (d : Destination) : result :=
  if truthyStr (description d) then Text (orEmpty (description d))
  else getFallback (orEmpty (name d)).

End WithEngine.
End Detail.

(* ================================================================== *)
(** * The destinations list page *)
(* ================================================================== *)

Module Destinations.
Import Js Regex Resolver Matcher Text.

Definition manualTextOverrides : list (jsstring * jsstring) := [
  (lit "diyalumafalls",
   lit "Diyaluma Falls is the second-highest waterfall in Sri Lanka, cascading from a height of 220 meters. It is surrounded by stunning mountain scenery and lush greenery. A natural pool at the base and several rock pools along the way make it ideal for adventurous swims. The falls are also popular among hikers, offering breathtaking views from the top.")
].

(** Destinations list page: the table [fallbackSnippets]. *)
Definition fallbackSnippets : list Snippet := [
  (* /galle face/i *)
  snippet (str "galle face")
    "Galle Face Green — oceanfront promenade popular for evening walks, street food like isso wade and kottu, kite flying, and sunsets.";
  (* /lotus tower/i *)
  snippet (str "lotus tower")
    "Lotus Tower — 350m landmark with a panoramic observation deck, dining, exhibitions, and colorful night lighting.";
  (* /independence square|independence arcade/i *)
  snippet (anyOf [str "independence square"; str "independence arcade"])
    "Independence Square — a national monument with peaceful gardens and the nearby Independence Arcade of shops and restaurants.";
  (* /colombo national museum|national museum/i *)
  snippet (anyOf [str "colombo national museum"; str "national museum"])
    "National Museum — showcases Sri Lanka’s heritage with royal regalia, statues, and shaded grounds for educational visits.";
  (* /dutch hospital/i *)
  snippet (str "dutch hospital")
    "Dutch Hospital — restored colonial precinct now a lively dining and shopping complex with preserved architecture.";
  (* /mount lavinia/i *)
  snippet (str "mount lavinia")
    "Mount Lavinia Beach — golden sand shore known for seafood restaurants, swimming, and vibrant nightlife.";
  (* /dehiwala zoo|zoo/i *)
  snippet (anyOf [str "dehiwala zoo"; str "zoo"])
    "Dehiwala Zoo — historic zoological garden with diverse animals, daily shows, and a butterfly garden.";
  (* /diyatha uyana/i *)
  snippet (str "diyatha uyana")
    "Diyatha Uyana — lakeside park with walking paths, ponds, open-air restaurants, and a weekend market.";
  (* /beddagana/i *)
  snippet (str "beddagana")
    "Beddagana Wetland Park — conserved wetland with elevated paths for birdwatching and nature walks.";
  (* /attidiya/i *)
  snippet (str "attidiya")
    "Attidiya Bird Sanctuary — wetland sanctuary ideal for birdwatching and peaceful nature visits.";
  (* /kelaniya|kelaniya raja maha viharaya/i *)
  snippet (anyOf [str "kelaniya"; str "kelaniya raja maha viharaya"])
    "Kelaniya Temple — sacred site known for stunning murals and annual Duruthu Perahera procession.";
  (* /negombo beach/i *)
  snippet (str "negombo beach")
    "Negombo Beach — long sandy coastline popular for sunsets, water sports and nearby markets.";
  (* /negombo lagoon/i *)
  snippet (str "negombo lagoon")
    "Negombo Lagoon — expansive brackish-water ecosystem with mangroves and boat tours.";
  (* /hamilton canal/i *)
  snippet (str "hamilton canal")
    "Hamilton Canal — colonial-era canal offering scenic boat rides and views of village life.";
  (* /muthurajawela/i *)
  snippet (str "muthurajawela")
    "Muthurajawela Wetlands — vast wetland ecosystem with rich biodiversity and boat tour options.";
  (* /kalutara bodhiya|kalutara temple/i *)
  snippet (anyOf [str "kalutara bodhiya"; str "kalutara temple"])
    "Kalutara Bodhiya — riverside Buddhist shrine with a large white stupa and devotional atmosphere.";
  (* /richmond castle/i *)
  snippet (str "richmond castle")
    "Richmond Castle — elegant early 1900s mansion notable for carved woodwork and picturesque gardens.";
  (* /kalutara beach/i *)
  snippet (str "kalutara beach")
    "Kalutara Beach — wide sandy beach popular for resorts and peaceful seaside relaxation.";
  (* /moragalla/i *)
  snippet (str "moragalla")
    "Moragalla Beach — calm shallow beach ideal for snorkeling and peaceful escapes.";
  (* /barberyn|beruwala lighthouse|barberyn island/i *)
  snippet (anyOf [str "barberyn"; str "beruwala lighthouse"; str "barberyn island"])
    "Beruwala (Barberyn) Island — historic lighthouse island accessible by a short boat ride.";
  (* /kande viharaya/i *)
  snippet (str "kande viharaya")
    "Kande Viharaya — large temple famous for its giant Buddha statue and meditation spaces.";
  (* /thudugala/i *)
  snippet (str "thudugala")
    "Thudugala Waterfall — a scenic waterfall with a shallow natural pool and forest trails.";
  (* /horana lakshapana|lakshapana tea museum/i *)
  snippet (anyOf [str "horana lakshapana"; str "lakshapana tea museum"])
    "Horana Lakshapana Tea Museum — museum showcasing the tea industry and tasting experiences.";
  (* /temple of the tooth|dalada maligawa|tooth relic/i *)
  snippet (anyOf [str "temple of the tooth"; str "dalada maligawa"; str "tooth relic"])
    "Temple of the Tooth — Sri Dalada Maligawa, a sacred Kandyan temple housing the tooth relic and hosting the Esala Perahera festival.";
  (* /kandy lake|sea of milk/i *)
  snippet (anyOf [str "kandy lake"; str "sea of milk"])
    "Kandy Lake — scenic lakeside walkway ideal for peaceful walks, birdwatching and photography in the heart of Kandy.";
  (* /peradeniya botanical|peradeniya garden/i *)
  snippet (anyOf [str "peradeniya botanical"; str "peradeniya garden"])
    "Peradeniya Botanical Garden — Sri Lanka’s largest botanical garden with orchids, Royal Palms and ancient fig trees.";
  (* /udawatte kele|udawatta kele/i *)
  snippet (anyOf [str "udawatte kele"; str "udawatta kele"])
    "Udawatte Kele — historic forest reserve behind the Temple of the Tooth with shaded trails and diverse birdlife.";
  (* /knuckles|knuckles mountain/i *)
  snippet (anyOf [str "knuckles"; str "knuckles mountain"])
    "Knuckles Range — misty peaks and deep valleys offering hiking routes, waterfalls and cloud-forest scenery.";
  (* /hunnasgiriya/i *)
  snippet (str "hunnasgiriya")
    "Hunnasgiriya — cool mountain offering panoramic views of tea plantations and a peaceful hiking spot.";
  (* /sembuwatta/i *)
  snippet (str "sembuwatta")
    "Sembuwatta Lake — picturesque man-made lake with turquoise water, pine forests and paddle boating options.";
  (* /ambuluwawa/i *)
  snippet (str "ambuluwawa")
    "Ambuluwawa Tower — spiral tower with a biodiversity complex and panoramic 360° views after a short climb.";
  (* /riverston/i *)
  snippet (str "riverston")
    "Riverston — windy scenic plateau in the Knuckles region known for dramatic viewpoints and photography.";
  (* /bambarakiri|bambarakiri ella/i *)
  snippet (anyOf [str "bambarakiri"; str "bambarakiri ella"])
    "Bambarakiri Ella — picturesque waterfall with a hanging bridge and lush surroundings.";
  (* /nalanda gedige/i *)
  snippet (str "nalanda gedige")
    "Nalanda Gedige — ancient stone temple blending Hindu and Buddhist styles with mysterious ruins.";
  (* /balangoda|fa\-?hien|fa hien|fa-hien cave|fa hien cave/i *)
  snippet (anyOf [str "balangoda"; seqOf [str "fa"; Opt (str "-"); str "hien"]; str "fa hien"; str "fa-hien cave"; str "fa hien cave"])
    "Balangoda Caves (Fa-Hien Cave) — major prehistoric cave site where evidence of early human settlement (the ‘Balangoda Man’) and tools dating back over 38,000 years were found; dramatic rock overhang and forest setting make it an important archaeological and heritage site.";
  (* /bogoda|bogoda wooden bridge/i *)
  snippet (anyOf [str "bogoda"; str "bogoda wooden bridge"])
    "Bogoda Wooden Bridge — one of Sri Lanka’s oldest surviving timber bridges dating to the Kandyan era; built without nails and featuring carved wooden pillars beside the historic Bogoda Raja Maha Viharaya.";
  (* /(?:abha?ya(?:giri|giriya)|abayagiri|abhayagiri)(?:\s*(?:stupa|vihara|temple|monastery))?/i *)
  snippet (seqOf [anyOf [seqOf [str "abh"; Opt (str "a"); str "ya"; anyOf [str "giri"; str "giriya"]]; str "abayagiri"; str "abhayagiri"]; Opt (seqOf [Star Space; anyOf [str "stupa"; str "vihara"; str "temple"; str "monastery"]])])
    "Abhayagiri Stupa — sprawling monastery complex once home to thousands of monks, notable for its massive stupa, ornate carvings, and ancient monastic ruins reflecting its role as a major Buddhist university.";
  (* /aluvihare|aluvihare rock temple/i *)
  snippet (anyOf [str "aluvihare"; str "aluvihare rock temple"])
    "Aluvihare Rock Temple — historic cave temple where the Tripitaka was first written down on palm leaves.";
  (* /avukana|aukana|avukana buddha|aukana buddha|avukana statue/i *)
  snippet (anyOf [str "avukana"; str "aukana"; str "avukana buddha"; str "aukana buddha"; str "avukana statue"])
    "Avukana Buddha Statue — a 40-foot granite standing Buddha from the 5th century, famed for its exquisite carving, Asisa Mudra posture, and serene setting near Kala Wewa.";
  (* /matale spice|spice gardens/i *)
  snippet (anyOf [str "matale spice"; str "spice gardens"])
    "Matale Spice Gardens — guided spice tours showcasing cinnamon, pepper, cardamom and local Ayurvedic products.";
  (* /anuradhapura|anuradhapura sacred city/i *)
  snippet (anyOf [str "anuradhapura"; str "anuradhapura sacred city"])
    "Anuradhapura Sacred City — ancient royal capital founded in the 4th century BC, home to massive stupas, monastic complexes, and the Jaya Sri Maha Bodhi; a UNESCO World Heritage Site and major pilgrimage center.";
  (* /nuwara eliya|little england/i *)
  snippet (anyOf [str "nuwara eliya"; str "little england"])
    "Nuwara Eliya — cool hill station with colonial charm, tea plantations and well-kept gardens.";
  (* /horton plains|world's end|worlds end/i *)
  snippet (anyOf [str "horton plains"; str "world's end"; str "worlds end"])
    "Horton Plains — national park with misty grasslands and ‘World’s End’ cliff offering dramatic highland views.";
  (* /gregory lake/i *)
  snippet (str "gregory lake")
    "Gregory Lake — central reservoir in Nuwara Eliya with boat rides, water sports and lakeside recreation.";
  (* /victoria park/i *)
  snippet (str "victoria park")
    "Victoria Park — historic garden with colorful seasonal flowers and good birdwatching opportunities.";
  (* /lovers' leap|lovers leap/i *)
  snippet (anyOf [str "lovers' leap"; str "lovers leap"])
    "Lovers’ Leap Waterfall — tall waterfall with scenic views and a romantic local legend.";
  (* /moon plains/i *)
  snippet (str "moon plains")
    "Moon Plains — open grasslands with panoramic mountain views and a ‘Mini World’s End’ viewpoint.";
  (* /bomburu ella/i *)
  snippet (str "bomburu ella")
    "Bomburu Ella — wide multi-cascade waterfall reached by a scenic hike through forests and streams.";
  (* /bopath\s*ella|bopaths?el?la/i *)
  {| pattern := anyOf [seqOf [str "bopath"; Star Space; str "ella"]; seqOf [str "bopath"; Opt (str "s"); str "e"; Opt (str "l"); str "la"]];
     text := lit "Bopath Ella is a beautiful waterfall in Rathnapura, named for its unique shape that resembles a " ++ 34%N :: lit "Bo leaf," ++ 34%N :: lit " making it one of Sri Lanka's most recognizable natural attractions. The waterfall cascades down a narrow stream that widens dramatically as it drops, creating a powerful and picturesque flow. Surrounded by lush forest and local village life, it is easily accessible and a popular stop for nature lovers. Today, Bopath Ella is both a scenic getaway and an important eco-tourism spot in the Sabaragamuwa region." |};
  (* /st\. clair|devon falls|st clair/i *)
  snippet (anyOf [str "st. clair"; str "devon falls"; str "st clair"])
    "St. Clair’s & Devon Falls — two iconic waterfalls offering dramatic photographic vantage points.";
  (* /pidurutalagala|mount pidurutalagala/i *)
  snippet (anyOf [str "pidurutalagala"; str "mount pidurutalagala"])
    "Pidurutalagala — Sri Lanka’s highest mountain with restricted access but exceptional highland views on clear days.";
  (* /ramboda falls/i *)
  snippet (str "ramboda falls")
    "Ramboda Falls — scenic multi-tiered waterfall near the Ramboda Pass surrounded by tea estates.";
  (* /bluefield|pedro tea|pedro estate/i *)
  snippet (anyOf [str "bluefield"; str "pedro tea"; str "pedro estate"])
    "Bluefield & Pedro Tea Estates — tea plantations offering tours, tastings and panoramic hill views.";
  (* /galle fort/i *)
  snippet (str "galle fort")
    "Galle Fort — UNESCO World Heritage Site with cobbled streets, museums, boutique cafes and ocean ramparts ideal for sunset walks.";
  (* /unawatuna/i *)
  snippet (str "unawatuna")
    "Unawatuna Beach — golden sand and calm shallow seas ideal for swimming, snorkeling and lively beachfront dining.";
  (* /jungle beach/i *)
  snippet (str "jungle beach")
    "Jungle Beach — secluded cove with turquoise water perfect for snorkeling and relaxing away from crowds.";
  (* /japanese peace pagoda/i *)
  snippet (str "japanese peace pagoda")
    "Japanese Peace Pagoda — serene white stupa offering panoramic coastal views between Unawatuna and Jungle Beach.";
  (* /koggala lake|koggala/i *)
  snippet (anyOf [str "koggala lake"; str "koggala"])
    "Koggala Lake — scenic freshwater lake with cinnamon islands, spice gardens and birdwatching boat rides.";
  (* /mirissa/i *)
  snippet (str "mirissa")
    "Mirissa Beach — crescent-shaped beach known for turquoise water, whale-watching tours, surfing and vibrant nightlife.";
  (* /secret beach/i *)
  snippet (str "secret beach")
    "Secret Beach — quiet hidden beach with coconut trees, lagoons and natural pools near Mirissa.";
  (* /coconut hill/i *)
  snippet (str "coconut hill")
    "Coconut Hill — iconic headland lined with leaning coconut palms offering dramatic sunset photos.";
  (* /whale watching|mirissa whale/i *)
  snippet (anyOf [str "whale watching"; str "mirissa whale"])
    "Whale Watching (Mirissa) — world-class whale and dolphin tours departing early morning during peak season.";
  (* /hikkaduwa coral|hikkaduwa coral sanctuary/i *)
  snippet (anyOf [str "hikkaduwa coral"; str "hikkaduwa coral sanctuary"])
    "Hikkaduwa Coral Sanctuary — protected reef offering snorkeling with colorful corals and tropical fish.";
  (* /hikkaduwa beach/i *)
  snippet (str "hikkaduwa beach")
    "Hikkaduwa Beach — surfing, seafood dining and a lively coastal scene popular with many travelers.";
  (* /dodanduwa/i *)
  snippet (str "dodanduwa")
    "Dodanduwa Turtle Hatchery — conservation site protecting turtle eggs and releasing hatchlings to the sea.";
  (* /tangalle/i *)
  snippet (str "tangalle")
    "Tangalle Beach — long quiet coastline with turquoise water and luxurious resorts for peaceful stays.";
  (* /rekawa/i *)
  snippet (str "rekawa")
    "Rekawa Turtle Nesting Beach — important nesting site where guided night tours reveal turtle conservation in action.";
  (* /mulkirigala/i *)
  snippet (str "mulkirigala")
    "Mulkirigala Rock Temple — ancient cave-temple complex atop a towering rock with murals and summit views.";
  (* /kalametiya/i *)
  snippet (str "kalametiya")
    "Kalametiya Bird Sanctuary — coastal wetland with mangroves and over 150 bird species, ideal for boat safaris.";
  (* /ridgeway safari|hambantota ridgeway/i *)
  snippet (anyOf [str "ridgeway safari"; str "hambantota ridgeway"])
    "Ridgeway Safari (Hambantota) — open-landscape safari for birds, deer and occasionally elephants away from crowded parks.";
  (* /bundala/i *)
  snippet (str "bundala")
    "Bundala National Park — UNESCO biosphere reserve noted for flamingos, storks, elephants and abundant birdlife.";
  (* /yala national park/i *)
  snippet (str "yala national park")
    "Yala National Park — premier wildlife park famous for leopard sightings and diverse fauna on guided safaris.";
  (* /kirinda/i *)
  snippet (str "kirinda")
    "Kirinda Beach & Temple — coastal shrine on rocky cliffs with sweeping ocean views and a quiet nearby beach.";
  (* /hambantota birds research|hambantota birds/i *)
  snippet (anyOf [str "hambantota birds research"; str "hambantota birds"])
    "Hambantota Birds Research Center — bird conservation and research facility promoting endangered species protection.";
  (* /nilaveli/i *)
  snippet (str "nilaveli")
    "Nilaveli Beach — long soft white sands and calm turquoise waters ideal for swimming, snorkeling and relaxed family beach days.";
  (* /uppuveli/i *)
  snippet (str "uppuveli")
    "Uppuveli — laid-back beach near Trincomalee popular with divers, backpackers and relaxed seaside dining.";
  (* /pigeon island/i *)
  snippet (str "pigeon island")
    "Pigeon Island — marine park off Nilaveli with coral reefs, colorful fish and excellent snorkeling.";
  (* /koneswaram/i *)
  snippet (str "koneswaram")
    "Koneswaram Temple — dramatic cliff-top Hindu temple with breathtaking sea views and rich mythology.";
  (* /fort frederick/i *)
  snippet (str "fort frederick")
    "Fort Frederick — colonial fort housing Koneswaram Temple with historic bastions and coastal views.";
  (* /marble beach/i *)
  snippet (str "marble beach")
    "Marble Beach — pristine glass-clear bay managed by the Air Force, perfect for quiet swimming and relaxation.";
  (* /trincomalee hot wells|hot wells/i *)
  snippet (anyOf [str "trincomalee hot wells"; str "hot wells"])
    "Trincomalee Hot Wells — seven natural hot water wells known for varied temperatures and cultural bathing rituals.";
  (* /pasikuda|pasikudah/i *)
  snippet (anyOf [str "pasikuda"; str "pasikudah"])
    "Pasikuda — shallow, family-friendly lagoon waters stretching far out to sea with luxury resorts and watersports.";
  (* /kalkuda/i *)
  snippet (str "kalkuda")
    "Kalkuda — a quieter beach south of Pasikuda with wide sands and calm seas for long walks and sunsets.";
  (* /batticaloa lagoon/i *)
  snippet (str "batticaloa lagoon")
    "Batticaloa Lagoon — large mangrove-rich lagoon famous for the ‘singing fish’ and boat tours of islands and birdlife.";
  (* /batticaloa fort/i *)
  snippet (str "batticaloa fort")
    "Batticaloa Fort — 17th-century fort with colonial bastions and scenic waterfront views between lagoon and sea.";
  (* /arugam bay/i *)
  snippet (str "arugam bay")
    "Arugam Bay — world-class surf destination with top right-hand breaks attracting surfers and backpackers.";
  (* /elephant rock/i *)
  snippet (str "elephant rock")
    "Elephant Rock — scenic granite viewpoint at Arugam Bay with great sunset views and nearby wildlife sightings.";
  (* /peanut farm beach/i *)
  snippet (str "peanut farm beach")
    "Peanut Farm Beach — secluded natural beach south of Arugam Bay good for surfing and camping.";
  (* /kumana/i *)
  snippet (str "kumana")
    "Kumana National Park — bird-rich sanctuary and wildlife park with wetlands, lagoons and coastal biodiversity.";
  (* /okanda/i *)
  snippet (str "okanda")
    "Okanda — sacred beach and temple on pilgrimage routes with rugged coastal scenery.";
  (* /gal oya/i *)
  snippet (str "gal oya")
    "Gal Oya — unique park with boat safaris where elephants swim between islands in the reservoir.";
  (* /senanayake samudraya/i *)
  snippet (str "senanayake samudraya")
    "Senanayake Samudraya — the nation’s largest reservoir used for boating, wildlife observation and scenic photography.";
  (* /jaffna fort|jaffna/i *)
  snippet (anyOf [str "jaffna fort"; str "jaffna"])
    "Jaffna Fort — large, well-preserved colonial fort with star-shaped ramparts and lagoon views.";
  (* /nallur kovil/i *)
  snippet (str "nallur kovil")
    "Nallur Kovil — important Hindu temple with a golden gopuram, daily pujas and major annual festivals.";
  (* /jaffna public library|public library/i *)
  snippet (anyOf [str "jaffna public library"; str "public library"])
    "Jaffna Public Library — rebuilt cultural landmark symbolizing knowledge and resilience.";
  (* /casuarina beach/i *)
  snippet (str "casuarina beach")
    "Casuarina Beach — family-friendly shallow waters and powdery sands lined by Casuarina trees.";
  (* /keerimalai/i *)
  snippet (str "keerimalai")
    "Keerimalai Holy Springs — natural freshwater springs with sacred bathing pools believed to have healing powers.";
  (* /nagadeepa|nainativu/i *)
  snippet (anyOf [str "nagadeepa"; str "nainativu"])
    "Nagadeepa Temple — sacred Buddhist island shrine accessible by boat with deep religious significance.";
  (* /delft island/i *)
  snippet (str "delft island")
    "Delft Island — remote island with baobabs, wild horses and Dutch-era remnants.";
  (* /nagarkovil|nagar kovil/i *)
  snippet (anyOf [str "nagarkovil"; str "nagar kovil"])
    "Nagarkovil — quiet coastal beach ideal for peaceful walks and local fishing scenes.";
  (* /point pedro/i *)
  snippet (str "point pedro")
    "Point Pedro — the northernmost point with lighthouse and coastal village scenery.";
  (* /charty beach|charty jetty/i *)
  snippet (anyOf [str "charty beach"; str "charty jetty"])
    "Charty Beach — picturesque local beach near Jaffna with calm waters and sunsets.";
  (* /mannar island|mannar/i *)
  snippet (anyOf [str "mannar island"; str "mannar"])
    "Mannar Island — dry-zone island with birdwatching, historical sites and salt pans.";
  (* /doric at arippu|arippu/i *)
  snippet (anyOf [str "doric at arippu"; str "arippu"])
    "Doric at Arippu — ruins of an early British governor’s residence in a dramatic coastal setting.";
  (* /thiruketheeswaram/i *)
  snippet (str "thiruketheeswaram")
    "Thiruketheeswaram — ancient Hindu temple with deep devotional importance and ancient traditions.";
  (* /adam'?s\s*bridge|rama'?s\s*bridge/i *)
  snippet (anyOf [seqOf [str "adam"; Opt (str "'"); str "s"; Star Space; str "bridge"]; seqOf [str "rama"; Opt (str "'"); str "s"; Star Space; str "bridge"]])
    "Adam’s Bridge — chain of sandbars and shoals between Mannar and India, notable for myth and coastal ecology.";
  (* /mullaitivu beach/i *)
  snippet (str "mullaitivu beach")
    "Mullaitivu Beach — quiet undeveloped coastline with expansive sands and strong waves.";
  (* /vavuniya archaeological museum|vavuniya museum/i *)
  snippet (anyOf [str "vavuniya archaeological museum"; str "vavuniya museum"])
    "Vavuniya Archaeological Museum — regional exhibits of pottery, inscriptions and archaeological finds.";
  (* /wilpattu/i *)
  snippet (str "wilpattu")
    "Wilpattu National Park — large, lake-dotted wilderness famous for leopards, elephants, sloth bears and rich birdlife; safaris are quieter and more immersive.";
  (* /kalpitiya/i *)
  snippet (str "kalpitiya")
    "Kalpitiya — relaxed coastal region known for kitesurfing, peaceful beaches and dolphin-watching tours in the lagoon.";
  (* /kalpitiya lagoon|dolphin/i *)
  snippet (anyOf [str "kalpitiya lagoon"; str "dolphin"])
    "Kalpitiya Lagoon — prime dolphin-watching and paddle-sport waters with morning boat tours.";
  (* /kalpitiya dutch fort|kalpitiya fort/i *)
  snippet (anyOf [str "kalpitiya dutch fort"; str "kalpitiya fort"])
    "Kalpitiya Dutch Fort — 17th-century coral-stone fort with colonial-era bastions and lagoon views.";
  (* /munneswaram|munneswaram temple/i *)
  snippet (anyOf [str "munneswaram"; str "munneswaram temple"])
    "Munneswaram Temple — major Hindu complex with rich festival traditions and pilgrimage activity.";
  (* /chilaw/i *)
  snippet (str "chilaw")
    "Chilaw Beach — local seaside spot for evening walks, picnics and scenic sunsets.";
  (* /kudawa/i *)
  snippet (str "kudawa")
    "Kudawa Beach — top kitesurfing spot within Kalpitiya with lagoon and island views.";
  (* /yapahuwa/i *)
  snippet (str "yapahuwa")
    "Yapahuwa Rock Fortress — 13th-century capital built on a granite rock with a steep stairway, palace ruins and summit panoramas.";
  (* /kurunegala lake/i *)
  snippet (str "kurunegala lake")
    "Kurunegala Lake — urban reservoir with walking paths, viewpoints and nearby cafés.";
  (* /athugala|elephant rock/i *)
  snippet (anyOf [str "athugala"; str "elephant rock"])
    "Athugala (Elephant Rock) — iconic hill formation with a white Buddha statue and panoramic views of Kurunegala.";
  (* /panduwasnuwara/i *)
  snippet (str "panduwasnuwara")
    "Panduwasnuwara Ruins — ancient capital remains with palaces, monasteries and archaeological features.";
  (* /ridi viharaya|ridi/i *)
  snippet (anyOf [str "ridi viharaya"; str "ridi"])
    "Ridi Viharaya — historic Silver Temple with frescoes, rock caves and ancient image houses.";
  (* /munneshwaram kali|kali kovil/i *)
  snippet (anyOf [str "munneshwaram kali"; str "kali kovil"])
    "Munneshwaram Kali Kovil — vibrant shrine within Munneswaram complex known for colorful rituals and festivals."
].

Section WithEngine.
Context {E : Engine}.

Definition findLocalImages (entries : list Entry) (name : jsstring)
  : list jsstring :=
  let k := normalizeForKey name in
  map url (filter (fun e => includes (key e) k) entries).

Definition findProvinceImage (entries : list Entry)
           (provinceName : option jsstring) : option jsstring :=
  if negb (truthyStr provinceName) then None
  else
    let provinceName := orEmpty provinceName in
    let pKey := normalizeForKey provinceName in
    option_map url
      (JsArray.find
         (fun e =>
            let pathLower := toLowerCase (path e) in
            if includes pathLower (toLowerCase provinceName) then true
            else includes (key e) pKey)
         entries).

Definition findManualOverride (entries : list Entry) (name : jsstring)
  : option jsstring :=
  let k := normalizeForKey name in
  if test false (str "aluvihare") k
     || test false (str "aluviharetemple") k
     || test false (seqOf [str "aluvihare"; Space; str "temple"]) k
  then
    option_map url
      (JsArray.find
         (fun e => includes (toLowerCase (filename e)) (lit "aluvihare"))
         entries)
  else if test true
               (anyOf [str "horton plains"; str "world's end"; str "worlds end"])
               name
  then
    option_map url
      (JsArray.find
         (fun e =>
            test true (seqOf [str "horton"; Opt (str " "); str "plains"])
                 (filename e)
            && test true (str "pictures") (path e))
         entries)
  else None.

Definition orElse (a b : option jsstring) : option jsstring :=
  if truthyStr a then a else b.

(** The image of a card, [local]; the province is read only when nothing
    before it gave an image. *)
Definition cardImage (entries : list Entry) (d : Destination)
  : outcome (option jsstring) :=
  let images :=
    match destination_images d with Some l => l | None => [] end in
  let dbPrimary := option_map img_url (JsArray.find is_primary images) in
  let dbFirst := orElse dbPrimary (option_map img_url (hd_error images)) in
  let manual := findManualOverride entries (orEmpty (name d)) in
  let l := orElse (orElse dbFirst manual)
                  (hd_error (findLocalImages entries (orEmpty (name d)))) in
  if truthyStr l then Returns l
  else
    match province_name d with
    | None => Throws TypeError
    | Some p => Returns (findProvinceImage entries (Some p))
    end.

(** The end of the sentence made when nothing else is found. *)
Definition closing : jsstring :=
  lit ". Discover highlights, local culture, and visitor tips for this destination.".

(** The sentence made when nothing else is found:
    [`Explore ${name}${shortProvince}. Discover ...`]. *)
Definition generated (name : jsstring) (provinceName : option jsstring)
  : jsstring :=
  let shortProvince :=
    if truthyStr provinceName then lit " in " ++ orEmpty provinceName
    else [] in
  lit "Explore " ++ name ++ shortProvince ++ closing.

Definition getSnippet (name : jsstring) (provinceName : option jsstring)
  : result :=
  let k := normalizeForKey name in
  match override manualTextOverrides k with
  | Some v => v
  | None =>
    match findPattern fallbackSnippets name with
    | Some found => Text (text found)
    | None =>
      match
        (if truthyStr provinceName
         then findPattern fallbackSnippets (orEmpty provinceName)
         else None)
      with
      | Some foundProv => Text (text foundProv)
      | None => Text (generated name provinceName)
      end
    end
  end.

(** The text of a card: [destination.description ||
    getSnippet(destination.name)].  The province is not passed. *)
Definition cardSnippet (d : Destination) : result :=
  if truthyStr (description d) then Text (orEmpty (description d))
  else getSnippet (orEmpty (name d)) None.

End WithEngine.
End Destinations.

(* ================================================================== *)
(** * Facts about the duplicate resolver *)
(* ================================================================== *)

Module ResolverFacts.
Import Js Resolver.

Section WithEngine.
Context {E : Engine}.

(** The rows of [items] whose key is [k], in their order: the duplicate
    group of [k]. *)
Definition groupOf (items : list Destination) (k : jsstring)
  : list Destination :=
  filter (fun d => eqb (keyOf d) k) items.

(** The size of the duplicate group a row belongs to. *)
Definition groupSize (items : list Destination) (d : Destination) : nat :=
  length (groupOf items (keyOf d)).

(** [g] holds the groups of the rows [l]. *)
Definition represents (g : groups) (l : list Destination) : Prop :=
  NoDup (map fst g)
  /\ (forall k grp, In (k, grp) g -> grp = groupOf l k /\ grp <> [])
  /\ (forall d, In d l -> In (keyOf d) (map fst g)).

Lemma groupOf_app (l l' : list Destination) (k : jsstring) :
  groupOf (l ++ l') k = groupOf l k ++ groupOf l' k.
Proof. apply filter_app. Qed.

Lemma groupOf_key (items : list Destination) (k : jsstring) (d : Destination) :
  In d (groupOf items k) -> In d items /\ keyOf d = k.
Proof.
  intros H. apply filter_In in H as [H1 H2]. now apply eqb_eq in H2.
Qed.

Lemma getOwn_Some (g : groups) (k : jsstring) (grp : list Destination) :
  getOwn g k = Some grp -> In (k, grp) g.
Proof.
  induction g as [|[k' l] g IH]; simpl; [discriminate|].
  destruct (eqb k' k) eqn:Hk.
  - apply eqb_eq in Hk as ->. intros [= ->]. now left.
  - intros H. right. now apply IH.
Qed.

Lemma getOwn_None (g : groups) (k : jsstring) :
  getOwn g k = None -> ~ In k (map fst g).
Proof.
  induction g as [|[k' l] g IH]; simpl; [tauto|].
  destruct (eqb k' k) eqn:Hk; [discriminate|].
  intros H [->|H']; [|now apply IH].
  now rewrite eqb_refl in Hk.
Qed.

Lemma pushOwn_keys (g : groups) (k : jsstring) (d : Destination) :
  map fst (pushOwn g k d) = map fst g.
Proof.
  induction g as [|[k' l] g IH]; simpl; [reflexivity|].
  destruct (eqb k' k); simpl; [reflexivity | now rewrite IH].
Qed.

Lemma pushOwn_In (g : groups) (k : jsstring) (d : Destination)
      (k' : jsstring) (grp' : list Destination) :
  NoDup (map fst g) ->
  In (k', grp') (pushOwn g k d) ->
  (k' = k /\ exists grp, In (k, grp) g /\ grp' = grp ++ [d])
  \/ (k' <> k /\ In (k', grp') g).
Proof.
  induction g as [|[k0 l0] g IH]; simpl; [tauto|].
  intros ND. inversion ND as [|? ? Hk0 ND']; subst.
  destruct (eqb k0 k) eqn:Hk.
  - apply eqb_eq in Hk as ->. intros [[= <- <-]|H].
    + left. split; [reflexivity|]. exists l0. split; [now left | reflexivity].
    + right. split; [|now right].
      intros ->. apply Hk0. now apply (in_map fst) in H.
  - intros [[= <- <-]|H].
    + right. split; [|now left]. intros ->. now rewrite eqb_refl in Hk.
    + destruct (IH ND' H) as [[-> [grp [H1 H2]]]|[H1 H2]].
      * left. split; [reflexivity|]. exists grp. split; [now right | exact H2].
      * right. split; [exact H1 | now right].
Qed.

Lemma groupOf_other (l : list Destination) (d : Destination) (k : jsstring) :
  k <> keyOf d -> groupOf (l ++ [d]) k = groupOf l k.
Proof.
  intros H. rewrite groupOf_app. simpl.
  destruct (eqb (keyOf d) k) eqn:Hk; [|apply app_nil_r].
  apply eqb_eq in Hk. congruence.
Qed.

Lemma groupOf_same (l : list Destination) (d : Destination) :
  groupOf (l ++ [d]) (keyOf d) = groupOf l (keyOf d) ++ [d].
Proof.
  rewrite groupOf_app. simpl. now rewrite eqb_refl.
Qed.

(** One step of the grouping loop keeps the groups right. *)
Lemma addTo_represents (g g' : groups) (l : list Destination) (d : Destination) :
  represents g l -> addTo g d = Returns g' -> represents g' (l ++ [d]).
Proof.
  intros (ND & Hg & Hl). unfold addTo.
  destruct (getOwn g (keyOf d)) as [grp|] eqn:Hget.
  - intros [= <-]. apply getOwn_Some in Hget. split; [|split].
    + now rewrite pushOwn_keys.
    + intros k' grp' H.
      destruct (pushOwn_In _ _ _ _ _ ND H) as [[-> [grp0 [H1 ->]]]|[H1 H2]].
      * rewrite groupOf_same, <- (proj1 (Hg _ _ H1)). split; [reflexivity|].
        now destruct grp0.
      * rewrite groupOf_other by exact H1. now apply Hg.
    + intros x Hx. rewrite pushOwn_keys. apply in_app_or in Hx as [Hx|[<-|[]]].
      * now apply Hl.
      * now apply (in_map fst) in Hget.
  - destruct (inherited (keyOf d)); [discriminate|]. intros [= <-].
    apply getOwn_None in Hget.
    assert (Hnone : groupOf l (keyOf d) = []).
    { destruct (groupOf l (keyOf d)) as [|x r] eqn:Hx; [reflexivity|].
      exfalso. assert (Hin : In x (groupOf l (keyOf d))) by (rewrite Hx; now left).
      apply groupOf_key in Hin as [Hin Hk]. apply Hget. rewrite <- Hk.
      now apply Hl. }
    split; [|split].
    + rewrite map_app. simpl. apply NoDup_app.
      * exact ND.
      * repeat constructor. intros [].
      * intros k Hk [<-|[]]. now apply Hget.
    + intros k' grp' H. apply in_app_or in H as [H|[[= <- <-]|[]]].
      * rewrite groupOf_other; [now apply Hg|].
        intros ->. apply Hget. now apply (in_map fst) in H.
      * rewrite groupOf_same, Hnone. split; [reflexivity | discriminate].
    + intros x Hx. rewrite map_app. apply in_or_app.
      apply in_app_or in Hx as [Hx|[<-|[]]]; [left; now apply Hl | right; now left].
Qed.

Lemma groupFrom_represents (items : list Destination) :
  forall g g' l, represents g l -> groupFrom g items = Returns g' ->
                 represents g' (l ++ items).
Proof.
  induction items as [|d items IH]; simpl; intros g g' l Hr.
  - intros [= <-]. now rewrite app_nil_r.
  - destruct (addTo g d) as [g1|] eqn:Hadd; simpl; [|discriminate].
    intros H. replace (l ++ d :: items) with ((l ++ [d]) ++ items)
      by now rewrite <- app_assoc.
    eapply IH; [|exact H]. eapply addTo_represents; eauto.
Qed.

(** The grouping loop, when it ends, has made the groups of its input. *)
Lemma groupAll_represents (items : list Destination) (g : groups) :
  groupAll items = Returns g -> represents g items.
Proof.
  intros H. change items with ([] ++ items).
  eapply groupFrom_represents; [|exact H].
  split; [constructor|]. split; intros; contradiction.
Qed.

(** It ends unless the key of some row names a property of
    [Object.prototype]. *)
Lemma groupFrom_returns (items : list Destination) :
  (forall d, In d items -> inherited (keyOf d) = false) ->
  forall g, exists g', groupFrom g items = Returns g'.
Proof.
  induction items as [|d items IH]; simpl; intros H g; [now exists g|].
  unfold addTo at 1. destruct (getOwn g (keyOf d)); simpl.
  - apply IH. intros x Hx. apply H. now right.
  - rewrite (H d) by now left. simpl. apply IH. intros x Hx. apply H. now right.
Qed.

Lemma objectValues_In (g : groups) (grp : list Destination) :
  In grp (objectValues g) <-> exists k, In (k, grp) g.
Proof.
  unfold objectValues. rewrite in_map_iff. split.
  - intros [[k l] [<- H]]. exists k. simpl.
    apply in_app_or in H as [H|H].
    + apply JsArray.sort_In in H. now apply filter_In in H.
    + now apply filter_In in H.
  - intros [k H]. exists (k, grp). split; [reflexivity|].
    apply in_or_app. destruct (isArrayIndex k) eqn:Hk.
    + left. apply JsArray.sort_In. apply filter_In. now split.
    + right. apply filter_In. split; [exact H | simpl; now rewrite Hk].
Qed.

(** Every group handed to a resolver is the whole duplicate group of a key,
    and has a row. *)
Lemma values_are_groups (items : list Destination) (g : groups)
      (grp : list Destination) :
  groupAll items = Returns g -> In grp (objectValues g) ->
  grp <> [] /\ exists k, grp = groupOf items k.
Proof.
  intros Hg Hin. apply groupAll_represents in Hg as (_ & Hg & _).
  apply objectValues_In in Hin as [k Hin]. destruct (Hg _ _ Hin) as [-> Hne].
  split; [exact Hne | now exists k].
Qed.

(** Every row is in the group handed to a resolver for its key. *)
Lemma group_of_row (items : list Destination) (g : groups) (d : Destination) :
  groupAll items = Returns g -> In d items ->
  In (groupOf items (keyOf d)) (objectValues g).
Proof.
  intros Hg Hin. apply groupAll_represents in Hg as (_ & Hg & Hl).
  apply Hl in Hin. apply in_map_iff in Hin as [[k grp] [Hk Hin]].
  simpl in Hk. subst k. apply objectValues_In. exists (keyOf d).
  now rewrite <- (proj1 (Hg _ _ Hin)).
Qed.

(** ** The comparators order their arguments consistently *)

Lemma localeCompare_flip (a b : jsstring) :
  (localeCompare a b < 0)%Z -> (0 < localeCompare b a)%Z.
Proof.
  intros H. pose proof (localeCompare_antisym a b) as S.
  destruct (localeCompare a b), (localeCompare b a);
    simpl in S; try discriminate; lia.
Qed.

Lemma localeCompare_total (a b : jsstring) :
  (0 < localeCompare a b)%Z -> (localeCompare b a <= 0)%Z.
Proof.
  intros H. pose proof (localeCompare_antisym a b) as S.
  destruct (localeCompare a b), (localeCompare b a);
    simpl in S; try discriminate; lia.
Qed.

Ltac by_points :=
  repeat match goal with
         | |- context [(?x =? ?y)%Z] => destruct (Z.eqb_spec x y)
         | H : context [(?x =? ?y)%Z] |- _ => destruct (Z.eqb_spec x y)
         end; simpl in *; try lia.

Lemma compare_id_consistent : JsArray.consistent compare_id.
Proof.
  split.
  - intros a b. unfold compare_id. by_points. apply localeCompare_total.
  - intros a b c. unfold compare_id. by_points. apply localeCompare_trans.
Qed.

Lemma compare_script_consistent : JsArray.consistent compare_script.
Proof.
  split.
  - intros a b. unfold compare_script. by_points. apply localeCompare_total.
  - intros a b c. unfold compare_script. by_points. apply localeCompare_trans.
Qed.

Lemma compareIndex_consistent : JsArray.consistent compareIndex.
Proof. unfold compareIndex. split; intros; lia. Qed.

Lemma compare_position_consistent (items : list Destination) :
  JsArray.consistent (compare_position items).
Proof. unfold compare_position. split; intros; lia. Qed.

(** ** Keys and [Object.prototype] *)

(** The key of a row is what each copy of [normalize] returns for
    [d.name || '']. *)
Lemma keyOf_normalize (d : Destination) :
  normalize_script (Str (orEmpty (name d))) = Returns (keyOf d)
  /\ normalize (Str (orEmpty (name d))) = Returns (keyOf d).
Proof.
  unfold normalize_script, normalize, keyOf. simpl.
  now destruct (orEmpty (name d)).
Qed.

Lemma keyOf_alnum (d : Destination) : forallb isLowerAlnum (keyOf d) = true.
Proof.
  unfold keyOf. rewrite trim_stripNonAlnum. apply forallb_forall.
  intros c Hc. now apply filter_In in Hc.
Qed.

(** Of the properties of [Object.prototype] only [constructor] has a name
    made of characters of [a-z0-9], so it is the only one a key can name. *)
Lemma inherited_key (d : Destination) :
  inherited (keyOf d) = eqb (keyOf d) (lit "constructor").
Proof.
  pose proof (keyOf_alnum d) as Ha. unfold inherited.
  assert (No : forall k, forallb isLowerAlnum k = false ->
                         eqb (keyOf d) k = false).
  { intros k Hk. destruct (eqb (keyOf d) k) eqn:He; [|reflexivity].
    apply eqb_eq in He. congruence. }
  unfold objectPrototypeKeys. cbn [map existsb].
  repeat match goal with
         | |- context [eqb (keyOf d) ?k] =>
           rewrite (No k) by (vm_compute; reflexivity)
         end.
  now rewrite !orb_false_r.
Qed.

(** ** One group *)

Definition scored (d : Destination) : Scored :=
  {| item := d; points := score d |}.

Definition scored_list (d : Destination) : Scored :=
  {| item := d; points := score_list d |}.

Lemma scored_In (grp : list Destination) (d : Destination) :
  In d grp -> In (scored d) (scoreAll grp).
Proof. intros H. apply in_map_iff. now exists d. Qed.

Lemma scored_list_In (grp : list Destination) (d : Destination) :
  In d grp -> In (scored_list d) (scoreAll_list grp).
Proof. intros H. apply in_map_iff. now exists d. Qed.

Lemma sorted_cons A (cmp : A -> A -> Z) (l : list A) :
  l <> [] -> exists h r, JsArray.sort cmp l = h :: r.
Proof.
  intros H. destruct (JsArray.sort cmp l) as [|h r] eqn:Hs; [|now exists h, r].
  apply (f_equal (@length A)) in Hs. rewrite JsArray.sort_length in Hs.
  destruct l; [contradiction | discriminate].
Qed.

Lemma two_rows (grp : list Destination) (a b : Destination) :
  In a grp -> In b grp -> a <> b -> (length grp <=? 1)%nat = false.
Proof.
  intros Ha Hb Hab. apply Nat.leb_gt.
  destruct grp as [|x [|y grp]]; simpl in *; [contradiction| |lia].
  destruct Ha as [<-|[]], Hb as [<-|[]]. contradiction.
Qed.

(** Admin page: a row that the comparator puts after another row of its
    group is removed. *)
Lemma removedOf_after (grp : list Destination) (a b : Destination) :
  In a grp -> In b grp -> (0 < compare_id (scored b) (scored a))%Z ->
  In b (removedOf grp).
Proof.
  intros Ha Hb Hlt. unfold removedOf.
  assert (Hab : a <> b).
  { intros ->. destruct compare_id_consistent as [T _].
    specialize (T _ _ Hlt). lia. }
  rewrite (two_rows _ Ha Hb Hab).
  destruct (sorted_cons compare_id (l := scoreAll grp)) as [h [r Hs]].
  { destruct grp; [contradiction | discriminate]. }
  rewrite Hs. simpl. apply in_map_iff. exists (scored b). split; [reflexivity|].
  apply (@JsArray.sort_tail _ compare_id (scoreAll grp) h r (scored a) (scored b)
           compare_id_consistent Hs); [| |exact Hlt]; now apply scored_In.
Qed.

(** Script: the same, with the comparator of the script. *)
Lemma duplicateOf_after (grp : list Destination) (a b : Destination) :
  In a grp -> In b grp -> (0 < compare_script (scored b) (scored a))%Z ->
  exists g, duplicateOf grp = [g] /\ In b (remove g).
Proof.
  intros Ha Hb Hlt. unfold duplicateOf.
  assert (Hab : a <> b).
  { intros ->. destruct compare_script_consistent as [T _].
    specialize (T _ _ Hlt). lia. }
  rewrite (two_rows _ Ha Hb Hab).
  destruct (sorted_cons compare_script (l := scoreAll grp)) as [h [r Hs]].
  { destruct grp; [contradiction | discriminate]. }
  rewrite Hs. eexists. split; [reflexivity|]. simpl.
  apply in_map_iff. exists (scored b). split; [reflexivity|].
  apply (@JsArray.sort_tail _ compare_script (scoreAll grp) h r (scored a)
           (scored b) compare_script_consistent Hs); [| |exact Hlt];
    now apply scored_In.
Qed.

(** List page: a row that the comparator puts after another row of its
    group is not the one kept. *)
Lemma chosenOf_after (grp : list Destination) (a b : Destination) :
  In a grp -> In b grp -> (0 < compare_id (scored_list b) (scored_list a))%Z ->
  exists k, chosenOf grp = [k] /\ In k grp /\ k <> b.
Proof.
  intros Ha Hb Hlt.
  assert (Hab : a <> b).
  { intros ->. destruct compare_id_consistent as [T _].
    specialize (T _ _ Hlt). lia. }
  pose proof (two_rows _ Ha Hb Hab) as Hlen.
  destruct (sorted_cons compare_id (l := scoreAll_list grp)) as [h [r Hs]].
  { destruct grp; [contradiction | discriminate]. }
  assert (Hh : In h (scoreAll_list grp)).
  { apply (JsArray.sort_In compare_id). rewrite Hs. now left. }
  apply in_map_iff in Hh as [k [Hk Hin]].
  exists k. split; [|split; [exact Hin|]].
  - unfold chosenOf. destruct grp as [|x [|y grp]]; try discriminate.
    rewrite Hs. now rewrite <- Hk.
  - intros ->. fold (scored_list b) in Hk.
    apply (@JsArray.sort_head_not _ compare_id (scoreAll_list grp) h r
             (scored_list a) (scored_list b) compare_id_consistent Hs);
      [now apply scored_list_In | exact Hlt | now symmetry].
Qed.

Lemma chosenOf_In (grp : list Destination) (x : Destination) :
  In x (chosenOf grp) -> In x grp.
Proof.
  unfold chosenOf. destruct grp as [|a [|b grp]]; [simpl; tauto | simpl; tauto |].
  destruct (JsArray.sort compare_id (scoreAll_list (a :: b :: grp)))
    as [|h r] eqn:Hs; [simpl; tauto|].
  intros [<-|[]].
  assert (Hh : In h (scoreAll_list (a :: b :: grp))).
  { apply (JsArray.sort_In compare_id). rewrite Hs. now left. }
  apply in_map_iff in Hh as [k [<- Hin]]. exact Hin.
Qed.

Lemma removedOf_In (grp : list Destination) (x : Destination) :
  In x (removedOf grp) -> In x grp /\ (2 <= length grp)%nat.
Proof.
  unfold removedOf. destruct (Nat.leb_spec (length grp) 1); [simpl; tauto|].
  intros Hx. split; [|lia]. apply in_map_iff in Hx as [s [<- Hs]].
  assert (Hh : In s (scoreAll grp)).
  { apply (JsArray.sort_In compare_id).
    destruct (JsArray.sort compare_id (scoreAll grp)); [contradiction|now right]. }
  apply in_map_iff in Hh as [k [<- Hin]]. exact Hin.
Qed.

Lemma duplicateOf_In (grp : list Destination) (g : Duplicate) (x : Destination) :
  In g (duplicateOf grp) -> In x (keep g :: remove g) ->
  In x grp /\ (2 <= length grp)%nat.
Proof.
  unfold duplicateOf. destruct (Nat.leb_spec (length grp) 1); [simpl; tauto|].
  destruct (JsArray.sort compare_script (scoreAll grp)) as [|h r] eqn:Hs;
    [simpl; tauto|].
  intros [<-|[]] Hx. split; [|lia]. simpl in Hx.
  assert (Hh : exists s, In s (h :: r) /\ item s = x).
  { destruct Hx as [<-|Hx]; [exists h; split; [now left | reflexivity]|].
    apply in_map_iff in Hx as [s [<- Hs']]. exists s. split; [now right | reflexivity]. }
  destruct Hh as [s [Hin <-]]. rewrite <- Hs in Hin.
  apply JsArray.sort_In in Hin. apply in_map_iff in Hin as [k [<- Hin]]. exact Hin.
Qed.

End WithEngine.
End ResolverFacts.

(* ================================================================== *)
(** * Rows and files used in the examples *)
(* ================================================================== *)

Module Examples.
Import Js Resolver.

(** A row with an id and a name and nothing else. *)
Definition bare (i n : string) : Destination :=
  {| id := Some (lit i); name := Some (lit n); description := None;
     province_id := None; image_url := None;
     location_lat := None; location_lng := None;
     destination_images := None; province_name := None |}.

(** A row with an id, a name and a description. *)
Definition described (i n d : string) : Destination :=
  {| id := Some (lit i); name := Some (lit n); description := Some (lit d);
     province_id := None; image_url := None;
     location_lat := None; location_lng := None;
     destination_images := None; province_name := None |}.

(** A row that has every attribute the scores look at. *)
Definition complete : Destination :=
  {| id := Some (lit "a"); name := Some (lit "Sigiriya Rock");
     description := Some (lit "x"); province_id := Some (lit "p");
     image_url := Some (lit "y");
     location_lat := Some (Qmake 7 1); location_lng := Some (Qmake 80 1);
     destination_images :=
       Some [{| img_url := lit "z"; is_primary := true; caption := None |}];
     province_name := Some (lit "Central") |}.

(** Scenario B of the specification. *)
Definition templeZ9 : Destination := bare "z9" "Temple A".
Definition templeA1 : Destination := bare "a1" "temple a".

(** Two rows of one group with the same score and descriptions of
    different lengths. *)
Definition shortA : Destination := described "a" "Temple A" "x".
Definition longB : Destination := described "b" "temple a" "xy".

(** Three files under [src/pictures], in the order of their enumeration. *)
Definition templeFile : jsstring * jsstring :=
  (lit "/src/pictures/a-temple.jpg", lit "/assets/a-temple.jpg").
Definition aluvihareFile : jsstring * jsstring :=
  (lit "/src/pictures/aluvihare.jpg", lit "/assets/aluvihare.jpg").
Definition aluvihareTempleFile : jsstring * jsstring :=
  (lit "/src/pictures/aluvihare-temple-2.jpg",
   lit "/assets/aluvihare-temple-2.jpg").

(** A destination without images in the database. *)
Definition aluvihare : Destination :=
  {| id := Some (lit "d1"); name := Some (lit "Aluvihare Temple");
     description := None; province_id := Some (lit "p1"); image_url := None;
     location_lat := None; location_lng := None;
     destination_images := Some []; province_name := Some (lit "Central") |}.

(** Scenario D of the specification. *)
Definition unknownPlace : Destination :=
  {| id := Some (lit "d2"); name := Some (lit "Totally Unknown Place");
     description := None; province_id := Some (lit "p2"); image_url := None;
     location_lat := None; location_lng := None;
     destination_images := Some [];
     province_name := Some (lit "Test Province") |}.

End Examples.

(* ================================================================== *)
(** * The duplicate resolver: what it guarantees *)
(* ================================================================== *)

Import Js Resolver ResolverFacts.

(** No key of the rows names a property of [Object.prototype]: the grouping
    loops end without an exception. *)
Definition plainKeys {E : Engine} (items : list Destination) : Prop :=
  forall d, In d items -> inherited (keyOf d) = false.

Lemma resolvers_return {E : Engine} (items : list Destination) :
  plainKeys items ->
  exists plan ids shown,
    duplicates items = Returns plan
    /\ idsToDelete items = Returns ids
    /\ dedupeDestinations items = Returns shown.
Proof.
  intros H. destruct (groupFrom_returns items H []) as [g Hg].
  unfold duplicates, idsToDelete, dedupeDestinations, groupAll.
  rewrite Hg. simpl. do 3 eexists. repeat split.
Qed.

Lemma nonEmpty_iff (s : jsstring) : nonEmpty s = true <-> s <> [].
Proof. destruct s; simpl; split; congruence. Qed.

Lemma truthyStr_iff (o : option jsstring) :
  truthyStr o = true <-> exists s, o = Some s /\ s <> [].
Proof.
  destruct o as [s|]; simpl.
  - rewrite nonEmpty_iff. split; [intros H; now exists s | intros [t [[= <-] H]]; exact H].
  - split; [discriminate | intros [s [H _]]; discriminate].
Qed.

Lemma truthyNum_iff (o : option Q) :
  truthyNum o = true <-> exists q, o = Some q /\ ~ Qeq q (Qmake 0 1).
Proof.
  assert (A : forall q, negb (Qnum q =? 0)%Z = true <-> ~ Qeq q (Qmake 0 1)).
  { intros q. unfold Qeq. simpl. rewrite negb_true_iff, Z.eqb_neq. lia. }
  destruct o as [q|]; simpl.
  - rewrite A. split; [intros H; now exists q | intros [t [[= <-] H]]; exact H].
  - split; [discriminate | intros [s [H _]]; discriminate].
Qed.

Lemma described_iff (o : option jsstring) :
  truthyStr o && (0 <? length (trim (toStr o)))%nat = true
  <-> exists s, o = Some s /\ trim s <> [].
Proof.
  destruct o as [s|]; simpl.
  - rewrite andb_true_iff, nonEmpty_iff, Nat.ltb_lt. split.
    + intros [_ H]. exists s. split; [reflexivity|]. now destruct (trim s).
    + intros [t [[= <-] H]]. split.
      * intros ->. now apply H.
      * destruct (trim s); [contradiction | simpl; lia].
  - split; [discriminate | intros [s [H _]]; discriminate].
Qed.

Lemma hasImages_iff (o : option (list DestinationImage)) :
  hasImages o = true <-> exists l, o = Some l /\ l <> [].
Proof.
  destruct o as [l|]; simpl.
  - rewrite Nat.ltb_lt. split.
    + intros H. exists l. split; [reflexivity|]. destruct l; [simpl in H; lia | discriminate].
    + intros [t [[= <-] H]]. destruct l; [contradiction | simpl; lia].
  - split; [discriminate | intros [s [H _]]; discriminate].
Qed.

(** C1, as the code has it.  In the maintenance script and in the admin
    page the score of a row is 2 for a description that is not empty after
    trimming, plus 1 for a province id that is not empty, plus 2 for an
    image url that is not empty, plus 1 when the latitude or the longitude
    is a number other than zero, and so lies between 0 and 6.  The
    destinations list page adds 3 to that score when the row has joined
    images, so its score lies between 0 and 9. *)
Theorem score_by_attributes (d : Destination) :
  exists desc prov img coord imgs : bool,
    (desc = true <-> exists s, description d = Some s /\ trim s <> [])
    /\ (prov = true <-> exists s, province_id d = Some s /\ s <> [])
    /\ (img = true <-> exists s, image_url d = Some s /\ s <> [])
    /\ (coord = true <->
        (exists q, location_lat d = Some q /\ ~ Qeq q (Qmake 0 1))
        \/ (exists q, location_lng d = Some q /\ ~ Qeq q (Qmake 0 1)))
    /\ (imgs = true <-> exists l, destination_images d = Some l /\ l <> [])
    /\ score d
       = (2 * Z.b2z desc + Z.b2z prov + 2 * Z.b2z img + Z.b2z coord)%Z
    /\ (0 <= score d <= 6)%Z
    /\ score_list d = (score d + 3 * Z.b2z imgs)%Z
    /\ (0 <= score_list d <= 9)%Z.
Proof.
  exists (truthyStr (description d)
          && (0 <? length (trim (toStr (description d))))%nat),
         (truthyStr (province_id d)), (truthyStr (image_url d)),
         (truthyNum (location_lat d) || truthyNum (location_lng d)),
         (hasImages (destination_images d)).
  split; [apply described_iff|].
  split; [apply truthyStr_iff|].
  split; [apply truthyStr_iff|].
  split; [now rewrite orb_true_iff, !truthyNum_iff|].
  split; [apply hasImages_iff|].
  unfold score, score_list.
  destruct (truthyStr (description d)
            && (0 <? length (trim (toStr (description d))))%nat),
           (truthyStr (province_id d)), (truthyStr (image_url d)),
           (truthyNum (location_lat d) || truthyNum (location_lng d)),
           (hasImages (destination_images d)); simpl; lia.
Qed.

(** C1 as stated fails: on the destinations list page a row with joined
    images scores 9, where the script gives the same row 6. *)
Lemma score_list_exceeds_six :
  score_list Examples.complete = 9%Z /\ score Examples.complete = 6%Z.
Proof. split; reflexivity. Qed.

(** ** Rows of one group, through the three resolvers *)

Lemma same_group {E : Engine} (items : list Destination) (a b : Destination) :
  In a items -> keyOf a = keyOf b -> In a (groupOf items (keyOf b)).
Proof.
  intros Ha Hk. apply filter_In. split; [exact Ha | now apply eqb_eq].
Qed.

Lemma idsToDelete_after {E : Engine} (items : list Destination)
      (a b : Destination) (ids : list (option jsstring)) :
  In a items -> In b items -> keyOf a = keyOf b ->
  (0 < compare_id (scored b) (scored a))%Z ->
  idsToDelete items = Returns ids -> In (id b) ids.
Proof.
  intros Ha Hb Hk Hlt. unfold idsToDelete.
  destruct (groupAll items) as [g|] eqn:Hg; simpl; [|discriminate].
  intros [= <-]. apply in_flat_map. exists (groupOf items (keyOf b)).
  split; [now apply group_of_row|].
  apply in_map. apply removedOf_after with (a := a).
  - now apply same_group.
  - now apply same_group.
  - exact Hlt.
Qed.

Lemma duplicates_after {E : Engine} (items : list Destination)
      (a b : Destination) (plan : list Duplicate) :
  In a items -> In b items -> keyOf a = keyOf b ->
  (0 < compare_script (scored b) (scored a))%Z ->
  duplicates items = Returns plan ->
  exists g, In g plan /\ In b (remove g) /\ In (id b) (toDelete plan).
Proof.
  intros Ha Hb Hk Hlt. unfold duplicates.
  destruct (groupAll items) as [g|] eqn:Hg; simpl; [|discriminate].
  intros [= <-].
  destruct (@duplicateOf_after _ (groupOf items (keyOf b)) a b)
    as [d [Hd Hin]];
    [now apply same_group | now apply same_group | exact Hlt |].
  assert (Hp : In d (flat_map duplicateOf (objectValues g))).
  { apply in_flat_map. exists (groupOf items (keyOf b)).
    split; [now apply group_of_row | rewrite Hd; now left]. }
  exists d. split; [exact Hp|]. split; [exact Hin|].
  unfold toDelete. apply in_flat_map. exists d. split; [exact Hp|].
  now apply in_map.
Qed.

Lemma dedupe_after {E : Engine} (items : list Destination)
      (a b : Destination) (shown : list Destination) :
  In a items -> In b items -> keyOf a = keyOf b ->
  (0 < compare_id (scored_list b) (scored_list a))%Z ->
  dedupeDestinations items = Returns shown -> ~ In b shown.
Proof.
  intros Ha Hb Hk Hlt. unfold dedupeDestinations.
  destruct (groupAll items) as [g|] eqn:Hg; simpl; [|discriminate].
  intros [= <-] Hin. apply JsArray.sort_In in Hin.
  apply in_flat_map in Hin as [grp [Hgrp Hin]].
  destruct (@values_are_groups E items g grp Hg Hgrp) as [_ [k ->]].
  pose proof (@chosenOf_In E _ _ Hin) as Hb'. apply groupOf_key in Hb' as [_ <-].
  destruct (@chosenOf_after _ (groupOf items (keyOf b)) a b)
    as [c [Hc [_ Hne]]];
    [now apply same_group | now apply same_group | exact Hlt |].
  rewrite Hc in Hin. destruct Hin as [->|[]]. now apply Hne.
Qed.

(** C2, as the code has it.  For two rows [a] and [b] of one duplicate
    group with the same score, where the id of [a] comes before the id of
    [b] in the order of [localeCompare]: the admin page deletes [b], the
    destinations list page does not show [b], and the maintenance script
    puts [b] in a removal list provided that the two descriptions have the
    same length.  The script looks at the descriptions before the ids: of
    two rows with the same score it removes the one with the shorter
    description, whatever the ids are.  None of this depends on the
    positions of the rows in the input, and the three resolvers return
    whenever no key names a property of [Object.prototype]. *)
Theorem tie_break_by_id {E : Engine} (items : list Destination)
        (a b : Destination) :
  In a items -> In b items -> keyOf a = keyOf b ->
  (score a = score b ->
   (localeCompare (orEmpty (id a)) (orEmpty (id b)) < 0)%Z ->
   forall ids, idsToDelete items = Returns ids -> In (id b) ids)
  /\ (score_list a = score_list b ->
      (localeCompare (orEmpty (id a)) (orEmpty (id b)) < 0)%Z ->
      forall shown, dedupeDestinations items = Returns shown -> ~ In b shown)
  /\ (score a = score b ->
      length (orEmpty (description a)) = length (orEmpty (description b)) ->
      (localeCompare (orEmpty (id a)) (orEmpty (id b)) < 0)%Z ->
      forall plan, duplicates items = Returns plan ->
                   exists g, In g plan /\ In b (remove g)
                             /\ In (id b) (toDelete plan))
  /\ (score a = score b ->
      (length (orEmpty (description b)) < length (orEmpty (description a)))%nat ->
      forall plan, duplicates items = Returns plan ->
                   exists g, In g plan /\ In b (remove g)
                             /\ In (id b) (toDelete plan))
  /\ (plainKeys items ->
      exists plan ids shown,
        duplicates items = Returns plan
        /\ idsToDelete items = Returns ids
        /\ dedupeDestinations items = Returns shown).
Proof.
  intros Ha Hb Hk. repeat split.
  - intros Hs Hlt ids. apply idsToDelete_after with (a := a); auto.
    unfold compare_id. simpl. rewrite Hs, Z.eqb_refl. simpl.
    now apply localeCompare_flip.
  - intros Hs Hlt shown. apply dedupe_after with (a := a); auto.
    unfold compare_id. simpl. rewrite Hs, Z.eqb_refl. simpl.
    now apply localeCompare_flip.
  - intros Hs Hl Hlt plan. apply duplicates_after with (a := a); auto.
    unfold compare_script. simpl. rewrite Hs, Hl, !Z.eqb_refl. simpl.
    now apply localeCompare_flip.
  - intros Hs Hl plan. apply duplicates_after with (a := a); auto.
    unfold compare_script. simpl. rewrite Hs, Z.eqb_refl. simpl.
    destruct (Z.eqb_spec (Z.of_nat (length (orEmpty (description a))))
                         (Z.of_nat (length (orEmpty (description b)))));
      simpl; lia.
  - apply resolvers_return.
Qed.

(** C2 as stated fails in the maintenance script: of two rows with the same
    score, the one with the longer description is kept although its id is
    the greater one, in either order of the input. *)
Lemma script_prefers_longer_description :
  score Examples.shortA = score Examples.longB
  /\ localeCompare (Engine := basicEngine)
                   (orEmpty (id Examples.shortA)) (orEmpty (id Examples.longB))
     = (-1)%Z
  /\ duplicates (E := basicEngine) [Examples.shortA; Examples.longB]
     = Returns [{| keep := Examples.longB; remove := [Examples.shortA] |}]
  /\ duplicates (E := basicEngine) [Examples.longB; Examples.shortA]
     = Returns [{| keep := Examples.longB; remove := [Examples.shortA] |}].
Proof. repeat split; vm_compute; reflexivity. Qed.

(** Scenario B of the specification, in the admin page, the list page and
    the script, for both orders of the input. *)
Lemma tie_break_by_id_witness :
  let a := Examples.templeA1 in
  let b := Examples.templeZ9 in
  (forall ids, idsToDelete (E := basicEngine) [b; a] = Returns ids ->
               In (id b) ids)
  /\ (forall shown, dedupeDestinations (E := basicEngine) [b; a] = Returns shown ->
                    ~ In b shown)
  /\ (forall plan, duplicates (E := basicEngine) [b; a] = Returns plan ->
                   exists g, In g plan /\ In b (remove g)
                             /\ In (id b) (toDelete plan)).
Proof.
  intros a b.
  destruct (@tie_break_by_id basicEngine [b; a] a b) as (H1 & H2 & H3 & _).
  - right. now left.
  - now left.
  - reflexivity.
  - split; [|split].
    + apply H1; reflexivity.
    + apply H2; reflexivity.
    + apply H3; reflexivity.
Defined.

Lemma singleton_group {E : Engine} (items : list Destination) (d : Destination) :
  In d items -> groupSize items d = 1%nat -> groupOf items (keyOf d) = [d].
Proof.
  unfold groupSize. intros Hin Hlen.
  assert (Hd : In d (groupOf items (keyOf d))).
  { apply filter_In. split; [exact Hin | apply eqb_refl]. }
  destruct (groupOf items (keyOf d)) as [|x [|y r]]; try discriminate.
  destruct Hd as [->|[]]. reflexivity.
Qed.

(** C8.  A row whose duplicate group has no other row is in no entry of the
    plan of the maintenance script, neither as the row kept nor as a row
    removed; its id is not among the ids the admin page deletes, provided
    that the rows with that id are rows of its group (as when ids are
    unique); and the destinations list page shows it.  The three resolvers
    return whenever no key names a property of [Object.prototype]. *)
Theorem singletons_untouched {E : Engine} (items : list Destination)
        (d : Destination) :
  In d items -> groupSize items d = 1%nat ->
  (forall plan g, duplicates items = Returns plan -> In g plan ->
                  ~ In d (keep g :: remove g))
  /\ (forall plan, duplicates items = Returns plan ->
                   (forall r, In r items -> id r = id d -> keyOf r = keyOf d) ->
                   ~ In (id d) (toDelete plan))
  /\ (forall ids, idsToDelete items = Returns ids ->
                  (forall r, In r items -> id r = id d -> keyOf r = keyOf d) ->
                  ~ In (id d) ids)
  /\ (forall shown, dedupeDestinations items = Returns shown -> In d shown)
  /\ (plainKeys items ->
      exists plan ids shown,
        duplicates items = Returns plan
        /\ idsToDelete items = Returns ids
        /\ dedupeDestinations items = Returns shown).
Proof.
  intros Hin Hone.
  assert (Big : forall g grp r,
             groupAll items = Returns g -> In grp (objectValues g) ->
             In r grp -> (2 <= length grp)%nat -> keyOf r <> keyOf d).
  { intros g grp r Hg Hgrp Hr Hlen Hk.
    destruct (@values_are_groups E items g grp Hg Hgrp) as [_ [k ->]].
    apply groupOf_key in Hr as [_ <-]. rewrite Hk in Hlen.
    unfold groupSize in Hone. lia. }
  split; [|split; [|split; [|split]]].
  - intros plan g. unfold duplicates.
    destruct (groupAll items) as [gs|] eqn:Hg; simpl; [|discriminate].
    intros [= <-] Hp Hd. apply in_flat_map in Hp as [grp [Hgrp Hp]].
    destruct (@duplicateOf_In E grp g d Hp Hd) as [Hr Hlen].
    now apply (Big gs grp d eq_refl).
  - intros plan. unfold duplicates.
    destruct (groupAll items) as [gs|] eqn:Hg; simpl; [|discriminate].
    intros [= <-] Hid Hd. unfold toDelete in Hd.
    apply in_flat_map in Hd as [g [Hp Hd]].
    apply in_map_iff in Hd as [r [Hrid Hr]].
    apply in_flat_map in Hp as [grp [Hgrp Hp]].
    destruct (@duplicateOf_In E grp g r Hp (or_intror Hr)) as [Hr' Hlen].
    apply (Big gs grp r); auto. apply Hid; [|exact Hrid].
    destruct (@values_are_groups E items gs grp Hg Hgrp) as [_ [k ->]].
    now apply groupOf_key in Hr'.
  - intros ids. unfold idsToDelete.
    destruct (groupAll items) as [gs|] eqn:Hg; simpl; [|discriminate].
    intros [= <-] Hid Hd. apply in_flat_map in Hd as [grp [Hgrp Hd]].
    apply in_map_iff in Hd as [r [Hrid Hr]].
    apply removedOf_In in Hr as [Hr Hlen].
    apply (Big gs grp r); auto. apply Hid; [|exact Hrid].
    destruct (@values_are_groups E items gs grp Hg Hgrp) as [_ [k ->]].
    now apply groupOf_key in Hr.
  - intros shown. unfold dedupeDestinations.
    destruct (groupAll items) as [gs|] eqn:Hg; simpl; [|discriminate].
    intros [= <-]. apply JsArray.sort_In. apply in_flat_map.
    exists (groupOf items (keyOf d)). split; [now apply group_of_row|].
    rewrite (@singleton_group E items d Hin Hone). now left.
  - apply resolvers_return.
Qed.

(** In the input [Temple A (z9), Kandy (k1), temple a (a1)] the row
    [Kandy] is alone in its group. *)
Lemma singletons_untouched_witness :
  let kandy := Examples.bare "k1" "Kandy" in
  let items := [Examples.templeZ9; kandy; Examples.templeA1] in
  (In kandy items /\ groupSize (E := basicEngine) items kandy = 1%nat)
  /\ (forall plan g, duplicates (E := basicEngine) items = Returns plan ->
                     In g plan -> ~ In kandy (keep g :: remove g))
  /\ (forall shown, dedupeDestinations (E := basicEngine) items = Returns shown ->
                    In kandy shown).
Proof.
  intros kandy items.
  assert (Hin : In kandy items) by (right; now left).
  assert (Hone : groupSize (E := basicEngine) items kandy = 1%nat)
    by reflexivity.
  destruct (@singletons_untouched basicEngine items kandy Hin Hone)
    as (H1 & _ & _ & H4 & _).
  split; [now split|]. split; [exact H1 | exact H4].
Defined.

(* ================================================================== *)
(** * Normalization *)
(* ================================================================== *)

Import Matcher.

(** On strings of the Basic Latin block every engine computes what
    [basicEngine] computes: the calls of the library are replaced by their
    values there, innermost first. *)
Ltac engine_step :=
  match goal with
  | |- context [normalizeNFKD ?s] =>
    rewrite (normalizeNFKD_ascii s (eq_refl true))
  | |- context [toLowerCase ?s] =>
    rewrite (toLowerCase_ascii s (eq_refl true))
  end.

Ltac engine_eval := vm_compute; repeat (engine_step; vm_compute).

Lemma normalize_script_string {E : Engine} (s : jsstring) :
  normalize_script (Str s) = Returns (stripNonAlnum (toLowerCase s)).
Proof.
  unfold normalize_script. simpl. now rewrite trim_stripNonAlnum.
Qed.

Lemma normalize_string {E : Engine} (s : jsstring) :
  normalize (Str s) = Returns (stripNonAlnum (toLowerCase s)).
Proof.
  unfold normalize. simpl. destruct s as [|c s]; simpl;
    now rewrite trim_stripNonAlnum.
Qed.

Lemma keyOf_string {E : Engine} (d : Destination) :
  keyOf d = stripNonAlnum (toLowerCase (orEmpty (name d))).
Proof. unfold keyOf. apply trim_stripNonAlnum. Qed.

Lemma stripNonAlnum_alnum (s : jsstring) :
  forallb isLowerAlnum (stripNonAlnum s) = true.
Proof.
  apply forallb_forall. intros c Hc. now apply filter_In in Hc.
Qed.

(** C6.  [normalize], in the script and in the two pages, gives
    ["St. Clair's"] and ["st clairs"] the key ["stclairs"];
    [normalizeForKey] gives ["Lovers' Leap"] and ["lovers leap"] the key
    ["loversleap"].  On every string [normalize] is lower-casing followed by
    the removal of the characters outside [a-z0-9] (the final [trim] has
    nothing left to remove); [normalizeForKey] decomposes, removes the
    apostrophes and the combining marks, and then does the same; so every
    key is made of characters of [a-z0-9]. *)
Theorem normalization_folds_variants {E : Engine} :
  (normalize_script (Str (lit "St. Clair's")) = Returns (lit "stclairs")
   /\ normalize_script (Str (lit "st clairs")) = Returns (lit "stclairs"))
  /\ (normalize (Str (lit "St. Clair's")) = Returns (lit "stclairs")
      /\ normalize (Str (lit "st clairs")) = Returns (lit "stclairs"))
  /\ (normalizeForKey (lit "Lovers' Leap") = lit "loversleap"
      /\ normalizeForKey (lit "lovers leap") = lit "loversleap")
  /\ (forall s,
         normalize_script (Str s) = Returns (stripNonAlnum (toLowerCase s))
         /\ normalize (Str s) = Returns (stripNonAlnum (toLowerCase s))
         /\ forallb isLowerAlnum (stripNonAlnum (toLowerCase s)) = true)
  /\ (forall s,
         normalizeForKey s
         = stripNonAlnum
             (toLowerCase
                (filter (fun c => negb (isCombining c))
                        (filter (fun c => negb (isApostrophe c))
                                (normalizeNFKD s))))
         /\ forallb isLowerAlnum (normalizeForKey s) = true).
Proof.
  split; [|split; [|split; [|split]]].
  - rewrite !normalize_script_string. split; now engine_eval.
  - rewrite !normalize_string. split; now engine_eval.
  - unfold normalizeForKey. split; now engine_eval.
  - intros s. rewrite normalize_script_string, normalize_string.
    repeat split. apply stripNonAlnum_alnum.
  - intros s. split; [reflexivity | apply stripNonAlnum_alnum].
Qed.

Lemma normalize_script_null {E : Engine} :
  normalize_script Null = Returns (lit "null").
Proof. unfold normalize_script. now engine_eval. Qed.

(** C7, as the code has it.  The copies of [normalize] in the admin page and
    in the destinations list page return the empty key for [undefined] and
    for [null].  The copy in the maintenance script returns the empty key
    for [undefined], which its default value replaces, and the key ["null"]
    for [null].  No copy throws on either, and at every call the argument is
    [d.name || ''], so that a row without a name has the empty key in the
    three resolvers. *)
Theorem normalize_of_missing {E : Engine} :
  (normalize Undefined = Returns [] /\ normalize Null = Returns [])
  /\ normalize_script Undefined = Returns []
  /\ normalize_script Null = Returns (lit "null")
  /\ (forall d, name d = None \/ name d = Some [] -> keyOf d = []).
Proof.
  split; [|split; [|split]].
  - unfold normalize. simpl. split; now engine_eval.
  - unfold normalize_script. now engine_eval.
  - apply normalize_script_null.
  - intros d [H|H]; rewrite keyOf_string, H; simpl; now engine_eval.
Qed.

(** C7 as stated fails for the copy in the maintenance script: applied to
    [null] it returns the key ["null"], not the empty key. *)
Lemma normalize_script_null_key :
  normalize_script (E := basicEngine) Null = Returns (lit "null")
  /\ lit "null" = [110; 117; 108; 108]%N.
Proof. split; reflexivity. Qed.

(** A name that normalizes to ["constructor"] stops the three resolvers:
    [groups[key]] finds [Object.prototype.constructor], which has no
    [push]. *)
Lemma constructor_name_throws {E : Engine} :
  let items := [Examples.bare "c1" "Constructor"; Examples.templeA1] in
  duplicates items = Throws TypeError
  /\ idsToDelete items = Throws TypeError
  /\ dedupeDestinations items = Throws TypeError.
Proof.
  intros items. subst items.
  assert (H : groupAll [Examples.bare "c1" "Constructor"; Examples.templeA1]
              = Throws TypeError).
  { unfold groupAll. cbn [groupFrom]. unfold addTo at 1.
    replace (keyOf (Examples.bare "c1" "Constructor"))
      with (lit "constructor") by (rewrite keyOf_string; now engine_eval).
    reflexivity. }
  unfold duplicates, idsToDelete, dedupeDestinations. rewrite H.
  repeat split.
Qed.

(* ================================================================== *)
(** * Strings of the Basic Latin block *)
(* ================================================================== *)

(** On names and files written in the Basic Latin block the functions of
    the matcher do not depend on the engine: they compute what they compute
    with [basicEngine]. *)
Module BasicLatin.

Definition plain (s : jsstring) : bool := forallb isAscii s.

(** The file name of a path, without its extension, is plain. *)
Definition plainFile (file : jsstring * jsstring) : bool :=
  plain (stripExtension (last (splitSlash (fst file)) [])).

Definition plainEntry (e : Entry) : bool :=
  plain (filename e) && plain (path e).

Definition plainRow (d : Destination) : bool :=
  plain (orEmpty (name d))
  && match province_name d with Some p => plain p | None => true end.

Lemma plain_filter (q : N -> bool) (s : jsstring) :
  plain s = true -> plain (filter q s) = true.
Proof.
  unfold plain. rewrite !forallb_forall. intros H c Hc.
  apply filter_In in Hc as [Hc _]. now apply H.
Qed.

Lemma find_ext_in A (p q : A -> bool) (l : list A) :
  (forall x, In x l -> p x = q x) -> JsArray.find p l = JsArray.find q l.
Proof.
  unfold JsArray.find. induction l as [|x l IH]; simpl; intros H; [reflexivity|].
  rewrite (H x) by now left. destruct (q x); [reflexivity|].
  apply IH. intros y Hy. apply H. now right.
Qed.

Section WithEngine.
Context {E : Engine}.

Lemma toLowerCase_plain (s : jsstring) :
  plain s = true -> toLowerCase s = toLowerCase (Engine := basicEngine) s.
Proof. intros H. now rewrite toLowerCase_ascii. Qed.

Lemma normalizeForKey_plain (s : jsstring) :
  plain s = true -> normalizeForKey s = normalizeForKey (E := basicEngine) s.
Proof.
  intros H. unfold normalizeForKey.
  rewrite normalizeNFKD_ascii by exact H.
  rewrite toLowerCase_plain; [reflexivity|]. now do 2 apply plain_filter.
Qed.

Lemma tokensOf_plain (name : jsstring) :
  plain name = true ->
  Detail.tokensOf name = Detail.tokensOf (E := basicEngine) name.
Proof.
  intros H. unfold Detail.tokensOf. now rewrite toLowerCase_plain.
Qed.

Lemma mkEntry_plain (file : jsstring * jsstring) :
  plainFile file = true -> mkEntry file = mkEntry (E := basicEngine) file.
Proof.
  destruct file as [p u]. unfold plainFile, mkEntry. simpl. intros H.
  now rewrite normalizeForKey_plain.
Qed.

Lemma localImageEntries_plain (files : list (jsstring * jsstring)) :
  forallb plainFile files = true ->
  localImageEntries files = localImageEntries (E := basicEngine) files.
Proof.
  intros H. unfold localImageEntries. f_equal. apply map_ext_in.
  intros f Hf. apply mkEntry_plain. rewrite forallb_forall in H. now apply H.
Qed.

Lemma detail_findLocalImages_plain (entries : list Entry) (name : jsstring) :
  plain name = true -> forallb plainEntry entries = true ->
  Detail.findLocalImages entries name
  = Detail.findLocalImages (E := basicEngine) entries name.
Proof.
  intros Hn He. unfold Detail.findLocalImages, Detail.findLocalEntries.
  f_equal. rewrite normalizeForKey_plain, tokensOf_plain by exact Hn.
  apply filter_ext_in. intros e Hin. rewrite forallb_forall in He.
  apply He, andb_true_iff in Hin as [Hf Hp].
  unfold Detail.matchesEntry. now rewrite !toLowerCase_plain.
Qed.

Lemma list_findLocalImages_plain (entries : list Entry) (name : jsstring) :
  plain name = true ->
  Destinations.findLocalImages entries name
  = Destinations.findLocalImages (E := basicEngine) entries name.
Proof.
  intros Hn. unfold Destinations.findLocalImages.
  now rewrite normalizeForKey_plain.
Qed.

Lemma find_filename_plain (entries : list Entry) (word : jsstring) :
  forallb plainEntry entries = true ->
  JsArray.find (fun e => includes (toLowerCase (filename e)) word) entries
  = JsArray.find
      (fun e => includes (toLowerCase (Engine := basicEngine) (filename e)) word)
      entries.
Proof.
  intros He. apply find_ext_in. intros e Hin. rewrite forallb_forall in He.
  apply He, andb_true_iff in Hin as [Hf _]. now rewrite toLowerCase_plain.
Qed.

Lemma detail_findManualOverride_plain (entries : list Entry) (name : jsstring) :
  plain name = true -> forallb plainEntry entries = true ->
  Detail.findManualOverride entries name
  = Detail.findManualOverride (E := basicEngine) entries name.
Proof.
  intros Hn He. unfold Detail.findManualOverride.
  now rewrite normalizeForKey_plain, !find_filename_plain.
Qed.

Lemma list_findManualOverride_plain (entries : list Entry) (name : jsstring) :
  plain name = true -> forallb plainEntry entries = true ->
  Destinations.findManualOverride entries name
  = Destinations.findManualOverride (E := basicEngine) entries name.
Proof.
  intros Hn He. unfold Destinations.findManualOverride.
  now rewrite normalizeForKey_plain, !find_filename_plain.
Qed.

Lemma find_province_plain (entries : list Entry) (p : jsstring) :
  plain p = true -> forallb plainEntry entries = true ->
  JsArray.find
    (fun e => includes (toLowerCase (path e)) (toLowerCase p)
              || includes (key e) (normalizeForKey p)) entries
  = JsArray.find
      (fun e => includes (toLowerCase (Engine := basicEngine) (path e))
                         (toLowerCase (Engine := basicEngine) p)
                || includes (key e) (normalizeForKey (E := basicEngine) p))
      entries.
Proof.
  intros Hp He. apply find_ext_in. intros e Hin. rewrite forallb_forall in He.
  apply He, andb_true_iff in Hin as [_ Hpath].
  now rewrite normalizeForKey_plain, !toLowerCase_plain.
Qed.

Lemma provinceFallback_plain (entries : list Entry) (d : Destination) :
  plainRow d = true -> forallb plainEntry entries = true ->
  Detail.provinceFallback entries d
  = Detail.provinceFallback (E := basicEngine) entries d.
Proof.
  unfold plainRow. intros Hd He. apply andb_true_iff in Hd as [_ Hp].
  unfold Detail.provinceFallback. destruct (province_name d) as [p|];
    [|reflexivity].
  now rewrite find_province_plain.
Qed.

Lemma primaryImageUrl_plain (entries : list Entry) (d : Destination) :
  plainRow d = true -> forallb plainEntry entries = true ->
  Detail.primaryImageUrl entries d
  = Detail.primaryImageUrl (E := basicEngine) entries d.
Proof.
  intros Hd He. pose proof Hd as Hd'. unfold plainRow in Hd'.
  apply andb_true_iff in Hd' as [Hn _]. unfold Detail.primaryImageUrl.
  now rewrite detail_findLocalImages_plain, detail_findManualOverride_plain,
    provinceFallback_plain.
Qed.

Lemma findProvinceImage_plain (entries : list Entry) (p : jsstring) :
  plain p = true -> forallb plainEntry entries = true ->
  Destinations.findProvinceImage entries (Some p)
  = Destinations.findProvinceImage (E := basicEngine) entries (Some p).
Proof.
  intros Hp He. unfold Destinations.findProvinceImage.
  destruct (negb (truthyStr (Some p))); [reflexivity|]. f_equal.
  assert (Ho : plain (orEmpty (Some p)) = true).
  { simpl. now destruct (nonEmpty p). }
  apply find_ext_in. intros e Hin. rewrite forallb_forall in He.
  apply He, andb_true_iff in Hin as [_ Hpath].
  now rewrite normalizeForKey_plain, !toLowerCase_plain.
Qed.

Lemma cardImage_plain (entries : list Entry) (d : Destination) :
  plainRow d = true -> forallb plainEntry entries = true ->
  Destinations.cardImage entries d
  = Destinations.cardImage (E := basicEngine) entries d.
Proof.
  intros Hd He. pose proof Hd as Hd'. unfold plainRow in Hd'.
  apply andb_true_iff in Hd' as [Hn Hp]. unfold Destinations.cardImage.
  rewrite list_findManualOverride_plain, list_findLocalImages_plain by assumption.
  destruct (province_name d) as [p|]; [|reflexivity].
  now rewrite findProvinceImage_plain.
Qed.

End WithEngine.
End BasicLatin.

(* ================================================================== *)
(** * The local asset matcher: what it guarantees *)
(* ================================================================== *)

(** [t] occurs in [s]. *)
Definition occursIn (t s : jsstring) : Prop :=
  exists pre post, s = pre ++ t ++ post.

Lemma includes_occursIn (s t : jsstring) :
  includes s t = true <-> occursIn t s.
Proof. apply includes_spec. Qed.

(** ** Tokens *)

Lemma splitGo_concat (s acc : jsstring) (inSep : bool) :
  concat (splitGo s acc inSep) = rev acc ++ stripNonAlnum s.
Proof.
  revert acc inSep. induction s as [|c s IH]; intros acc inSep; simpl.
  - now rewrite app_nil_r.
  - destruct (isLowerAlnum c).
    + rewrite IH. simpl. now rewrite <- app_assoc.
    + destruct inSep; simpl; now rewrite IH.
Qed.

Lemma concat_filterBoolean (l : list jsstring) :
  concat (filterBoolean l) = concat l.
Proof.
  induction l as [|[|c t] l IH]; simpl; [reflexivity | exact IH | now rewrite IH].
Qed.

Lemma splitGo_pieces (s acc : jsstring) (inSep : bool) (t : jsstring) :
  Forall (fun c => isLowerAlnum c = true) acc ->
  (inSep = true -> acc = []) ->
  In t (splitGo s acc inSep) ->
  Forall (fun c => isLowerAlnum c = true) t /\ occursIn t (rev acc ++ s).
Proof.
  revert acc inSep. induction s as [|c s IH]; intros acc inSep Hacc Hsep; simpl.
  - intros [<-|[]]. split; [now apply Forall_rev|].
    exists [], []. now rewrite !app_nil_r.
  - assert (Later : In t (splitGo s [] true) ->
                    Forall (fun c => isLowerAlnum c = true) t
                    /\ occursIn t (rev acc ++ c :: s)).
    { intros H.
      destruct (IH [] true (Forall_nil _) (fun _ => eq_refl) H)
        as [H1 [pre [post H2]]].
      split; [exact H1|]. exists (rev acc ++ c :: pre), post.
      simpl in H2. rewrite H2. now rewrite <- app_assoc. }
    destruct (isLowerAlnum c) eqn:Hc.
    + intros H.
      destruct (IH (c :: acc) false (Forall_cons _ Hc Hacc)
                   (fun F => False_ind _ (Bool.diff_false_true F)) H)
        as [H1 H2].
      split; [exact H1|]. simpl in H2. now rewrite <- app_assoc in H2.
    + destruct inSep.
      * pose proof (Hsep eq_refl) as Hnil. subst acc. exact Later.
      * intros [<-|H]; [|now apply Later].
        split; [now apply Forall_rev|]. exists [], (c :: s). reflexivity.
Qed.

(** The tokens of a name are not empty, are made of characters of
    [a-z0-9], occur in the lower-cased name, and together are what is left
    of the lower-cased name without its other characters. *)
Lemma tokensOf_spec {E : Engine} (name : jsstring) :
  (forall t, In t (Detail.tokensOf name) ->
             t <> [] /\ forallb isLowerAlnum t = true
             /\ occursIn t (toLowerCase name))
  /\ concat (Detail.tokensOf name) = stripNonAlnum (toLowerCase name).
Proof.
  unfold Detail.tokensOf. split.
  - intros t Ht. apply filter_In in Ht as [Ht Hne].
    apply nonEmpty_iff in Hne. split; [exact Hne|].
    destruct (@splitGo_pieces (toLowerCase name) [] false t (Forall_nil _))
      as [H1 H2]; [discriminate | exact Ht |].
    split; [|exact H2]. apply forallb_forall. now apply Forall_forall.
  - rewrite concat_filterBoolean. unfold splitNonAlnum.
    now rewrite splitGo_concat.
Qed.

(** ** The filter of the detail page *)

Lemma anyToken_spec (lowerFilename lowerPath : jsstring)
      (tokens : list jsstring) :
  Detail.anyToken lowerFilename lowerPath tokens = true <->
  exists t, In t tokens /\ t <> []
            /\ (occursIn t lowerFilename \/ occursIn t lowerPath).
Proof.
  induction tokens as [|t tokens IH]; simpl.
  - split; [discriminate | intros [t [[] _]]].
  - destruct (nonEmpty t) eqn:Ht; simpl.
    + destruct (includes lowerFilename t || includes lowerPath t) eqn:Hi.
      * split; [intros _|reflexivity]. exists t.
        split; [now left|]. split; [now apply nonEmpty_iff|].
        apply orb_true_iff in Hi. now rewrite <- !includes_occursIn.
      * rewrite IH. split.
        -- intros [u [H1 H2]]. exists u. split; [now right | exact H2].
        -- intros [u [[<-|H1] [H2 H3]]].
           ++ rewrite <- !includes_occursIn, <- orb_true_iff in H3. congruence.
           ++ now exists u.
    + rewrite IH. split.
      * intros [u [H1 H2]]. exists u. split; [now right | exact H2].
      * intros [u [[<-|H1] [H2 H3]]].
        -- apply nonEmpty_iff in H2. congruence.
        -- now exists u.
Qed.

Lemma matchesEntry_spec {E : Engine} (name : jsstring) (e : Entry) :
  Detail.matchesEntry (normalizeForKey name) (Detail.tokensOf name) e = true
  <->
  key e <> []
  /\ (occursIn (normalizeForKey name) (key e)
      \/ occursIn (key e) (normalizeForKey name)
      \/ exists t, In t (Detail.tokensOf name)
                   /\ (occursIn t (toLowerCase (filename e))
                       \/ occursIn t (toLowerCase (path e)))).
Proof.
  unfold Detail.matchesEntry. destruct (nonEmpty (key e)) eqn:Hk; simpl.
  - apply nonEmpty_iff in Hk.
    destruct (includes (key e) (normalizeForKey name)
              || includes (normalizeForKey name) (key e)) eqn:Hi.
    + split; [intros _|reflexivity]. split; [exact Hk|].
      apply orb_true_iff in Hi. rewrite !includes_occursIn in Hi. tauto.
    + apply orb_false_iff in Hi as [H1 H2]. rewrite anyToken_spec. split.
      * intros [t [Ht [_ Ho]]]. split; [exact Hk|]. right. right. now exists t.
      * intros [_ [H|[H|[t [Ht Ho]]]]].
        -- apply includes_occursIn in H. congruence.
        -- apply includes_occursIn in H. congruence.
        -- exists t. split; [exact Ht|]. split; [|exact Ho].
           now apply (proj1 (tokensOf_spec name)).
  - split; [discriminate|]. intros [H _]. apply nonEmpty_iff in H. congruence.
Qed.

(** C4, as the code has it.  On the detail page [findLocalImages] returns,
    in the order of the candidates, the urls of exactly the candidates whose
    key is not empty and for which the key contains the key of the name, or
    the key of the name contains the key, or some token of the lower-cased
    name occurs in the lower-cased file name or in the lower-cased path.  On
    the destinations list page it returns the urls of exactly the candidates
    whose key contains the key of the name.  Both are total: no match is an
    empty list.  The tokens are not empty, are made of characters of
    [a-z0-9], occur in the lower-cased name, and together make up its
    characters of [a-z0-9]. *)
Theorem findLocalImages_matches {E : Engine} (entries : list Entry)
        (name : jsstring) :
  (exists keep : Entry -> bool,
      Detail.findLocalImages entries name = map url (filter keep entries)
      /\ forall e,
        keep e = true <->
        key e <> []
        /\ (occursIn (normalizeForKey name) (key e)
            \/ occursIn (key e) (normalizeForKey name)
            \/ exists t, In t (Detail.tokensOf name)
                         /\ (occursIn t (toLowerCase (filename e))
                             \/ occursIn t (toLowerCase (path e)))))
  /\ (exists keep : Entry -> bool,
         Destinations.findLocalImages entries name
         = map url (filter keep entries)
         /\ forall e, keep e = true <-> occursIn (normalizeForKey name) (key e))
  /\ ((forall t, In t (Detail.tokensOf name) ->
                 t <> [] /\ forallb isLowerAlnum t = true
                 /\ occursIn t (toLowerCase name))
      /\ concat (Detail.tokensOf name) = stripNonAlnum (toLowerCase name)).
Proof.
  split; [|split].
  - exists (Detail.matchesEntry (normalizeForKey name) (Detail.tokensOf name)).
    split; [reflexivity|]. intros e. apply matchesEntry_spec.
  - exists (fun e => includes (key e) (normalizeForKey name)).
    split; [reflexivity|]. intros e. apply includes_occursIn.
  - apply tokensOf_spec.
Qed.

(** C4 as stated fails.  On the destinations list page the file
    [loversleap.jpg] is not returned for ["Lovers' Leap Waterfall"],
    although the key of the name contains its key.  On the detail page a
    file whose key is empty is not returned, although the token ["lovers"]
    occurs in its path. *)
Lemma findLocalImages_misses :
  let name := lit "Lovers' Leap Waterfall" in
  let short :=
    mkEntry (E := basicEngine)
            (lit "/src/pictures/loversleap.jpg", lit "/assets/loversleap.jpg") in
  let dashes :=
    mkEntry (E := basicEngine)
            (lit "/src/pictures/lovers/---.jpg", lit "/assets/dashes.jpg") in
  (includes (normalizeForKey (E := basicEngine) name) (key short) = true
   /\ Destinations.findLocalImages (E := basicEngine) [short] name = [])
  /\ (key dashes = []
      /\ existsb (eqb (lit "lovers")) (Detail.tokensOf (E := basicEngine) name)
         = true
      /\ includes (toLowerCase (path dashes)) (lit "lovers") = true
      /\ Detail.findLocalImages (E := basicEngine) [dashes] name = []).
Proof. repeat split; vm_compute; reflexivity. Qed.

(** C10.  On the detail page, for a name whose key is empty,
    [findLocalImages] returns every candidate whose key is not empty; and
    for every name the candidates whose key is empty are left out. *)
Theorem empty_key_matches_all {E : Engine} (entries : list Entry) :
  (forall name,
      normalizeForKey name = [] ->
      Detail.findLocalEntries entries name
      = filter (fun e => nonEmpty (key e)) entries
      /\ Detail.findLocalImages entries name
         = map url (filter (fun e => nonEmpty (key e)) entries))
  /\ (forall name,
         forallb (fun e => nonEmpty (key e))
                 (Detail.findLocalEntries entries name) = true
         /\ Detail.findLocalImages entries name
            = map url (Detail.findLocalEntries entries name)).
Proof.
  split.
  - intros name Hk.
    assert (H : Detail.findLocalEntries entries name
                = filter (fun e => nonEmpty (key e)) entries).
    { unfold Detail.findLocalEntries. apply filter_ext. intros e.
      unfold Detail.matchesEntry. rewrite Hk.
      destruct (nonEmpty (key e)); simpl; [|reflexivity].
      now rewrite includes_nil. }
    split; [exact H|]. unfold Detail.findLocalImages. now rewrite H.
  - intros name. split; [|reflexivity].
    apply forallb_forall. intros e He.
    apply filter_In in He as [_ He]. unfold Detail.matchesEntry in He.
    now destruct (nonEmpty (key e)).
Qed.

(** The name ["?! -"] has the empty key; of the two files, the one whose
    name is made of dashes has the empty key too. *)
Lemma empty_key_matches_all_witness :
  let sigiriya :=
    mkEntry (E := basicEngine)
            (lit "/src/pictures/sigiriya.jpg", lit "/assets/sigiriya.jpg") in
  let dashes :=
    mkEntry (E := basicEngine)
            (lit "/src/pictures/---.jpg", lit "/assets/dashes.jpg") in
  normalizeForKey (E := basicEngine) (lit "?! -") = []
  /\ Detail.findLocalImages (E := basicEngine) [sigiriya; dashes] (lit "?! -")
     = map url (filter (fun e => nonEmpty (key e)) [sigiriya; dashes])
  /\ map url (filter (fun e => nonEmpty (key e)) [sigiriya; dashes])
     = [lit "/assets/sigiriya.jpg"].
Proof.
  intros sigiriya dashes.
  assert (Hk : normalizeForKey (E := basicEngine) (lit "?! -") = [])
    by reflexivity.
  split; [exact Hk|]. split; [|reflexivity].
  exact (proj2 (proj1 (@empty_key_matches_all basicEngine [sigiriya; dashes])
                      (lit "?! -") Hk)).
Defined.

(** C9.  [localImageEntries] is the stable sort of the candidates on the
    root they come from: the candidates under [src/pictures], in the order
    of their enumeration, followed by the other candidates, in the order of
    their enumeration.  For the name ["Lovers' Leap Waterfall"], with
    [loversleap.jpg] under [src/pictures] and [lovers-leap-old.jpg] under
    [src/assets/destinations], [findLocalImages] returns both, the one
    under [src/pictures] first, whichever was enumerated first. *)
Theorem pictures_come_first {E : Engine} :
  (forall files,
      localImageEntries files
      = filter isPicture (map mkEntry files)
        ++ filter (fun e => negb (isPicture e)) (map mkEntry files))
  /\ (forall primary fallback : jsstring,
         let new := (lit "/src/pictures/loversleap.jpg", primary) in
         let old :=
           (lit "/src/assets/destinations/lovers-leap-old.jpg", fallback) in
         Detail.findLocalImages (localImageEntries [new; old])
                                (lit "Lovers' Leap Waterfall")
         = [primary; fallback]
         /\ Detail.findLocalImages (localImageEntries [old; new])
                                   (lit "Lovers' Leap Waterfall")
            = [primary; fallback]).
Proof.
  split.
  - intros files. unfold localImageEntries.
    change comparePictures with (JsArray.compareFlag isPicture).
    apply JsArray.sort_flag.
  - intros primary fallback new old. subst new old.
    split;
      (rewrite BasicLatin.localImageEntries_plain by reflexivity;
       rewrite BasicLatin.detail_findLocalImages_plain by reflexivity;
       vm_compute; reflexivity).
Qed.

(** ** Manual overrides *)

(** On the destinations list page an override that is found is the image of
    the card, when the database has no image for the destination. *)
Lemma cardImage_override {E : Engine} (entries : list Entry)
      (d : Destination) (m : jsstring) :
  destination_images d = None \/ destination_images d = Some [] ->
  Destinations.findManualOverride entries (orEmpty (name d)) = Some m ->
  m <> [] ->
  Destinations.cardImage entries d = Returns (Some m).
Proof.
  intros Himg Hm Hne. unfold Destinations.cardImage. rewrite Hm.
  assert (Hdb : match destination_images d with Some l => l | None => [] end
                = []) by (destruct Himg as [-> | ->]; reflexivity).
  rewrite Hdb. simpl. apply nonEmpty_iff in Hne.
  assert (Hor : Destinations.orElse
                  (Destinations.orElse (Destinations.orElse None None) (Some m))
                  (hd_error (Destinations.findLocalImages
                               entries (orEmpty (name d))))
                = Some m).
  { unfold Destinations.orElse. simpl. now rewrite Hne. }
  rewrite Hor. simpl. now rewrite Hne.
Qed.

Lemma orElse_truthy (u : jsstring) (b : option jsstring) :
  u <> [] -> Detail.orElse (Some u) b = Some u.
Proof.
  intros H. apply nonEmpty_iff in H. unfold Detail.orElse. simpl.
  now rewrite H.
Qed.

(** On the detail page the first local match, when there is one, is the
    primary image: the override is not looked at. *)
Lemma primaryImageUrl_local {E : Engine} (entries : list Entry)
      (d : Destination) (images : list DestinationImage)
      (u : jsstring) (rest : list jsstring) :
  destination_images d = Some images ->
  JsArray.find is_primary images = None ->
  Detail.findLocalImages entries (orEmpty (name d)) = u :: rest ->
  u <> [] ->
  Detail.primaryImageUrl entries d = Returns (Some u).
Proof.
  intros Himg Hp Hl Hne. unfold Detail.primaryImageUrl.
  rewrite Himg, Hp, Hl. cbn [hd_error].
  now rewrite !(orElse_truthy _ Hne).
Qed.

(** C3, on an input where the code departs from it.  With the files
    [a-temple.jpg], [aluvihare.jpg] and [aluvihare-temple-2.jpg] under
    [src/pictures], the override for ["Aluvihare Temple"] is
    [aluvihare.jpg] on both pages.  On the destinations list page the
    substring match gives [aluvihare-temple-2.jpg] and the card shows the
    override.  On the detail page the substring match gives [a-temple.jpg]
    first, and the page shows [a-temple.jpg]: the override is not used. *)
Theorem detail_page_ignores_override {E : Engine} :
  let entries :=
    localImageEntries [Examples.templeFile; Examples.aluvihareFile;
                       Examples.aluvihareTempleFile] in
  let name := lit "Aluvihare Temple" in
  (Destinations.findManualOverride entries name
   = Some (lit "/assets/aluvihare.jpg")
   /\ Destinations.findLocalImages entries name
      = [lit "/assets/aluvihare-temple-2.jpg"]
   /\ Destinations.cardImage entries Examples.aluvihare
      = Returns (Some (lit "/assets/aluvihare.jpg")))
  /\ (Detail.findManualOverride entries name
      = Some (lit "/assets/aluvihare.jpg")
      /\ Detail.findLocalImages entries name
         = [lit "/assets/a-temple.jpg"; lit "/assets/aluvihare.jpg";
            lit "/assets/aluvihare-temple-2.jpg"]
      /\ Detail.primaryImageUrl entries Examples.aluvihare
         = Returns (Some (lit "/assets/a-temple.jpg"))).
Proof.
  intros entries name. subst entries name.
  rewrite BasicLatin.localImageEntries_plain by reflexivity.
  rewrite BasicLatin.detail_findManualOverride_plain,
    BasicLatin.list_findManualOverride_plain,
    BasicLatin.detail_findLocalImages_plain,
    BasicLatin.list_findLocalImages_plain,
    BasicLatin.primaryImageUrl_plain,
    BasicLatin.cardImage_plain by reflexivity.
  repeat split; vm_compute; reflexivity.
Qed.

(* ================================================================== *)
(** * Fallback texts *)
(* ================================================================== *)

Import Text.

Lemma generated_has_name (name : jsstring) (provinceName : option jsstring) :
  occursIn name (Destinations.generated name provinceName).
Proof.
  unfold Destinations.generated. exists (lit "Explore "). eexists.
  reflexivity.
Qed.

Lemma generated_has_province (name p : jsstring) :
  p <> [] -> occursIn p (Destinations.generated name (Some p)).
Proof.
  intros H. apply nonEmpty_iff in H. unfold Destinations.generated. simpl.
  rewrite H. exists (lit "Explore " ++ name ++ lit " in "), Destinations.closing.
  now rewrite <- !app_assoc.
Qed.

(** C5, as the code has it.  On the destinations list page, for a name that
    has no text override and matches no pattern of [fallbackSnippets], and a
    province name that is unknown or matches no pattern either, [getSnippet]
    returns the sentence ["Explore <name>[ in <province>]. Discover
    highlights, local culture, and visitor tips for this destination."],
    which is not empty and contains the name and, when it is known, the
    province name.  The card of a destination without a description calls
    [getSnippet] without the province, so its sentence has the name only.
    On the detail page, for a name that has no text override and matches no
    pattern of [fallbackDescriptions], [getFallback] returns [null], and so
    does [displayDescription] for a destination without a description. *)
Theorem generated_snippet {E : Engine} (name : jsstring)
        (provinceName : option jsstring) :
  (override Destinations.manualTextOverrides (normalizeForKey name) = None ->
   findPattern Destinations.fallbackSnippets name = None ->
   (truthyStr provinceName = true ->
    findPattern Destinations.fallbackSnippets (orEmpty provinceName) = None) ->
   Destinations.getSnippet name provinceName
   = Text (Destinations.generated name provinceName)
   /\ Destinations.generated name provinceName <> []
   /\ occursIn name (Destinations.generated name provinceName)
   /\ (forall p, provinceName = Some p -> p <> [] ->
                 occursIn p (Destinations.generated name provinceName))
   /\ (forall d, truthyStr (description d) = false ->
                 orEmpty (Resolver.name d) = name ->
                 Destinations.cardSnippet d
                 = Text (lit "Explore " ++ name ++ Destinations.closing)))
  /\ (override Detail.manualTextOverrides (normalizeForKey name) = None ->
      findPattern Detail.fallbackDescriptions name = None ->
      Detail.getFallback name = Null
      /\ forall d, truthyStr (description d) = false ->
                   orEmpty (Resolver.name d) = name ->
                   Detail.displayDescription d = Null).
Proof.
  split.
  - intros Ho Hn Hp. split; [|split; [|split; [|split]]].
    + unfold Destinations.getSnippet. rewrite Ho, Hn.
      destruct (truthyStr provinceName); [now rewrite Hp | reflexivity].
    + unfold Destinations.generated. discriminate.
    + apply generated_has_name.
    + intros p -> Hne. now apply generated_has_province.
    + intros d Hd <-. unfold Destinations.cardSnippet, Destinations.getSnippet.
      rewrite Hd, Ho, Hn. reflexivity.
  - intros Ho Hn. unfold Detail.displayDescription, Detail.getFallback.
    rewrite Ho, Hn. split; [reflexivity|]. intros d Hd <-.
    unfold Detail.displayDescription, Detail.getFallback.
    now rewrite Hd, Ho, Hn.
Qed.

(** Scenario D of the specification, on the destinations list page. *)
Lemma generated_snippet_witness :
  let name := lit "Totally Unknown Place" in
  let province := Some (lit "Test Province") in
  (override Destinations.manualTextOverrides
            (normalizeForKey (E := basicEngine) name) = None
   /\ findPattern Destinations.fallbackSnippets name = None
   /\ findPattern Destinations.fallbackSnippets (orEmpty province) = None)
  /\ Destinations.getSnippet (E := basicEngine) name province
     = Text (lit "Explore Totally Unknown Place in Test Province. Discover highlights, local culture, and visitor tips for this destination.")
  /\ occursIn name (Destinations.generated name province)
  /\ occursIn (lit "Test Province") (Destinations.generated name province)
  /\ Destinations.cardSnippet (E := basicEngine) Examples.unknownPlace
     = Text (lit "Explore Totally Unknown Place. Discover highlights, local culture, and visitor tips for this destination.").
Proof.
  intros name province.
  assert (Ho : override Destinations.manualTextOverrides
                        (normalizeForKey (E := basicEngine) name) = None)
    by (vm_compute; reflexivity).
  assert (Hn : findPattern Destinations.fallbackSnippets name = None)
    by (vm_compute; reflexivity).
  assert (Hp : findPattern Destinations.fallbackSnippets (orEmpty province)
               = None) by (vm_compute; reflexivity).
  destruct (proj1 (@generated_snippet basicEngine name province)
                  Ho Hn (fun _ => Hp)) as (H1 & _ & H3 & H4 & H5).
  split; [now repeat split|].
  split; [rewrite H1; vm_compute; reflexivity|].
  split; [exact H3|].
  split.
  - apply (H4 (lit "Test Province")); [reflexivity | discriminate].
  - rewrite (H5 Examples.unknownPlace) by reflexivity.
    vm_compute. reflexivity.
Defined.

(** C5 as stated fails on the detail page: for the name ["Totally Unknown
    Place"], which has no text override and matches no pattern, the
    description is [null]. *)
Lemma getFallback_gives_null :
  let name := lit "Totally Unknown Place" in
  override Detail.manualTextOverrides (normalizeForKey (E := basicEngine) name)
  = None
  /\ findPattern Detail.fallbackDescriptions name = None
  /\ Detail.getFallback (E := basicEngine) name = Null
  /\ Detail.displayDescription (E := basicEngine) Examples.unknownPlace = Null.
Proof. repeat split; vm_compute; reflexivity. Qed.

(* ================================================================== *)
(** * The duplicate resolver: groups, counts and order *)
(* ================================================================== *)

Module Partition.

Lemma concat_perm A (l l' : list (list A)) :
  Permutation l l' -> Permutation (concat l) (concat l').
Proof.
  induction 1; simpl.
  - reflexivity.
  - now apply Permutation_app_head.
  - rewrite !app_assoc. apply Permutation_app_tail, Permutation_app_comm.
  - etransitivity; eassumption.
Qed.

Lemma filter_split A (p : A -> bool) (l : list A) :
  Permutation (filter p l ++ filter (fun x => negb (p x)) l) l.
Proof.
  induction l as [|x l IH]; simpl; [reflexivity|].
  destruct (p x); simpl.
  - now constructor.
  - symmetry. apply Permutation_cons_app. now symmetry.
Qed.

(** [Object.values] lists every group once. *)
Lemma objectValues_perm (g : groups) :
  Permutation (objectValues g) (map snd g).
Proof.
  unfold objectValues. apply Permutation_map.
  etransitivity; [|apply (filter_split (fun e => isArrayIndex (fst e)))].
  apply Permutation_app_tail, JsArray.sort_perm.
Qed.

Section WithEngine.
Context {E : Engine}.

Lemma pushOwn_concat (g : groups) (d : Destination) (grp : list Destination) :
  Resolver.getOwn g (keyOf d) = Some grp ->
  Permutation (concat (map snd (pushOwn g (keyOf d) d)))
              (d :: concat (map snd g)).
Proof.
  induction g as [|[k l] g IH]; simpl; [discriminate|].
  destruct (eqb k (keyOf d)); simpl.
  - intros _. rewrite <- app_assoc. simpl. symmetry.
    apply Permutation_middle.
  - intros H. rewrite (IH H). symmetry. apply Permutation_middle.
Qed.

Lemma addTo_concat (g g' : groups) (d : Destination) :
  addTo g d = Returns g' ->
  Permutation (concat (map snd g')) (d :: concat (map snd g)).
Proof.
  unfold addTo. destruct (Resolver.getOwn g (keyOf d)) as [grp|] eqn:Hget.
  - intros [= <-]. now apply pushOwn_concat with (grp := grp).
  - destruct (inherited (keyOf d)); [discriminate|]. intros [= <-].
    rewrite map_app, concat_app. simpl.
    symmetry. apply Permutation_cons_append.
Qed.

Lemma groupFrom_concat (items : list Destination) :
  forall g g', groupFrom g items = Returns g' ->
               Permutation (concat (map snd g')) (concat (map snd g) ++ items).
Proof.
  induction items as [|d items IH]; simpl; intros g g'.
  - intros [= <-]. now rewrite app_nil_r.
  - destruct (addTo g d) as [g1|] eqn:Hadd; simpl; [|discriminate].
    intros H. rewrite (IH _ _ H), (addTo_concat _ _ Hadd). simpl.
    apply Permutation_middle.
Qed.

(** Taken together, the groups are the rows. *)
Lemma values_perm (items : list Destination) (g : groups) :
  groupAll items = Returns g -> Permutation (concat (objectValues g)) items.
Proof.
  intros Hg. rewrite (concat_perm (objectValues_perm g)).
  apply (groupFrom_concat items [] Hg).
Qed.

End WithEngine.
End Partition.

(** X1.  When the grouping loop ends, the groups it hands to the resolver
    are a partition of the rows: taken together they are the rows, each
    once; every group is the whole duplicate group of a key, in the order
    of the input, and is not empty; no two groups have the same key; and
    the only group a row is in is the group of its key. *)
Theorem groups_partition {E : Engine} (items : list Destination) (g : groups) :
  groupAll items = Returns g ->
  Permutation (concat (objectValues g)) items
  /\ NoDup (map fst g)
  /\ (forall grp, In grp (objectValues g) ->
                  grp <> [] /\ exists k, In (k, grp) g /\ grp = groupOf items k)
  /\ (forall d grp, In d items -> In grp (objectValues g) -> In d grp ->
                    grp = groupOf items (keyOf d)).
Proof.
  intros Hg. pose proof (groupAll_represents _ Hg) as (ND & Hrep & _).
  split; [|split; [exact ND|split]].
  - now apply Partition.values_perm.
  - intros grp Hin. apply objectValues_In in Hin as [k Hin].
    destruct (Hrep _ _ Hin) as [-> Hne]. split; [exact Hne|]. now exists k.
  - intros d grp _ Hin Hd. apply objectValues_In in Hin as [k Hin].
    destruct (Hrep _ _ Hin) as [-> _]. now apply groupOf_key in Hd as [_ <-].
Qed.

(** The rows [Temple A], [Kandy], [temple a], ["42"] make three groups;
    the group of the key ["42"] comes first. *)
Lemma groups_partition_witness :
  let items := [Examples.templeZ9; Examples.bare "k1" "Kandy";
                Examples.templeA1; Examples.bare "n1" "42"] in
  exists g,
    groupAll (E := basicEngine) items = Returns g
    /\ objectValues g
       = [[Examples.bare "n1" "42"]; [Examples.templeZ9; Examples.templeA1];
          [Examples.bare "k1" "Kandy"]]
    /\ Permutation (concat (objectValues g)) items.
Proof.
  intros items.
  assert (Hg : groupAll (E := basicEngine) items
               = Returns [(lit "templea", [Examples.templeZ9; Examples.templeA1]);
                          (lit "kandy", [Examples.bare "k1" "Kandy"]);
                          (lit "42", [Examples.bare "n1" "42"])])
    by reflexivity.
  eexists. split; [exact Hg|]. split; [reflexivity|].
  exact (proj1 (@groups_partition basicEngine items _ Hg)).
Defined.

Module Counting.
Section WithEngine.
Context {E : Engine}.

Lemma toDelete_app (p q : list Duplicate) :
  toDelete (p ++ q) = toDelete p ++ toDelete q.
Proof. unfold toDelete. apply flat_map_app. Qed.

Lemma duplicateOf_length (grp : list Destination) :
  grp <> [] -> (length (toDelete (duplicateOf grp)) + 1 = length grp)%nat.
Proof.
  intros Hne. unfold duplicateOf.
  destruct (Nat.leb_spec (length grp) 1) as [Hl|Hl].
  - destruct grp as [|x [|y grp]]; simpl in *; [contradiction | reflexivity | lia].
  - pose proof (JsArray.sort_length compare_script (scoreAll grp)) as Hs.
    unfold scoreAll in Hs at 2. rewrite length_map in Hs.
    destruct (JsArray.sort compare_script (scoreAll grp)) as [|h r];
      simpl in *; [lia|].
    rewrite app_nil_r, !length_map. lia.
Qed.

Lemma removedOf_length (grp : list Destination) :
  grp <> [] -> (length (map id (removedOf grp)) + 1 = length grp)%nat.
Proof.
  intros Hne. unfold removedOf.
  destruct (Nat.leb_spec (length grp) 1) as [Hl|Hl].
  - destruct grp as [|x [|y grp]]; simpl in *; [contradiction | reflexivity | lia].
  - pose proof (JsArray.sort_length compare_id (scoreAll grp)) as Hs.
    unfold scoreAll in Hs at 2. rewrite length_map in Hs.
    destruct (JsArray.sort compare_id (scoreAll grp)) as [|h r];
      simpl in *; [lia|].
    rewrite !length_map. lia.
Qed.

(** A group that is not empty gives the list page one row, a row of the
    group. *)
Lemma chosenOf_one (grp : list Destination) :
  grp <> [] -> exists c, chosenOf grp = [c] /\ In c grp.
Proof.
  intros Hne. destruct grp as [|x [|y grp]]; [contradiction | |].
  - exists x. split; [reflexivity | now left].
  - destruct (chosenOf (x :: y :: grp)) as [|c [|c' r]] eqn:Hc.
    + exfalso. unfold chosenOf in Hc.
      pose proof (JsArray.sort_length compare_id
                    (scoreAll_list (x :: y :: grp))) as Hs.
      destruct (JsArray.sort compare_id (scoreAll_list (x :: y :: grp)));
        simpl in *; [lia | discriminate].
    + exists c. split; [reflexivity|]. apply chosenOf_In. rewrite Hc. now left.
    + exfalso. unfold chosenOf in Hc.
      destruct (JsArray.sort compare_id (scoreAll_list (x :: y :: grp)));
        discriminate.
Qed.

Lemma sum_over_groups (f : list Destination -> list (option jsstring))
      (vals : list (list Destination)) :
  (forall grp, grp <> [] -> (length (f grp) + 1 = length grp)%nat) ->
  Forall (fun grp => grp <> []) vals ->
  (length (flat_map f vals) + length vals = length (concat vals))%nat.
Proof.
  intros Hf Hv. induction Hv as [|grp vals Hne _ IH]; simpl; [reflexivity|].
  rewrite !length_app. specialize (Hf grp Hne). lia.
Qed.

Lemma chosen_over_groups (vals : list (list Destination)) :
  Forall (fun grp => grp <> []) vals ->
  length (flat_map chosenOf vals) = length vals.
Proof.
  intros Hv. induction Hv as [|grp vals Hne _ IH]; simpl; [reflexivity|].
  destruct (chosenOf_one Hne) as [c [Hc _]]. rewrite Hc. simpl. now rewrite IH.
Qed.

Lemma toDelete_flat_map (vals : list (list Destination)) :
  toDelete (flat_map duplicateOf vals)
  = flat_map (fun grp => toDelete (duplicateOf grp)) vals.
Proof.
  induction vals as [|grp vals IH]; simpl; [reflexivity|].
  now rewrite toDelete_app, IH.
Qed.

End WithEngine.
End Counting.

(** X2.  The three resolvers agree on how many rows go: the ids the script
    deletes and the ids the admin page deletes are as many, and together
    with the rows the list page shows they are as many as the rows of the
    input. *)
Theorem resolvers_count_alike {E : Engine} (items : list Destination)
        (plan : list Duplicate) (ids : list (option jsstring))
        (shown : list Destination) :
  duplicates items = Returns plan ->
  idsToDelete items = Returns ids ->
  dedupeDestinations items = Returns shown ->
  (length (toDelete plan) + length shown = length items)%nat
  /\ (length ids + length shown = length items)%nat
  /\ length ids = length (toDelete plan).
Proof.
  unfold duplicates, idsToDelete, dedupeDestinations.
  destruct (groupAll items) as [g|] eqn:Hg; simpl; [|discriminate].
  intros [= <-] [= <-] [= <-].
  pose proof (Partition.values_perm _ Hg) as Hperm.
  assert (Hne : Forall (fun grp => grp <> []) (objectValues g)).
  { apply Forall_forall. intros grp Hin.
    now destruct (@values_are_groups E items g grp Hg Hin). }
  apply Permutation_length in Hperm.
  rewrite JsArray.sort_length, (Counting.chosen_over_groups Hne).
  rewrite Counting.toDelete_flat_map.
  pose proof (Counting.sum_over_groups
                (fun grp => toDelete (duplicateOf grp))
                Counting.duplicateOf_length Hne) as H1.
  pose proof (Counting.sum_over_groups
                (fun grp => map id (removedOf grp))
                Counting.removedOf_length Hne) as H2.
  lia.
Qed.

Lemma resolvers_count_alike_witness :
  let items := [Examples.templeZ9; Examples.bare "k1" "Kandy";
                Examples.templeA1; Examples.shortA] in
  exists plan ids shown,
    (duplicates (E := basicEngine) items = Returns plan
     /\ idsToDelete (E := basicEngine) items = Returns ids
     /\ dedupeDestinations (E := basicEngine) items = Returns shown)
    /\ length ids = 2%nat /\ length shown = 2%nat
    /\ (length (toDelete plan) + length shown = length items)%nat.
Proof.
  intros items.
  destruct (@resolvers_return basicEngine items) as (plan & ids & shown & H1 & H2 & H3).
  - intros d Hd. repeat destruct Hd as [<-|Hd]; try reflexivity. destruct Hd.
  - exists plan, ids, shown. split; [now repeat split|].
    pose proof (@resolvers_count_alike basicEngine items plan ids shown H1 H2 H3)
      as (C1 & C2 & C3).
    assert (Hs : dedupeDestinations (E := basicEngine) items
                 = Returns [Examples.bare "k1" "Kandy"; Examples.shortA])
      by (vm_compute; reflexivity).
    rewrite Hs in H3. injection H3 as <-.
    split; [simpl in *; lia|]. split; [reflexivity | exact C1].
Defined.

Module Keeper.
Section WithEngine.
Context {E : Engine}.

Lemma compare_script_points (a b : Scored) :
  (compare_script a b <= 0)%Z -> (points b <= points a)%Z.
Proof.
  unfold compare_script. destruct (Z.eqb_spec (points b) (points a)); simpl; lia.
Qed.

Lemma compare_id_points (a b : Scored) :
  (compare_id a b <= 0)%Z -> (points b <= points a)%Z.
Proof.
  unfold compare_id. destruct (Z.eqb_spec (points b) (points a)); simpl; lia.
Qed.

Lemma sorted_by_score (cmp : Scored -> Scored -> Z) (l : list Scored) :
  (forall a b, (cmp a b <= 0)%Z -> (points b <= points a)%Z) ->
  StronglySorted (JsArray.le cmp) l ->
  StronglySorted (fun a b => (points b <= points a)%Z) l.
Proof.
  intros Hc Hs. induction Hs as [|x l _ IH Hx]; constructor; [exact IH|].
  eapply Forall_impl; [|exact Hx]. intros y. apply Hc.
Qed.

Lemma scoreAll_points (grp : list Destination) (s : Scored) :
  In s (scoreAll grp) -> points s = score (item s).
Proof. intros H. apply in_map_iff in H as [d [<- _]]. reflexivity. Qed.

Lemma scoreAll_list_points (grp : list Destination) (s : Scored) :
  In s (scoreAll_list grp) -> points s = score_list (item s).
Proof. intros H. apply in_map_iff in H as [d [<- _]]. reflexivity. Qed.

Lemma sorted_items (f : Destination -> Z) (l : list Scored) :
  (forall s, In s l -> points s = f (item s)) ->
  StronglySorted (fun a b => (points b <= points a)%Z) l ->
  StronglySorted (fun a b => (f b <= f a)%Z) (map item l).
Proof.
  intros Hp Hs. induction Hs as [|x l _ IH Hx]; simpl; constructor.
  - apply IH. intros s Hs'. apply Hp. now right.
  - apply Forall_forall. intros d Hd. apply in_map_iff in Hd as [s [<- Hs']].
    rewrite Forall_forall in Hx. specialize (Hx _ Hs').
    rewrite <- (Hp x), <- (Hp s); [exact Hx | now right | now left].
Qed.

(** One group of the script: the entry lists the rows of the group by
    falling score. *)
Lemma duplicateOf_sorted (grp : list Destination) (g : Duplicate) :
  In g (duplicateOf grp) ->
  StronglySorted (fun a b => (score b <= score a)%Z) (keep g :: remove g)
  /\ Permutation (keep g :: remove g) grp.
Proof.
  unfold duplicateOf. destruct (length grp <=? 1)%nat; [intros []|].
  pose proof (JsArray.sort_sorted (scoreAll grp) compare_script_consistent) as Hs.
  pose proof (JsArray.sort_perm compare_script (scoreAll grp)) as Hp.
  destruct (JsArray.sort compare_script (scoreAll grp)) as [|h r] eqn:Hsort;
    [intros []|].
  intros [<-|[]]. simpl. split.
  - change (item h :: map item r) with (map item (h :: r)).
    apply sorted_items.
    + intros s Hin. apply (scoreAll_points grp).
      apply (Permutation_in _ Hp). exact Hin.
    + apply sorted_by_score with (cmp := compare_script);
        [apply compare_script_points | exact Hs].
  - change (item h :: map item r) with (map item (h :: r)).
    rewrite (Permutation_map item Hp). unfold scoreAll. rewrite map_map. simpl.
    now rewrite map_id.
Qed.

(** One group of the list page: the row kept has the greatest score. *)
Lemma chosenOf_best (grp : list Destination) (c d : Destination) :
  In c (chosenOf grp) -> In d grp -> (score_list d <= score_list c)%Z.
Proof.
  unfold chosenOf. destruct grp as [|x [|y grp]].
  - intros [].
  - intros [<-|[]] [<-|[]]. lia.
  - destruct (JsArray.sort compare_id (scoreAll_list (x :: y :: grp)))
      as [|h r] eqn:Hs; [intros []|].
    intros [<-|[]] Hd.
    assert (Hh : In h (scoreAll_list (x :: y :: grp))).
    { apply (JsArray.sort_In compare_id). rewrite Hs. now left. }
    rewrite <- (scoreAll_list_points _ _ Hh).
    change (score_list d) with (points (scored_list d)).
    destruct (@JsArray.sort_head _ compare_id _ h r (scored_list d)
                compare_id_consistent Hs (scored_list_In _ _ Hd)) as [->|Hle].
    + lia.
    + now apply compare_id_points.
Qed.

End WithEngine.
End Keeper.

(** X3.  In every entry of the plan of the maintenance script the row kept
    and the rows removed are the rows of one duplicate group, listed by
    falling score: no row removed has a greater score than the row kept.
    On the destinations list page the row shown for a key has the greatest
    list-page score among the rows of that key. *)
Theorem kept_row_has_best_score {E : Engine} (items : list Destination) :
  (forall plan g,
      duplicates items = Returns plan -> In g plan ->
      StronglySorted (fun a b => (score b <= score a)%Z) (keep g :: remove g)
      /\ (forall r, In r (remove g) -> (score r <= score (keep g))%Z)
      /\ Permutation (keep g :: remove g) (groupOf items (keyOf (keep g))))
  /\ (forall shown s d,
         dedupeDestinations items = Returns shown -> In s shown ->
         In d items -> keyOf d = keyOf s ->
         (score_list d <= score_list s)%Z).
Proof.
  split.
  - intros plan g. unfold duplicates.
    destruct (groupAll items) as [gs|] eqn:Hg; simpl; [|discriminate].
    intros [= <-] Hin. apply in_flat_map in Hin as [grp [Hgrp Hin]].
    destruct (Keeper.duplicateOf_sorted _ _ Hin) as [Hs Hp].
    split; [exact Hs|]. split.
    + intros r Hr. inversion Hs as [|? ? _ F]; subst.
      rewrite Forall_forall in F. now apply F.
    + destruct (@values_are_groups E items gs grp Hg Hgrp) as [_ [k ->]].
      assert (Hk : In (keep g) (groupOf items k)).
      { apply (Permutation_in _ Hp). now left. }
      apply groupOf_key in Hk as [_ ->]. exact Hp.
  - intros shown s d. unfold dedupeDestinations.
    destruct (groupAll items) as [gs|] eqn:Hg; simpl; [|discriminate].
    intros [= <-] Hs Hd Hk. apply JsArray.sort_In in Hs.
    apply in_flat_map in Hs as [grp [Hgrp Hs]].
    apply (Keeper.chosenOf_best grp); [exact Hs|].
    destruct (@values_are_groups E items gs grp Hg Hgrp) as [_ [k ->]].
    pose proof (@chosenOf_In E _ _ Hs) as Hs'. apply groupOf_key in Hs' as [_ <-].
    rewrite <- Hk. apply filter_In. split; [exact Hd | apply eqb_refl].
Qed.

(** Scenario A of the specification: the row with a description and an
    image is kept, whatever its id. *)
Lemma kept_row_has_best_score_witness :
  let rich :=
    {| id := Some (lit "b"); name := Some (lit "Sigiriya Rock");
       description := Some (lit "x"); province_id := None;
       image_url := Some (lit "y"); location_lat := None;
       location_lng := None; destination_images := None;
       province_name := None |} in
  let poor := Examples.bare "a" "sigiriya rock!!" in
  let g := {| keep := rich; remove := [poor] |} in
  duplicates (E := basicEngine) [rich; poor] = Returns [g]
  /\ (score rich = 4%Z /\ score poor = 0%Z)
  /\ StronglySorted (fun a b => (score b <= score a)%Z) (keep g :: remove g).
Proof.
  intros rich poor g.
  assert (H : duplicates (E := basicEngine) [rich; poor] = Returns [g])
    by reflexivity.
  split; [exact H|]. split; [split; reflexivity|].
  exact (proj1 (proj1 (@kept_row_has_best_score basicEngine [rich; poor])
                      [g] g H (or_introl eq_refl))).
Defined.

Module OnePerKey.

Lemma sorted_weaken A (R R' : A -> A -> Prop) (l : list A) :
  (forall a b, R a b -> R' a b) -> StronglySorted R l -> StronglySorted R' l.
Proof.
  intros H Hs. induction Hs as [|x l _ IH Hx]; constructor; [exact IH|].
  eapply Forall_impl; [|exact Hx]. intros y. apply H.
Qed.

Section WithEngine.
Context {E : Engine}.

(** The keys of the rows chosen for the groups are the keys of the groups,
    in the same order. *)
Lemma chosen_keys (items : list Destination) (g : groups) :
  (forall k grp, In (k, grp) g -> grp = groupOf items k /\ grp <> []) ->
  map keyOf (flat_map chosenOf (map snd g)) = map fst g.
Proof.
  induction g as [|[k grp] g IH]; simpl; intros H; [reflexivity|].
  destruct (H k grp (or_introl eq_refl)) as [Hgrp Hne].
  destruct (Counting.chosenOf_one Hne) as [c [Hc Hin]].
  rewrite Hc. simpl. rewrite IH by (intros; apply H; now right).
  f_equal. rewrite Hgrp in Hin. now apply groupOf_key in Hin.
Qed.

(** The rows shown are rows of the input. *)
Lemma shown_In (items shown : list Destination) :
  dedupeDestinations items = Returns shown ->
  forall s, In s shown -> In s items.
Proof.
  unfold dedupeDestinations.
  destruct (groupAll items) as [g|] eqn:Hg; simpl; [|discriminate].
  intros [= <-] s Hs. apply JsArray.sort_In in Hs.
  apply in_flat_map in Hs as [grp [Hgrp Hs]].
  destruct (@values_are_groups E items g grp Hg Hgrp) as [_ [k ->]].
  apply (@chosenOf_In E) in Hs. now apply groupOf_key in Hs.
Qed.

(** No two of them have the same key. *)
Lemma shown_keys (items shown : list Destination) :
  dedupeDestinations items = Returns shown -> NoDup (map keyOf shown).
Proof.
  unfold dedupeDestinations.
  destruct (groupAll items) as [g|] eqn:Hg; simpl; [|discriminate].
  intros [= <-].
  pose proof (groupAll_represents _ Hg) as (ND & Hrep & _).
  assert (Hp : Permutation
                 (JsArray.sort (compare_position items)
                               (flat_map chosenOf (objectValues g)))
                 (flat_map chosenOf (map snd g))).
  { rewrite JsArray.sort_perm. apply Permutation_flat_map.
    apply Partition.objectValues_perm. }
  apply (Permutation_map keyOf) in Hp. symmetry in Hp.
  apply (Permutation_NoDup Hp). now rewrite (chosen_keys items g Hrep).
Qed.

(** Every key of the input has its row. *)
Lemma shown_covers (items shown : list Destination) :
  dedupeDestinations items = Returns shown ->
  forall d, In d items -> exists s, In s shown /\ keyOf s = keyOf d.
Proof.
  unfold dedupeDestinations.
  destruct (groupAll items) as [g|] eqn:Hg; simpl; [|discriminate].
  intros [= <-] d Hd.
  pose proof (@group_of_row E items g d Hg Hd) as Hgrp.
  assert (Hne : groupOf items (keyOf d) <> []).
  { intros H. assert (Hin : In d (groupOf items (keyOf d))).
    { apply filter_In. split; [exact Hd | apply eqb_refl]. }
    rewrite H in Hin. destruct Hin. }
  destruct (Counting.chosenOf_one Hne) as [c [Hc Hin]].
  exists c. split.
  - apply JsArray.sort_In. apply in_flat_map.
    exists (groupOf items (keyOf d)). split; [exact Hgrp|]. rewrite Hc. now left.
  - now apply groupOf_key in Hin.
Qed.

End WithEngine.
End OnePerKey.

(** X4.  The rows the destinations list page shows are rows of the input,
    one for every key of the input and no two with the same key, in the
    order of their positions in the input. *)
Theorem dedupe_one_row_per_key {E : Engine} (items shown : list Destination) :
  dedupeDestinations items = Returns shown ->
  (forall s, In s shown -> In s items)
  /\ NoDup (map keyOf shown)
  /\ (forall d, In d items -> exists s, In s shown /\ keyOf s = keyOf d)
  /\ StronglySorted (fun a b => (indexOf items a <= indexOf items b)%Z) shown.
Proof.
  intros Hs. split; [|split; [|split]].
  - now apply (OnePerKey.shown_In items).
  - now apply (OnePerKey.shown_keys items).
  - now apply (OnePerKey.shown_covers items).
  - revert Hs. unfold dedupeDestinations.
    destruct (groupAll items) as [g|] eqn:Hg; simpl; [|discriminate].
    intros [= <-].
    pose proof (JsArray.sort_sorted (flat_map chosenOf (objectValues g))
                  (compare_position_consistent items)) as Hs.
    apply (OnePerKey.sorted_weaken (R := JsArray.le (compare_position items)));
      [|exact Hs].
    intros a b. unfold JsArray.le, compare_position. lia.
Qed.

(** Of the rows [Temple A (z9)], [Kandy], [temple a (a1)], the list page
    shows [Kandy] and [temple a (a1)], by position. *)
Lemma dedupe_one_row_per_key_witness :
  let items := [Examples.templeZ9; Examples.bare "k1" "Kandy";
                Examples.templeA1] in
  let shown := [Examples.bare "k1" "Kandy"; Examples.templeA1] in
  dedupeDestinations (E := basicEngine) items = Returns shown
  /\ NoDup (map (keyOf (E := basicEngine)) shown)
  /\ StronglySorted (fun a b => (indexOf items a <= indexOf items b)%Z) shown.
Proof.
  intros items shown.
  assert (H : dedupeDestinations (E := basicEngine) items = Returns shown)
    by reflexivity.
  destruct (@dedupe_one_row_per_key basicEngine items shown H)
    as (_ & H2 & _ & H4).
  now repeat split.
Defined.

Module DuplicateFree.

Lemma flat_map_nil A B (f : A -> list B) (l : list A) :
  flat_map f l = [] <-> forall x, In x l -> f x = [].
Proof.
  induction l as [|x l IH]; simpl.
  - split; [intros _ x [] | reflexivity].
  - split.
    + intros H. apply app_eq_nil in H as [H1 H2]. intros y [<-|Hy]; [exact H1|].
      now apply IH.
    + intros H. rewrite (H x (or_introl eq_refl)). simpl. apply IH.
      intros y Hy. apply H. now right.
Qed.

(** Two lists with the same elements, one in the order of the comparator
    and one in its strict order, are the same list. *)
Lemma sorted_perm_eq A (cmp : A -> A -> Z) (l0 : list A) :
  (forall a b, (cmp a b < 0)%Z -> (0 < cmp b a)%Z) ->
  StronglySorted (fun a b => (cmp a b < 0)%Z) l0 ->
  forall s, StronglySorted (JsArray.le cmp) s -> Permutation s l0 -> s = l0.
Proof.
  intros Hskew H0. induction H0 as [|x l0 H0 IH Hx]; intros s Hs Hp.
  - apply Permutation_sym in Hp. now apply Permutation_nil in Hp.
  - destruct s as [|y s]; [now apply Permutation_nil in Hp|].
    inversion Hs as [|? ? Hs' Hy]; subst.
    assert (Hxy : y = x).
    { assert (Hin1 : In x (y :: s)) by (apply (Permutation_in _ (Permutation_sym Hp)); now left).
      assert (Hin2 : In y (x :: l0)) by (apply (Permutation_in _ Hp); now left).
      destruct Hin1 as [H|Hin1]; [exact H|].
      destruct Hin2 as [H|Hin2]; [now symmetry|].
      rewrite Forall_forall in Hx, Hy. specialize (Hx _ Hin2).
      specialize (Hy _ Hin1). apply Hskew in Hx. unfold JsArray.le in Hy. lia. }
    subst y. f_equal. apply IH; [exact Hs'|].
    now apply Permutation_cons_inv with (a := x).
Qed.

Lemma sameId_eq (a b : option jsstring) : sameId a b = true <-> a = b.
Proof.
  destruct a as [x|], b as [y|]; simpl; try (split; congruence).
  rewrite eqb_eq. split; congruence.
Qed.

Lemma mapGet_absent (i : option jsstring) (l : list Destination) :
  ~ In i (map id l) ->
  forall idx found, mapGet i l idx found = found.
Proof.
  induction l as [|d l IH]; simpl; intros H idx found; [reflexivity|].
  destruct (sameId (id d) i) eqn:Hs.
  - apply sameId_eq in Hs. tauto.
  - apply IH. tauto.
Qed.

Lemma mapGet_app (i : option jsstring) (pre l : list Destination) :
  ~ In i (map id pre) ->
  forall idx found,
    mapGet i (pre ++ l) idx found = mapGet i l (idx + length pre) found.
Proof.
  induction pre as [|d pre IH]; simpl; intros H idx found.
  - now rewrite Nat.add_0_r.
  - destruct (sameId (id d) i) eqn:Hs.
    + apply sameId_eq in Hs. tauto.
    + rewrite IH by tauto. f_equal. lia.
Qed.

(** With ids that are all different, [indexMap.get] gives a row its
    position. *)
Lemma indexOf_position (pre post : list Destination) (d : Destination) :
  NoDup (map id (pre ++ d :: post)) ->
  indexOf (pre ++ d :: post) d = Z.of_nat (length pre).
Proof.
  intros ND. rewrite map_app in ND. simpl in ND.
  pose proof (NoDup_remove_2 _ _ _ ND) as Hd.
  unfold indexOf. rewrite mapGet_app by (intros H; apply Hd, in_or_app; now left).
  simpl. assert (Hs : sameId (id d) (id d) = true) by now apply sameId_eq.
  rewrite Hs. rewrite mapGet_absent; [reflexivity|].
  intros H. apply Hd, in_or_app. now right.
Qed.

Lemma positions_increase (items : list Destination) :
  NoDup (map id items) ->
  forall pre l, items = pre ++ l ->
  StronglySorted (fun a b => (compare_position items a b < 0)%Z) l.
Proof.
  intros ND pre l. revert pre. induction l as [|d l IH]; intros pre Hi;
    constructor.
  - apply (IH (pre ++ [d])). now rewrite <- app_assoc.
  - apply Forall_forall. intros b Hb. apply in_split in Hb as [m1 [m2 ->]].
    unfold compare_position. subst items.
    rewrite (indexOf_position pre _ d ND).
    replace (pre ++ d :: m1 ++ b :: m2) with ((pre ++ d :: m1) ++ b :: m2) in *
      by (rewrite <- app_assoc; reflexivity).
    rewrite (indexOf_position _ _ b ND). rewrite length_app. simpl. lia.
Qed.

Section WithEngine.
Context {E : Engine}.

Lemma keys_differ (items : list Destination) :
  NoDup (map keyOf items) <->
  forall d, In d items -> (length (groupOf items (keyOf d)) <= 1)%nat.
Proof.
  induction items as [|x l IH]; simpl.
  - split; [intros _ d [] | constructor].
  - assert (Hx : forall k, ~ In k (map keyOf l) -> groupOf l k = []).
    { intros k Hk. destruct (groupOf l k) as [|y r] eqn:Hg; [reflexivity|].
      exfalso. assert (Hy : In y (groupOf l k)) by (rewrite Hg; now left).
      apply groupOf_key in Hy as [Hy <-]. apply Hk. now apply in_map. }
    split.
    + intros ND. inversion ND as [|? ? Hnot ND']; subst.
      intros d [<-|Hd].
      * unfold groupOf. simpl. rewrite eqb_refl. simpl.
        fold (groupOf l (keyOf x)). rewrite (Hx _ Hnot). simpl. lia.
      * unfold groupOf. simpl. destruct (eqb (keyOf x) (keyOf d)) eqn:Hk.
        -- apply eqb_eq in Hk. exfalso. apply Hnot. rewrite Hk. now apply in_map.
        -- now apply IH.
    + intros H. constructor.
      * intros Hin. apply in_map_iff in Hin as [y [Hk Hy]].
        specialize (H x (or_introl eq_refl)). unfold groupOf in H. simpl in H.
        rewrite eqb_refl in H. simpl in H.
        assert (Hin : In y (filter (fun d => eqb (keyOf d) (keyOf x)) l)).
        { apply filter_In. split; [exact Hy | now apply eqb_eq]. }
        destruct (filter (fun d => eqb (keyOf d) (keyOf x)) l);
          [destruct Hin | simpl in H; lia].
      * apply IH. intros d Hd. specialize (H d (or_intror Hd)).
        unfold groupOf in H. simpl in H.
        destruct (eqb (keyOf x) (keyOf d)); simpl in H; unfold groupOf; lia.
Qed.

Lemma small_groups (items : list Destination) (g : groups) :
  groupAll items = Returns g ->
  (NoDup (map keyOf items) <->
   forall grp, In grp (objectValues g) -> length grp = 1%nat).
Proof.
  intros Hg. rewrite keys_differ. split.
  - intros H grp Hin.
    destruct (@values_are_groups E items g grp Hg Hin) as [Hne [k ->]].
    destruct (groupOf items k) as [|d r] eqn:Hk; [contradiction|].
    assert (Hd : In d (groupOf items k)) by (rewrite Hk; now left).
    apply groupOf_key in Hd as [Hd <-]. specialize (H d Hd).
    rewrite Hk in H. simpl in *. lia.
  - intros H d Hd. rewrite (H _ (@group_of_row E items g d Hg Hd)). lia.
Qed.

(** The plan of the script is empty exactly when the keys differ. *)
Lemma plan_empty_iff (items : list Destination) (plan : list Duplicate) :
  duplicates items = Returns plan ->
  (plan = [] <-> NoDup (map keyOf items)).
Proof.
  unfold duplicates.
  destruct (groupAll items) as [g|] eqn:Hg; simpl; [|discriminate].
  intros [= <-]. rewrite (small_groups _ Hg).
  rewrite flat_map_nil. split; intros H grp Hin.
  - destruct (@values_are_groups E items g grp Hg Hin) as [Hne _].
    pose proof (Counting.duplicateOf_length Hne) as Hl.
    rewrite (H grp Hin) in Hl. simpl in Hl. lia.
  - unfold duplicateOf. now rewrite (H grp Hin).
Qed.

(** So is the list of ids of the admin page. *)
Lemma ids_empty_iff (items : list Destination)
      (ids : list (option jsstring)) :
  idsToDelete items = Returns ids ->
  (ids = [] <-> NoDup (map keyOf items)).
Proof.
  unfold idsToDelete.
  destruct (groupAll items) as [g|] eqn:Hg; simpl; [|discriminate].
  intros [= <-]. rewrite (small_groups _ Hg).
  rewrite flat_map_nil. split; intros H grp Hin.
  - destruct (@values_are_groups E items g grp Hg Hin) as [Hne _].
    pose proof (Counting.removedOf_length Hne) as Hl.
    rewrite (H grp Hin) in Hl. simpl in Hl. lia.
  - unfold removedOf. now rewrite (H grp Hin).
Qed.

End WithEngine.
End DuplicateFree.

(** X5.  The plan of the maintenance script is empty exactly when no two
    rows have the same key, and so is the list of ids of the admin page; an
    empty input gives an empty plan.  When no two rows have the same key
    and the ids are all different, the destinations list page shows the
    rows as they are, in their order. *)
Theorem resolvers_leave_distinct_rows {E : Engine} (items : list Destination) :
  (forall plan, duplicates items = Returns plan ->
                (plan = [] <-> NoDup (map keyOf items)))
  /\ (forall ids, idsToDelete items = Returns ids ->
                  (ids = [] <-> NoDup (map keyOf items)))
  /\ (forall shown, dedupeDestinations items = Returns shown ->
                    NoDup (map keyOf items) -> NoDup (map id items) ->
                    shown = items)
  /\ (duplicates [] = Returns [] /\ idsToDelete [] = Returns []
      /\ dedupeDestinations [] = Returns []).
Proof.
  split; [|split; [|split]].
  - intros plan. apply DuplicateFree.plan_empty_iff.
  - intros ids. apply DuplicateFree.ids_empty_iff.
  - intros shown. unfold dedupeDestinations.
    destruct (groupAll items) as [g|] eqn:Hg; simpl; [|discriminate].
    intros [= <-] Hk Hid.
    apply (DuplicateFree.sorted_perm_eq (cmp := compare_position items)).
    + unfold compare_position. intros a b. lia.
    + now apply (DuplicateFree.positions_increase Hid []).
    + apply JsArray.sort_sorted, compare_position_consistent.
    + rewrite JsArray.sort_perm.
      rewrite <- (Partition.values_perm _ Hg).
      rewrite (DuplicateFree.small_groups _ Hg) in Hk.
      induction (objectValues g) as [|grp vals IH]; [reflexivity|].
      simpl. rewrite IH by (intros; apply Hk; now right).
      apply Permutation_app_tail.
      specialize (Hk grp (or_introl eq_refl)).
      destruct grp as [|d [|d' r]]; try discriminate. reflexivity.
  - repeat split.
Qed.

(** The rows ["42"], [Kandy], [Temple A] have three keys; the group of
    ["42"] is handed over first, and the list page still shows the rows in
    their order. *)
Lemma resolvers_leave_distinct_rows_witness :
  let items := [Examples.bare "k1" "Kandy"; Examples.bare "n1" "42";
                Examples.templeZ9] in
  (NoDup (map (keyOf (E := basicEngine)) items) /\ NoDup (map id items))
  /\ duplicates (E := basicEngine) items = Returns []
  /\ dedupeDestinations (E := basicEngine) items = Returns items.
Proof.
  intros items.
  assert (Hp : duplicates (E := basicEngine) items = Returns []) by reflexivity.
  assert (Hs : dedupeDestinations (E := basicEngine) items = Returns items)
    by reflexivity.
  destruct (@resolvers_leave_distinct_rows basicEngine items) as (H1 & _ & H3 & _).
  pose proof (proj1 (H1 [] Hp) eq_refl) as Hk.
  assert (Hid : NoDup (map id items)).
  { repeat constructor; simpl; intuition discriminate. }
  split; [now split|]. split; [exact Hp|].
  exact (eq_trans Hs (f_equal Returns (H3 items Hs Hk Hid))).
Defined.

(* ================================================================== *)
(** * Deleting the duplicates *)
(* ================================================================== *)

Module Deletion.

(** ** The table after [delete().in('id', ids)]

    A row goes when its id is one of [ids]; a [null] is equal to no id. *)
Definition idIn (ids : list (option jsstring)) (d : Destination) : bool :=
  existsb (fun i => match i, id d with
                    | Some x, Some y => eqb x y
                    | _, _ => false
                    end) ids.

Definition deleteIn (ids : list (option jsstring)) (table : list Destination)
  : list Destination :=
  filter (fun d => negb (idIn ids d)) table.

Lemma idIn_spec (ids : list (option jsstring)) (d : Destination) :
  idIn ids d = true <-> exists x, id d = Some x /\ In (Some x) ids.
Proof.
  unfold idIn. rewrite existsb_exists. split.
  - intros [[i|] [Hin H]]; [|discriminate].
    destruct (id d) as [y|]; [|discriminate]. apply eqb_eq in H. subst.
    now exists y.
  - intros [x [Hd Hin]]. exists (Some x). split; [exact Hin|].
    rewrite Hd. apply eqb_refl.
Qed.

Lemma distinct_injective A B (f : A -> B) (l : list A) :
  NoDup (map f l) -> forall a b, In a l -> In b l -> f a = f b -> a = b.
Proof.
  induction l as [|x l IH]; simpl; intros ND a b Ha Hb Hab; [destruct Ha|].
  inversion ND as [|? ? Hx ND']; subst.
  destruct Ha as [->|Ha], Hb as [->|Hb].
  - reflexivity.
  - exfalso. apply Hx. rewrite Hab. now apply in_map.
  - exfalso. apply Hx. rewrite <- Hab. now apply in_map.
  - now apply IH.
Qed.

Section OneLeft.
Context {E : Engine}.

(** [rem] gives the rows removed from a group; it takes all the rows of a
    group but one. *)
Variable rem : list Destination -> list Destination.
Hypothesis rem_all_but_one :
  forall grp, grp <> [] -> exists k, Permutation (k :: rem grp) grp.

Variable items : list Destination.
Variable g : groups.
Hypothesis Hg : groupAll items = Returns g.
Hypothesis ids_differ : NoDup (map id items).
Hypothesis ids_present : forall d, In d items -> id d <> None.

Let removed : list Destination := flat_map rem (objectValues g).
Let rest : list Destination := deleteIn (map id removed) items.

Lemma items_differ : NoDup items.
Proof. exact (NoDup_map_inv id items ids_differ). Qed.

Lemma id_injective (a b : Destination) :
  In a items -> In b items -> id a = id b -> a = b.
Proof. exact (distinct_injective id items ids_differ a b). Qed.

Lemma removed_in_group (r : Destination) :
  In r removed ->
  In r items /\ In r (rem (groupOf items (keyOf r))).
Proof.
  unfold removed. intros Hr. apply in_flat_map in Hr as [grp [Hgrp Hr]].
  destruct (@values_are_groups E items g grp Hg Hgrp) as [Hne [k ->]].
  destruct (rem_all_but_one Hne) as [c Hp].
  assert (Hin : In r (groupOf items k)).
  { apply (Permutation_in _ Hp). now right. }
  apply groupOf_key in Hin as [Hin <-]. now split.
Qed.

Lemma rest_spec (d : Destination) :
  In d rest <-> In d items /\ ~ In d removed.
Proof.
  unfold rest, deleteIn. rewrite filter_In, negb_true_iff.
  split; intros [Hd H]; (split; [exact Hd|]).
  - intros Hr. assert (T : idIn (map id removed) d = true); [|congruence].
    apply idIn_spec. destruct (id d) as [x|] eqn:Hx.
    + exists x. split; [reflexivity|]. rewrite <- Hx. now apply in_map.
    + now apply ids_present in Hd.
  - destruct (idIn (map id removed) d) eqn:Hi; [|reflexivity].
    exfalso. apply H. apply idIn_spec in Hi as [x [Hx Hin]].
    apply in_map_iff in Hin as [r [Hr Hin]].
    destruct (removed_in_group _ Hin) as [Hr' _].
    rewrite (id_injective d r Hd Hr'); [exact Hin | congruence].
Qed.

Lemma group_differ (k : jsstring) : NoDup (groupOf items k).
Proof. apply NoDup_filter, items_differ. Qed.

(** The row a group keeps. *)
Lemma kept_of_group (k : jsstring) :
  groupOf items k <> [] ->
  exists c, In c rest /\ keyOf c = k
            /\ forall d, In d rest -> keyOf d = k -> d = c.
Proof.
  intros Hne. destruct (rem_all_but_one Hne) as [c Hp].
  assert (Hc : In c (groupOf items k)) by (apply (Permutation_in _ Hp); now left).
  pose proof (groupOf_key _ _ _ Hc) as [Hci Hck].
  assert (ND : NoDup (c :: rem (groupOf items k))).
  { apply (Permutation_NoDup (Permutation_sym Hp)), group_differ. }
  inversion ND as [|? ? Hnot _]; subst.
  exists c. split; [|split; [reflexivity|]].
  - apply rest_spec. split; [exact Hci|]. intros Hr.
    apply removed_in_group in Hr as [_ Hr]. now apply Hnot.
  - intros d Hd Hk. apply rest_spec in Hd as [Hd Hr].
    assert (Hin : In d (groupOf items (keyOf c))).
    { apply filter_In. split; [exact Hd | now apply eqb_eq]. }
    apply (Permutation_in _ (Permutation_sym Hp)) in Hin as [->|Hin];
      [reflexivity|].
    exfalso. apply Hr. unfold removed. apply in_flat_map.
    exists (groupOf items (keyOf c)). split; [|exact Hin].
    now apply (@group_of_row E items g c Hg).
Qed.

Lemma one_left_per_key :
  (forall d, In d rest -> In d items)
  /\ NoDup (map keyOf rest)
  /\ (forall d, In d items -> exists c, In c rest /\ keyOf c = keyOf d).
Proof.
  split; [|split].
  - intros d Hd. now apply rest_spec in Hd.
  - apply NoDup_map_NoDup_ForallPairs.
    + intros a b Ha Hb Hab.
      assert (Hne : groupOf items (keyOf b) <> []).
      { apply rest_spec in Hb as [Hb _]. intros H.
        assert (Hin : In b (groupOf items (keyOf b)))
          by (apply filter_In; split; [exact Hb | apply eqb_refl]).
        rewrite H in Hin. destruct Hin. }
      destruct (@kept_of_group _ Hne) as [c [_ [_ Hu]]].
      rewrite (Hu a Ha Hab), (Hu b Hb eq_refl). reflexivity.
    + apply NoDup_filter, items_differ.
  - intros d Hd.
    assert (Hne : groupOf items (keyOf d) <> []).
    { intros H. assert (Hin : In d (groupOf items (keyOf d)))
        by (apply filter_In; split; [exact Hd | apply eqb_refl]).
      rewrite H in Hin. destruct Hin. }
    destruct (@kept_of_group _ Hne) as [c [Hc [Hk _]]]. now exists c.
Qed.

End OneLeft.

Section WithEngine.
Context {E : Engine}.

(** The rows removed from a group by the script and by the admin page. *)
Definition removedByScript (grp : list Destination) : list Destination :=
  flat_map remove (duplicateOf grp).

Lemma script_all_but_one (grp : list Destination) :
  grp <> [] -> exists k, Permutation (k :: removedByScript grp) grp.
Proof.
  intros Hne. unfold removedByScript.
  destruct (duplicateOf grp) as [|d [|d' r]] eqn:Hd.
  - pose proof (Counting.duplicateOf_length Hne) as Hl. rewrite Hd in Hl.
    destruct grp as [|x [|y grp]]; simpl in Hl; try lia; try contradiction.
    now exists x.
  - exists (keep d). simpl. rewrite app_nil_r.
    apply (Keeper.duplicateOf_sorted grp d). rewrite Hd. now left.
  - exfalso. unfold duplicateOf in Hd.
    destruct (length grp <=? 1)%nat; [discriminate|].
    destruct (JsArray.sort compare_script (scoreAll grp)); discriminate.
Qed.

Lemma admin_all_but_one (grp : list Destination) :
  grp <> [] -> exists k, Permutation (k :: removedOf grp) grp.
Proof.
  intros Hne. unfold removedOf.
  destruct (Nat.leb_spec (length grp) 1) as [Hl|Hl].
  - destruct grp as [|x [|y grp]]; simpl in Hl; try lia; try contradiction.
    now exists x.
  - pose proof (JsArray.sort_perm compare_id (scoreAll grp)) as Hp.
    destruct (JsArray.sort compare_id (scoreAll grp)) as [|h r] eqn:Hs.
    + apply Permutation_nil in Hp. destruct grp; [contradiction | discriminate].
    + exists (item h). simpl.
      change (item h :: map item r) with (map item (h :: r)).
      rewrite (Permutation_map item Hp). unfold scoreAll. rewrite map_map.
      simpl. now rewrite map_id.
Qed.

Lemma toDelete_removed (vals : list (list Destination)) :
  toDelete (flat_map duplicateOf vals) = map id (flat_map removedByScript vals).
Proof.
  induction vals as [|grp vals IH]; simpl; [reflexivity|].
  rewrite Counting.toDelete_app, map_app, IH. f_equal.
  unfold toDelete, removedByScript.
  induction (duplicateOf grp) as [|d l IHl]; simpl; [reflexivity|].
  now rewrite map_app, IHl.
Qed.

Lemma idsToDelete_removed (vals : list (list Destination)) :
  flat_map (fun grp => map id (removedOf grp)) vals
  = map id (flat_map removedOf vals).
Proof.
  induction vals as [|grp vals IH]; simpl; [reflexivity|].
  now rewrite map_app, IH.
Qed.

(** When the grouping loop ends, no key names a property of
    [Object.prototype]. *)
Lemma addTo_plain (g g' : groups) (d : Destination) :
  addTo g d = Returns g' ->
  (forall k, In k (map fst g) -> inherited k = false) ->
  forall k, In k (map fst g') -> inherited k = false.
Proof.
  unfold addTo. destruct (Resolver.getOwn g (keyOf d)) eqn:Hget.
  - intros [= <-] H k. rewrite pushOwn_keys. apply H.
  - destruct (inherited (keyOf d)) eqn:Hi; [discriminate|].
    intros [= <-] H k. rewrite map_app, in_app_iff. simpl.
    intros [Hk|[<-|[]]]; [now apply H | exact Hi].
Qed.

Lemma groupFrom_plain (l : list Destination) :
  forall g g', groupFrom g l = Returns g' ->
  (forall k, In k (map fst g) -> inherited k = false) ->
  forall k, In k (map fst g') -> inherited k = false.
Proof.
  induction l as [|d l IH]; simpl; intros g g'.
  - now intros [= <-].
  - destruct (addTo g d) as [g1|] eqn:Ha; simpl; [|discriminate].
    intros H Hp. apply (IH _ _ H). now apply (addTo_plain _ _ Ha).
Qed.

Lemma groupAll_plain (items : list Destination) (g : groups) :
  groupAll items = Returns g -> plainKeys items.
Proof.
  intros Hg d Hd. pose proof (groupAll_represents _ Hg) as (_ & _ & Hl).
  apply (groupFrom_plain items [] Hg); [intros k [] | now apply Hl].
Qed.

End WithEngine.
End Deletion.

(** X6.  After the ids of the plan are deleted from a table whose ids are
    present and all different, the table has one row for every key it had
    and no two rows with the same key, and a second run of the resolver
    finds nothing to delete.  This holds for the maintenance script and for
    the admin page. *)
Theorem deletion_leaves_one_row_per_key {E : Engine}
        (items : list Destination) :
  NoDup (map id items) -> (forall d, In d items -> id d <> None) ->
  (forall plan,
      duplicates items = Returns plan ->
      let rest := Deletion.deleteIn (toDelete plan) items in
      (forall d, In d rest -> In d items)
      /\ NoDup (map keyOf rest)
      /\ (forall d, In d items -> exists c, In c rest /\ keyOf c = keyOf d)
      /\ duplicates rest = Returns [])
  /\ (forall ids,
         idsToDelete items = Returns ids ->
         let rest := Deletion.deleteIn ids items in
         (forall d, In d rest -> In d items)
         /\ NoDup (map keyOf rest)
         /\ (forall d, In d items -> exists c, In c rest /\ keyOf c = keyOf d)
         /\ idsToDelete rest = Returns []).
Proof.
  intros Hid Hsome.
  assert (Again : forall rest,
             (forall d, In d rest -> In d items) ->
             NoDup (map keyOf rest) -> plainKeys items ->
             duplicates rest = Returns [] /\ idsToDelete rest = Returns []).
  { intros rest Hsub Hk Hplain.
    destruct (@resolvers_return E rest) as (p & i & s & Hp & Hi & _).
    { intros d Hd. apply Hplain. now apply Hsub. }
    rewrite Hp, Hi.
    now rewrite (proj2 (DuplicateFree.plan_empty_iff _ Hp) Hk),
      (proj2 (DuplicateFree.ids_empty_iff _ Hi) Hk). }
  split.
  - intros plan. unfold duplicates.
    destruct (groupAll items) as [g|] eqn:Hg; simpl; [|discriminate].
    intros [= <-]. rewrite Deletion.toDelete_removed.
    destruct (@Deletion.one_left_per_key E Deletion.removedByScript
                Deletion.script_all_but_one items g Hg Hid Hsome) as (H1 & H2 & H3).
    repeat split; auto.
    apply Again; auto. now apply (@Deletion.groupAll_plain E items g Hg).
  - intros ids. unfold idsToDelete.
    destruct (groupAll items) as [g|] eqn:Hg; simpl; [|discriminate].
    intros [= <-]. rewrite Deletion.idsToDelete_removed.
    destruct (@Deletion.one_left_per_key E removedOf
                Deletion.admin_all_but_one items g Hg Hid Hsome) as (H1 & H2 & H3).
    repeat split; auto.
    apply Again; auto. now apply (@Deletion.groupAll_plain E items g Hg).
Qed.

(** Of [Temple A (z9)], [Kandy (k1)], [temple a (a1)] the script deletes
    [z9]; [Kandy] and [temple a (a1)] stay. *)
Lemma deletion_leaves_one_row_per_key_witness :
  let items := [Examples.templeZ9; Examples.bare "k1" "Kandy";
                Examples.templeA1] in
  let plan := [{| keep := Examples.templeA1; remove := [Examples.templeZ9] |}] in
  let rest := [Examples.bare "k1" "Kandy"; Examples.templeA1] in
  (NoDup (map id items) /\ duplicates (E := basicEngine) items = Returns plan)
  /\ Deletion.deleteIn (toDelete plan) items = rest
  /\ NoDup (map (keyOf (E := basicEngine)) rest)
  /\ duplicates (E := basicEngine) rest = Returns [].
Proof.
  intros items plan rest.
  assert (Hid : NoDup (map id items)).
  { repeat constructor; simpl; intuition discriminate. }
  assert (Hsome : forall d, In d items -> id d <> None).
  { intros d Hd. repeat destruct Hd as [<-|Hd]; try discriminate. destruct Hd. }
  assert (Hp : duplicates (E := basicEngine) items = Returns plan)
    by reflexivity.
  destruct (proj1 (@deletion_leaves_one_row_per_key basicEngine items Hid Hsome)
                  plan Hp) as (_ & H2 & _ & H4).
  split; [now split|]. split; [reflexivity|]. split; [exact H2 | exact H4].
Defined.

(* ================================================================== *)
(** * The requests sent in batches *)
(* ================================================================== *)

Module Batches.

(** [l.slice(i, j)] for [0 <= i <= j]. *)
Definition slice A (i j : nat) (l : list A) : list A :=
  firstn (j - i) (skipn i l).

(** [for (let i = 0; i < l.length; i += batchSize)] with
    [batch = l.slice(i, i + batchSize)] and one round of requests for each
    batch.  [stops n] tells whether the round number [n] (from 0) ends the
    process.  The result has the batches whose round went through, and
    whether the loop reached its end.  [fuel] bounds the number of
    rounds. *)
Fixpoint batchLoop A (batchSize fuel : nat) (stops : nat -> bool)
         (l : list A) (i : nat) : list (list A) * bool :=
  match fuel with
  | O => ([], true)
  | S fuel' =>
    if (i <? length l)%nat then
      let batch := slice i (i + batchSize) l in
      if stops (i / batchSize)%nat then ([], false)
      else
        let '(done, ok) := batchLoop batchSize fuel' stops l (i + batchSize) in
        (batch :: done, ok)
    else ([], true)
  end.

(** The loop of [remove_duplicates.mjs]: batches of 100 ids, and the
    process exits at the first request that fails. *)
Definition deleteAll (fails : nat -> bool) (toDelete : list (option jsstring))
  : list (list (option jsstring)) * bool :=
  batchLoop 100 (length toDelete) fails toDelete 0.

(** The loop of [assign_local_images.mjs]: batches of 50 updates; an update
    that fails is logged and the loop goes on. *)
Definition updateAll A (assignments : list A) : list (list A) :=
  fst (batchLoop 50 (length assignments) (fun _ => false) assignments 0).

Lemma firstn_plus A (a b : nat) (l : list A) :
  firstn (a + b) l = firstn a l ++ firstn b (skipn a l).
Proof.
  revert l. induction a as [|a IH]; intros [|x l]; simpl; try reflexivity.
  - now rewrite firstn_nil.
  - now rewrite IH.
Qed.

Section Loop.
Variable A : Type.
Variable size : nat.
Hypothesis size_positive : (1 <= size)%nat.
Variable stops : nat -> bool.
Variable l : list A.

Lemma batchLoop_spec (fuel : nat) :
  forall n done ok,
    (length l <= fuel + n * size)%nat ->
    batchLoop size fuel stops l (n * size) = (done, ok) ->
    concat done = firstn (length done * size) (skipn (n * size) l)
    /\ (forall m b, nth_error done m = Some b ->
                    b = slice ((n + m) * size) ((n + m) * size + size) l
                    /\ (1 <= length b <= size)%nat
                    /\ stops (n + m)%nat = false)
    /\ (ok = true -> concat done = skipn (n * size) l)
    /\ (ok = false -> stops (n + length done)%nat = true
                      /\ ((n + length done) * size < length l)%nat).
Proof.
  induction fuel as [|fuel IH]; intros n done ok Hf; simpl.
  - intros [= <- <-]. simpl. split; [reflexivity|]. split.
    + intros [|m] b; discriminate.
    + split; [|discriminate]. intros _. symmetry. apply skipn_all2. lia.
  - destruct (Nat.ltb_spec (n * size) (length l)) as [Hlt|Hge].
    + rewrite (Nat.div_mul n size) by lia.
      destruct (stops n) eqn:Hs.
      * intros [= <- <-]. simpl. split; [reflexivity|]. split.
        -- intros [|m] b; discriminate.
        -- split; [discriminate|]. intros _.
           rewrite Nat.add_0_r. now split.
      * replace (n * size + size)%nat with (S n * size)%nat by lia.
        destruct (batchLoop size fuel stops l (S n * size)) as [done' ok']
          eqn:Hrec.
        intros [= <- <-].
        destruct (IH (S n) done' ok' ltac:(lia) Hrec) as (H1 & H2 & H3 & H4).
        assert (Hb : slice (n * size) (size + n * size) l
                     = firstn size (skipn (n * size) l)).
        { unfold slice. f_equal; lia. }
        assert (Hsk : skipn (S n * size) l = skipn size (skipn (n * size) l)).
        { rewrite skipn_skipn. f_equal; lia. }
        split; [|split; [|split]].
        -- cbn [concat length]. rewrite H1, Hb, Hsk.
           replace (S (length done') * size)%nat
             with (size + length done' * size)%nat by lia.
           now rewrite firstn_plus.
        -- intros [|m] b; cbn [nth_error].
           ++ intros [= <-]. rewrite Nat.add_0_r.
              replace (n * size + size)%nat with (size + n * size)%nat by lia.
              split; [reflexivity|]. split; [|exact Hs].
              rewrite Hb, length_firstn, length_skipn. lia.
           ++ intros Hm. apply H2 in Hm.
              now replace (n + S m)%nat with (S n + m)%nat by lia.
        -- intros Hok. cbn [concat]. rewrite (H3 Hok), Hb, Hsk.
           apply firstn_skipn.
        -- intros Hok. cbn [length].
           replace (n + S (length done'))%nat
             with (S n + length done')%nat by lia.
           now apply H4.
    + intros [= <- <-]. simpl. split; [reflexivity|]. split.
      * intros [|m] b; discriminate.
      * split; [|discriminate]. intros _. symmetry. now apply skipn_all2.
Qed.

End Loop.

(** What the script has deleted is a prefix of the plan, and the whole plan
    when the loop reached its end. *)
Lemma deleteAll_prefix (fails : nat -> bool)
      (toDelete : list (option jsstring)) :
  concat (fst (deleteAll fails toDelete))
  = firstn (length (fst (deleteAll fails toDelete)) * 100) toDelete
  /\ (snd (deleteAll fails toDelete) = true ->
      concat (fst (deleteAll fails toDelete)) = toDelete).
Proof.
  destruct (deleteAll fails toDelete) as [done ok] eqn:Hd.
  unfold deleteAll in Hd.
  destruct (@batchLoop_spec _ 100 ltac:(lia) fails toDelete
              (length toDelete) 0 done ok ltac:(lia) Hd)
    as (H1 & _ & H3 & _).
  simpl in H1, H3. simpl. now split.
Qed.

End Batches.

(** X7.  The script deletes the ids in batches of 100, in the order of the
    plan: the batch number [m] is [toDelete.slice(100 m, 100 m + 100)], it
    is not empty, and it is sent only when no request before it failed.
    What has been deleted when the script ends is a prefix of the plan made
    of whole batches; it is the whole plan exactly when the script reached
    its end, which it does when no request fails; when it did not, the
    request after the last batch deleted failed and ids of the plan are
    left.  The script that assigns the local images sends every assignment
    once, in order, in batches of 50, whatever fails. *)
Theorem deletion_in_batches (fails : nat -> bool)
        (toDelete : list (option jsstring)) :
  let done := fst (Batches.deleteAll fails toDelete) in
  let ok := snd (Batches.deleteAll fails toDelete) in
  concat done = firstn (length done * 100) toDelete
  /\ (forall m b, nth_error done m = Some b ->
                  b = Batches.slice (m * 100) (m * 100 + 100) toDelete
                  /\ (1 <= length b <= 100)%nat
                  /\ fails m = false)
  /\ (ok = true <-> concat done = toDelete)
  /\ (ok = false -> fails (length done) = true
                    /\ (length done * 100 < length toDelete)%nat)
  /\ ((forall n, fails n = false) -> ok = true)
  /\ (forall A (assignments : list A),
         concat (Batches.updateAll assignments) = assignments
         /\ forall m b, nth_error (Batches.updateAll assignments) m = Some b ->
                        b = Batches.slice (m * 50) (m * 50 + 50) assignments
                        /\ (1 <= length b <= 50)%nat).
Proof.
  intros done ok.
  destruct (Batches.deleteAll fails toDelete) as [done' ok'] eqn:Hd.
  subst done ok. simpl. unfold Batches.deleteAll in Hd.
  destruct (@Batches.batchLoop_spec _ 100 ltac:(lia) fails toDelete
              (length toDelete) 0 done' ok' ltac:(lia) Hd)
    as (H1 & H2 & H3 & H4).
  simpl in H1, H2, H3, H4.
  assert (Hno : ok' = false -> concat done' <> toDelete).
  { intros Hok Heq. destruct (H4 Hok) as [_ Hlt].
    assert (Hl : length (concat done') = length toDelete) by now rewrite Heq.
    rewrite H1, length_firstn in Hl. lia. }
  split; [exact H1|]. split; [exact H2|]. split; [|split; [exact H4|split]].
  - split; [exact H3|]. intros Heq. destruct ok'; [reflexivity|].
    now destruct (Hno eq_refl).
  - intros Hall. destruct ok'; [reflexivity|].
    destruct (H4 eq_refl) as [Hf _]. now rewrite Hall in Hf.
  - intros A assignments. unfold Batches.updateAll.
    destruct (Batches.batchLoop 50 (length assignments) (fun _ => false)
                                assignments 0) as [sent ok] eqn:Hu.
    destruct (@Batches.batchLoop_spec _ 50 ltac:(lia) (fun _ => false)
                assignments (length assignments) 0 sent ok ltac:(lia) Hu)
      as (U1 & U2 & U3 & U4).
    simpl in U1, U2, U3, U4. simpl. split.
    + destruct ok; [now apply U3|]. now destruct (U4 eq_refl).
    + intros m b Hm. destruct (U2 m b Hm) as (Hb & Hl & _). now split.
Qed.

(** A plan of 250 ids whose third request fails: two batches of 100 ids
    are deleted, the first 200 ids of the plan. *)
Lemma deletion_in_batches_witness :
  let toDelete := map (fun n => Some [N.of_nat n]) (seq 0 250) in
  let fails := fun n => Nat.eqb n 2 in
  map (@length _) (fst (Batches.deleteAll fails toDelete)) = [100; 100]%nat
  /\ snd (Batches.deleteAll fails toDelete) = false
  /\ concat (fst (Batches.deleteAll fails toDelete)) = firstn 200 toDelete.
Proof.
  intros toDelete fails.
  pose proof (deletion_in_batches fails toDelete) as H. cbv zeta in H.
  destruct H as (H1 & _).
  split; [vm_compute; reflexivity|]. split; [vm_compute; reflexivity|].
  rewrite H1. f_equal.
Defined.

(** ** The table after a run of the script *)

Module Runs.

(** The table after the script ran: each request that went through deleted
    the rows of its batch, and a request that failed deleted nothing. *)
Definition runDeletion (fails : nat -> bool)
           (toDelete : list (option jsstring)) (table : list Destination)
  : list Destination :=
  fold_left (fun t batch => Deletion.deleteIn batch t)
            (fst (Batches.deleteAll fails toDelete)) table.

Lemma idIn_app (a b : list (option jsstring)) (d : Destination) :
  Deletion.idIn (a ++ b) d = Deletion.idIn a d || Deletion.idIn b d.
Proof. unfold Deletion.idIn. apply existsb_app. Qed.

Lemma deleteIn_app (a b : list (option jsstring)) (t : list Destination) :
  Deletion.deleteIn b (Deletion.deleteIn a t) = Deletion.deleteIn (a ++ b) t.
Proof.
  unfold Deletion.deleteIn. induction t as [|d t IH]; [reflexivity|].
  cbn [filter]. rewrite idIn_app.
  destruct (Deletion.idIn a d); cbn [negb orb filter]; [exact IH|].
  destruct (Deletion.idIn b d); cbn [negb]; now rewrite IH.
Qed.

Lemma fold_deleteIn (done : list (list (option jsstring))) :
  forall t, fold_left (fun t batch => Deletion.deleteIn batch t) done t
            = Deletion.deleteIn (concat done) t.
Proof.
  induction done as [|b done IH]; intros t; simpl.
  - unfold Deletion.deleteIn. induction t as [|d t IHt]; [reflexivity|].
    simpl. f_equal. exact IHt.
  - now rewrite IH, deleteIn_app.
Qed.

Lemma deleteIn_fewer (ids ids' : list (option jsstring))
      (t : list Destination) (d : Destination) :
  (forall i, In i ids' -> In i ids) ->
  In d (Deletion.deleteIn ids t) -> In d (Deletion.deleteIn ids' t).
Proof.
  intros Hsub. unfold Deletion.deleteIn. rewrite !filter_In, !negb_true_iff.
  intros [Hd Hn]. split; [exact Hd|].
  destruct (Deletion.idIn ids' d) eqn:Hi; [|reflexivity].
  apply Deletion.idIn_spec in Hi as [x [Hx Hin]].
  assert (T : Deletion.idIn ids d = true); [|congruence].
  apply Deletion.idIn_spec. exists x. split; [exact Hx | now apply Hsub].
Qed.

Lemma firstn_In A (n : nat) (l : list A) (x : A) :
  In x (firstn n l) -> In x l.
Proof.
  intros H. rewrite <- (firstn_skipn n l). apply in_or_app. now left.
Qed.

End Runs.

(** X23.  A run of the script that stops at a failed request loses no key:
    whatever requests fail, the table after the run has only rows it had,
    and still has a row for every key it had, since the row kept for a key
    is in no batch.  When the script reaches its end the table is the one
    without the ids of the plan, with no two rows of the same key. *)
Theorem failed_run_loses_no_key {E : Engine} (items : list Destination)
        (fails : nat -> bool) (plan : list Duplicate) :
  NoDup (map id items) -> (forall d, In d items -> id d <> None) ->
  duplicates items = Returns plan ->
  let table := Runs.runDeletion fails (toDelete plan) items in
  (forall d, In d table -> In d items)
  /\ (forall d, In d items -> exists c, In c table /\ keyOf c = keyOf d)
  /\ (snd (Batches.deleteAll fails (toDelete plan)) = true ->
      table = Deletion.deleteIn (toDelete plan) items
      /\ NoDup (map keyOf table)).
Proof.
  intros Hid Hsome Hp table. subst table. unfold Runs.runDeletion.
  rewrite Runs.fold_deleteIn.
  pose proof (Batches.deleteAll_prefix fails (toDelete plan)) as
      (Hprefix & Hend).
  revert Hp. unfold duplicates.
  destruct (groupAll items) as [g|] eqn:Hg; simpl; [|discriminate].
  intros [= <-]. rewrite Deletion.toDelete_removed in *.
  destruct (@Deletion.one_left_per_key E Deletion.removedByScript
              Deletion.script_all_but_one items g Hg Hid Hsome)
    as (H1 & H2 & H3).
  split; [|split].
  - intros d Hd. unfold Deletion.deleteIn in Hd. now apply filter_In in Hd.
  - intros d Hd. destruct (H3 d Hd) as [c [Hc Hk]]. exists c.
    split; [|exact Hk].
    eapply Runs.deleteIn_fewer; cycle 1; [exact Hc|].
    intros i Hi. rewrite Hprefix in Hi. now apply Runs.firstn_In in Hi.
  - intros Hok. rewrite (Hend Hok). now split.
Qed.

(** Of [Temple A (z9)], [Kandy (k1)], [temple a (a1)], with a first request
    that fails nothing is deleted; every key keeps its rows. *)
Lemma failed_run_loses_no_key_witness :
  let items := [Examples.templeZ9; Examples.bare "k1" "Kandy";
                Examples.templeA1] in
  let plan := [{| keep := Examples.templeA1; remove := [Examples.templeZ9] |}] in
  (NoDup (map id items) /\ duplicates (E := basicEngine) items = Returns plan)
  /\ Runs.runDeletion (fun _ => true) (toDelete plan) items = items
  /\ existsb (fun c => eqb (keyOf (E := basicEngine) c) (lit "kandy"))
             (Runs.runDeletion (fun _ => true) (toDelete plan) items) = true.
Proof.
  intros items plan.
  assert (Hid : NoDup (map id items)).
  { repeat constructor; simpl; intuition discriminate. }
  assert (Hsome : forall d, In d items -> id d <> None).
  { intros d Hd. repeat destruct Hd as [<-|Hd]; try discriminate. destruct Hd. }
  assert (Hp : duplicates (E := basicEngine) items = Returns plan)
    by reflexivity.
  split; [now split|]. split; [reflexivity|].
  destruct (proj1 (proj2 (@failed_run_loses_no_key basicEngine items
                            (fun _ => true) plan Hid Hsome Hp))
                  (Examples.bare "k1" "Kandy"))
    as [c [Hc Hk]]; [right; now left|].
  apply existsb_exists. exists c. split; [exact Hc|].
  apply eqb_eq. rewrite Hk. reflexivity.
Defined.

(* ================================================================== *)
(** * Keys are normal forms *)
(* ================================================================== *)

Module NormalForms.

Lemma alnum_ascii (c : N) : isLowerAlnum c = true -> isAscii c = true.
Proof.
  intros H. apply alnum_range in H. unfold isAscii. apply N.ltb_lt. lia.
Qed.

Lemma alnum_lower (c : N) : isLowerAlnum c = true -> lowerAscii c = c.
Proof.
  unfold isLowerAlnum, lowerAscii. intros H.
  apply orb_true_iff in H.
  destruct (N.leb_spec 65 c) as [Ha|Ha]; [|reflexivity].
  destruct (N.leb_spec c 90) as [Hb|Hb]; [|reflexivity]. exfalso.
  destruct H as [H|H]; apply andb_true_iff in H as [Hc Hd];
    apply N.leb_le in Hc, Hd; lia.
Qed.

Lemma alnum_plain (k : jsstring) :
  forallb isLowerAlnum k = true -> forallb isAscii k = true.
Proof.
  rewrite !forallb_forall. intros H c Hc. now apply alnum_ascii, H.
Qed.

Lemma filter_all A (p : A -> bool) (l : list A) :
  forallb p l = true -> filter p l = l.
Proof.
  induction l as [|x l IH]; simpl; [reflexivity|].
  intros H. apply andb_true_iff in H as [-> H]. now rewrite IH.
Qed.

Lemma lower_ge (c : N) : (c <= lowerAscii c)%N.
Proof.
  unfold lowerAscii. destruct ((65 <=? c) && (c <=? 90))%N; lia.
Qed.

(** Among the code units below 128, those whose lower case is in [a-z0-9]
    are neither apostrophes nor combining marks. *)
Lemma lower_alnum_kept (c : N) :
  isLowerAlnum (lowerAscii c) = true ->
  negb (isApostrophe c) = true /\ negb (isCombining c) = true.
Proof.
  intros H. pose proof (alnum_range _ H) as [_ Hr].
  pose proof (lower_ge c) as Hc. unfold isApostrophe, isCombining.
  destruct (N.eqb_spec c 39) as [->|]; [vm_compute in H; discriminate|].
  destruct (N.eqb_spec c 8217); [lia|].
  destruct (N.eqb_spec c 96) as [->|]; [vm_compute in H; discriminate|].
  destruct (N.leb_spec 768 c); [lia|]. now split.
Qed.

Lemma alnum_kept (c : N) :
  isLowerAlnum c = true ->
  negb (isApostrophe c) = true /\ negb (isCombining c) = true.
Proof.
  intros H. apply lower_alnum_kept. now rewrite alnum_lower.
Qed.

Lemma strip_lower_filters (s : jsstring) :
  stripNonAlnum
    (map lowerAscii
         (filter (fun c => negb (isCombining c))
                 (filter (fun c => negb (isApostrophe c)) s)))
  = stripNonAlnum (map lowerAscii s).
Proof.
  unfold stripNonAlnum. induction s as [|c s IH]; [reflexivity|].
  cbn [filter map]. destruct (isLowerAlnum (lowerAscii c)) eqn:Ha.
  - destruct (lower_alnum_kept c Ha) as [H1 H2]. rewrite H1.
    cbn [filter map]. rewrite H2. cbn [filter map]. now rewrite Ha, IH.
  - destruct (negb (isApostrophe c)); [|exact IH]. cbn [filter].
    destruct (negb (isCombining c)); [|exact IH]. cbn [filter map].
    now rewrite Ha.
Qed.

Section WithEngine.
Context {E : Engine}.

Lemma toLowerCase_alnum (k : jsstring) :
  forallb isLowerAlnum k = true -> toLowerCase k = k.
Proof.
  intros H. rewrite toLowerCase_ascii by now apply alnum_plain.
  rewrite <- (map_id k) at 2. apply map_ext_in. intros c Hc.
  apply alnum_lower. rewrite forallb_forall in H. now apply H.
Qed.

Lemma strip_lower_alnum (k : jsstring) :
  forallb isLowerAlnum k = true -> stripNonAlnum (toLowerCase k) = k.
Proof.
  intros H. rewrite toLowerCase_alnum by exact H. now apply filter_all.
Qed.

Lemma normalizeForKey_alnum (k : jsstring) :
  forallb isLowerAlnum k = true -> normalizeForKey k = k.
Proof.
  intros H. unfold normalizeForKey.
  rewrite normalizeNFKD_ascii by now apply alnum_plain.
  rewrite !filter_all.
  - now apply strip_lower_alnum.
  - apply forallb_forall. intros c Hc. rewrite forallb_forall in H.
    now apply alnum_kept, H.
  - rewrite filter_all; apply forallb_forall; intros c Hc;
      rewrite forallb_forall in H; now apply alnum_kept, H.
Qed.

Lemma normalizeForKey_ascii (s : jsstring) :
  forallb isAscii s = true ->
  normalizeForKey s = stripNonAlnum (toLowerCase s).
Proof.
  intros H. unfold normalizeForKey.
  rewrite normalizeNFKD_ascii by exact H.
  rewrite !toLowerCase_ascii.
  - apply strip_lower_filters.
  - exact H.
  - now do 2 apply BasicLatin.plain_filter.
Qed.

End WithEngine.
End NormalForms.

(** X8.  A key is its own key: the three copies of [normalize] and
    [normalizeForKey] leave the key of a row and the key of a file name as
    they are, so that a row named by its key falls into the same group.  On
    a name of the Basic Latin block, [normalizeForKey] (which chooses the
    image and the text) and [normalize] (which groups the duplicates) give
    the same key. *)
Theorem keys_are_normal_forms {E : Engine} :
  (forall d,
      normalize_script (Str (keyOf d)) = Returns (keyOf d)
      /\ normalize (Str (keyOf d)) = Returns (keyOf d)
      /\ normalizeForKey (keyOf d) = keyOf d)
  /\ (forall s,
         normalizeForKey (normalizeForKey s) = normalizeForKey s
         /\ normalize_script (Str (normalizeForKey s))
            = Returns (normalizeForKey s)
         /\ normalize (Str (normalizeForKey s)) = Returns (normalizeForKey s))
  /\ (forall s,
         forallb isAscii s = true ->
         normalize_script (Str s) = Returns (normalizeForKey s)
         /\ normalize (Str s) = Returns (normalizeForKey s)).
Proof.
  split; [|split].
  - intros d. pose proof (keyOf_alnum d) as H.
    rewrite normalize_script_string, normalize_string.
    rewrite (NormalForms.strip_lower_alnum _ H).
    repeat split. now apply NormalForms.normalizeForKey_alnum.
  - intros s.
    assert (H : forallb isLowerAlnum (normalizeForKey s) = true)
      by apply stripNonAlnum_alnum.
    rewrite normalize_script_string, normalize_string.
    rewrite (NormalForms.strip_lower_alnum _ H).
    repeat split. now apply NormalForms.normalizeForKey_alnum.
  - intros s H. rewrite normalize_script_string, normalize_string.
    now rewrite (NormalForms.normalizeForKey_ascii _ H).
Qed.

(** ["St. Clair's"] is of the Basic Latin block; both functions give it the
    key ["stclairs"]. *)
Lemma keys_are_normal_forms_witness :
  forallb isAscii (lit "St. Clair's") = true
  /\ normalize (E := basicEngine) (Str (lit "St. Clair's"))
     = Returns (normalizeForKey (E := basicEngine) (lit "St. Clair's"))
  /\ normalizeForKey (E := basicEngine) (lit "St. Clair's") = lit "stclairs".
Proof.
  split; [reflexivity|]. split; [|reflexivity].
  exact (proj2 (proj2 (proj2 (@keys_are_normal_forms basicEngine))
                      (lit "St. Clair's") eq_refl)).
Defined.

(* ================================================================== *)
(** * The text of a card is never missing *)
(* ================================================================== *)

Module Texts.

Lemma table_texts (table : list Snippet) (name : jsstring) (found : Snippet) :
  forallb (fun f => nonEmpty (text f)) table = true ->
  findPattern table name = Some found -> text found <> [].
Proof.
  intros Hall Hf. unfold findPattern, JsArray.find in Hf.
  apply find_some in Hf as [Hin _]. rewrite forallb_forall in Hall.
  now apply nonEmpty_iff, Hall.
Qed.

Lemma list_texts :
  forallb (fun f => nonEmpty (text f)) Destinations.fallbackSnippets = true.
Proof. vm_compute. reflexivity. Qed.

Lemma detail_texts :
  forallb (fun f => nonEmpty (text f)) Detail.fallbackDescriptions = true.
Proof. vm_compute. reflexivity. Qed.

(** What an override gives: a text that is not empty, or the property
    [constructor] that every object inherits. *)
Lemma override_result {E : Engine} (o : list (jsstring * jsstring))
      (name : jsstring) (r : result) :
  override o (normalizeForKey name) = Some r ->
  (exists s, r = Text s /\ s <> [])
  \/ (r = Inherited /\ normalizeForKey name = lit "constructor").
Proof.
  unfold override. destruct (Text.getOwn o (normalizeForKey name)) as [v|].
  - destruct (nonEmpty v) eqn:Hv; [|discriminate]. intros [= <-]. left.
    exists v. split; [reflexivity | now apply nonEmpty_iff].
  - destruct (inherited (normalizeForKey name)) eqn:Hi; [|discriminate].
    intros [= <-]. right. split; [reflexivity|].
    set (k := normalizeForKey name) in *.
    assert (Hk : forallb isLowerAlnum k = true) by apply stripNonAlnum_alnum.
    pose (d := {| id := None; name := Some k; description := None;
                  province_id := None; image_url := None;
                  location_lat := None; location_lng := None;
                  destination_images := None; province_name := None |}).
    assert (Hd : keyOf d = k).
    { rewrite keyOf_string. simpl. destruct (nonEmpty k) eqn:Hne.
      - now apply NormalForms.strip_lower_alnum.
      - destruct k; [|discriminate].
        now apply (NormalForms.strip_lower_alnum []). }
    pose proof (inherited_key d) as Hin. rewrite Hd, Hi in Hin.
    symmetry in Hin. now apply eqb_eq in Hin.
Qed.

End Texts.

(** X9.  On the destinations list page [getSnippet] never returns [null]
    and never an empty text, whatever the name and the province: every text
    of [fallbackSnippets] and of the overrides is not empty, and the
    sentence made at the end is not empty.  So the card of every
    destination has a text.  The only result that is not a text is the
    property [constructor] of [Object.prototype], read from the overrides
    for a name whose key is ["constructor"].  On the detail page
    [getFallback] gives the same kinds of result, or [null]. *)
Theorem card_text_is_never_missing {E : Engine} (name : jsstring)
        (provinceName : option jsstring) :
  (Destinations.getSnippet name provinceName <> Null
   /\ (forall s, Destinations.getSnippet name provinceName = Text s -> s <> [])
   /\ (Destinations.getSnippet name provinceName = Inherited ->
       normalizeForKey name = lit "constructor"))
  /\ (forall d,
         Destinations.cardSnippet d <> Null
         /\ forall s, Destinations.cardSnippet d = Text s -> s <> [])
  /\ ((forall s, Detail.getFallback name = Text s -> s <> [])
      /\ (Detail.getFallback name = Inherited ->
          normalizeForKey name = lit "constructor")).
Proof.
  assert (L : forall n p,
             (exists s, Destinations.getSnippet n p = Text s /\ s <> [])
             \/ (Destinations.getSnippet n p = Inherited
                 /\ normalizeForKey n = lit "constructor")).
  { intros n p. unfold Destinations.getSnippet.
    destruct (override Destinations.manualTextOverrides (normalizeForKey n))
      as [r|] eqn:Ho.
    - destruct (Texts.override_result _ _ Ho) as [[s [-> Hs]]|[-> Hk]].
      + left. now exists s.
      + now right.
    - left. destruct (findPattern Destinations.fallbackSnippets n)
        as [found|] eqn:Hf.
      + exists (text found). split; [reflexivity|].
        exact (Texts.table_texts _ _ Texts.list_texts Hf).
      + destruct (if truthyStr p
                  then findPattern Destinations.fallbackSnippets (orEmpty p)
                  else None) as [foundProv|] eqn:Hp.
        * exists (text foundProv). split; [reflexivity|].
          destruct (truthyStr p); [|discriminate].
          exact (Texts.table_texts _ _ Texts.list_texts Hp).
        * exists (Destinations.generated n p). split; [reflexivity|].
          unfold Destinations.generated. discriminate. }
  split; [|split].
  - destruct (L name provinceName) as [[s [-> Hs]]|[-> Hk]].
    + split; [discriminate|]. split; [|discriminate]. now intros ? [= <-].
    + split; [discriminate|]. split; [discriminate|]. now intros _.
  - intros d. unfold Destinations.cardSnippet.
    destruct (truthyStr (description d)) eqn:Hd.
    + split; [discriminate|]. intros s [= <-].
      destruct (description d) as [x|]; [|discriminate]. simpl in *.
      rewrite Hd. now apply nonEmpty_iff.
    + destruct (L (orEmpty (Resolver.name d)) None) as [[s [-> Hs]]|[-> Hk]].
      * split; [discriminate|]. now intros ? [= <-].
      * split; discriminate.
  - unfold Detail.getFallback.
    destruct (override Detail.manualTextOverrides (normalizeForKey name))
      as [r|] eqn:Ho.
    + destruct (Texts.override_result _ _ Ho) as [[s [-> Hs]]|[-> Hk]].
      * split; [now intros ? [= <-] | discriminate].
      * split; [discriminate | now intros _].
    + destruct (findPattern Detail.fallbackDescriptions name)
        as [found|] eqn:Hf.
      * split; [|discriminate]. intros s [= <-].
        exact (Texts.table_texts _ _ Texts.detail_texts Hf).
      * split; discriminate.
Qed.

(** A place that no table knows gets the sentence made from its name. *)
Lemma card_text_is_never_missing_witness :
  let name := lit "Zzyzx Corner" in
  Destinations.getSnippet (E := basicEngine) name None
  = Text (lit "Explore Zzyzx Corner. Discover highlights, local culture, and visitor tips for this destination.")
  /\ nonEmpty (lit "Explore Zzyzx Corner. Discover highlights, local culture, and visitor tips for this destination.") = true.
Proof.
  intros name.
  assert (H : Destinations.getSnippet (E := basicEngine) name None
              = Text (lit "Explore Zzyzx Corner. Discover highlights, local culture, and visitor tips for this destination."))
    by (vm_compute; reflexivity).
  split; [exact H|]. apply nonEmpty_iff.
  exact (proj1 (proj2 (proj1 (@card_text_is_never_missing basicEngine name None)))
               _ H).
Defined.

(** ** The entries of the overrides *)

Module Overrides.

Fixpoint distinctKeys (o : list (jsstring * jsstring)) : bool :=
  match o with
  | [] => true
  | (k, _) :: o' =>
    negb (existsb (fun p => eqb (fst p) k) o') && distinctKeys o'
  end.

Lemma override_entry (o : list (jsstring * jsstring)) (k v : jsstring) :
  distinctKeys o = true ->
  forallb (fun p => nonEmpty (snd p)) o = true ->
  In (k, v) o -> override o k = Some (Text v).
Proof.
  unfold override. induction o as [|[k' v'] o IH]; simpl; [intros _ _ []|].
  intros Hd Hv Hin. apply andb_true_iff in Hd as [Hk Hd].
  apply andb_true_iff in Hv as [Hv' Hv].
  destruct Hin as [[= -> ->]|Hin].
  - rewrite eqb_refl. simpl in Hv'. now rewrite Hv'.
  - destruct (eqb k' k) eqn:He; [|now apply IH].
    exfalso. apply eqb_eq in He. subst k'.
    apply negb_true_iff in Hk.
    assert (T : existsb (fun p => eqb (fst p) k) o = true); [|congruence].
    apply existsb_exists. exists (k, v). split; [exact Hin | apply eqb_refl].
Qed.

End Overrides.

(** X10.  Every entry of the two tables of text overrides is used: a name
    whose key is the key of the entry gets the text of the entry on that
    page, whichever patterns the name matches, and the key of every entry
    is its own key, so that such a name exists. *)
Theorem override_entries_are_used {E : Engine} (k v : jsstring) :
  (In (k, v) Destinations.manualTextOverrides ->
   normalizeForKey k = k
   /\ forall name p, normalizeForKey name = k ->
                     Destinations.getSnippet name p = Text v)
  /\ (In (k, v) Detail.manualTextOverrides ->
      normalizeForKey k = k
      /\ forall name, normalizeForKey name = k ->
                      Detail.getFallback name = Text v).
Proof.
  assert (A : forall o, forallb (fun p => forallb isLowerAlnum (fst p)) o = true ->
                        In (k, v) o -> normalizeForKey k = k).
  { intros o Ho Hin. rewrite forallb_forall in Ho.
    apply NormalForms.normalizeForKey_alnum. exact (Ho _ Hin). }
  split; intros Hin.
  - split; [apply (A Destinations.manualTextOverrides);
            [vm_compute; reflexivity | exact Hin]|].
    intros name p Hk. unfold Destinations.getSnippet. rewrite Hk.
    rewrite (@Overrides.override_entry Destinations.manualTextOverrides k v);
      [reflexivity | vm_compute; reflexivity | vm_compute; reflexivity
       | exact Hin].
  - split; [apply (A Detail.manualTextOverrides);
            [vm_compute; reflexivity | exact Hin]|].
    intros name Hk. unfold Detail.getFallback. rewrite Hk.
    rewrite (@Overrides.override_entry Detail.manualTextOverrides k v);
      [reflexivity | vm_compute; reflexivity | vm_compute; reflexivity
       | exact Hin].
Qed.

(** ["Diyaluma Falls"] has the key of the one entry of the list page;
    ["Pinnawela"] has the key of an entry of the detail page. *)
Lemma override_entries_are_used_witness :
  let falls := hd ([], []) Destinations.manualTextOverrides in
  (normalizeForKey (E := basicEngine) (lit "Diyaluma Falls") = fst falls
   /\ Destinations.getSnippet (E := basicEngine) (lit "Diyaluma Falls") None
      = Text (snd falls))
  /\ (normalizeForKey (E := basicEngine) (lit "Pinnawela") = lit "pinnawela"
      /\ Detail.getFallback (E := basicEngine) (lit "Pinnawela")
         = Text Detail.pinnawala).
Proof.
  intros falls.
  assert (H1 : In (fst falls, snd falls) Destinations.manualTextOverrides)
    by (vm_compute; left; reflexivity).
  assert (H2 : In (lit "pinnawela", Detail.pinnawala)
                  Detail.manualTextOverrides)
    by (vm_compute; do 3 right; left; reflexivity).
  assert (K1 : normalizeForKey (E := basicEngine) (lit "Diyaluma Falls")
               = fst falls) by (vm_compute; reflexivity).
  assert (K2 : normalizeForKey (E := basicEngine) (lit "Pinnawela")
               = lit "pinnawela") by (vm_compute; reflexivity).
  split; (split; [assumption|]).
  - exact (proj2 (proj1 (@override_entries_are_used basicEngine _ _) H1)
                 _ None K1).
  - exact (proj2 (proj2 (@override_entries_are_used basicEngine _ _) H2)
                 _ K2).
Defined.

(* ================================================================== *)
(** * Where the image of a destination comes from *)
(* ================================================================== *)

Module Images.

(** The url [u] is that of an image of the row, or of a local file. *)
Definition fromDatabase (d : Destination) (u : jsstring) : Prop :=
  exists images i,
    destination_images d = Some images /\ In i images /\ img_url i = u.

Definition fromFiles (entries : list Entry) (u : jsstring) : Prop :=
  exists e, In e entries /\ url e = u.

Lemma find_url (p : Entry -> bool) (entries : list Entry) (u : jsstring) :
  option_map url (JsArray.find p entries) = Some u -> fromFiles entries u.
Proof.
  unfold JsArray.find. destruct (find p entries) as [e|] eqn:Hf;
    [|discriminate].
  intros [= <-]. apply find_some in Hf as [Hin _]. now exists e.
Qed.

Lemma head_url (p : Entry -> bool) (entries : list Entry) (u : jsstring) :
  hd_error (map url (filter p entries)) = Some u -> fromFiles entries u.
Proof.
  destruct (filter p entries) as [|e l] eqn:Hf; [discriminate|].
  intros [= <-]. exists e. split; [|reflexivity].
  assert (Hin : In e (filter p entries)) by (rewrite Hf; now left).
  now apply filter_In in Hin.
Qed.

Section WithEngine.
Context {E : Engine}.

Lemma list_override_url (entries : list Entry) (name u : jsstring) :
  Destinations.findManualOverride entries name = Some u ->
  fromFiles entries u.
Proof.
  unfold Destinations.findManualOverride.
  repeat match goal with
         | |- context [if ?c then _ else _] => destruct c
         end; try discriminate; apply find_url.
Qed.

Lemma detail_override_url (entries : list Entry) (name u : jsstring) :
  Detail.findManualOverride entries name = Some u -> fromFiles entries u.
Proof.
  unfold Detail.findManualOverride.
  repeat match goal with
         | |- context [if ?c then _ else _] => destruct c
         end; try discriminate; apply find_url.
Qed.

Lemma list_province_url (entries : list Entry) (p : option jsstring)
      (u : jsstring) :
  Destinations.findProvinceImage entries p = Some u -> fromFiles entries u.
Proof.
  unfold Destinations.findProvinceImage.
  destruct (negb (truthyStr p)); [discriminate | apply find_url].
Qed.

Lemma detail_province_url (entries : list Entry) (d : Destination)
      (u : jsstring) :
  Detail.provinceFallback entries d = Some u -> fromFiles entries u.
Proof.
  unfold Detail.provinceFallback. destruct (province_name d); [|discriminate].
  unfold Detail.orElse.
  match goal with
  | |- context [truthyStr ?x] => destruct (truthyStr x); [|discriminate]
  end.
  apply find_url.
Qed.

Lemma list_orElse (a b : option jsstring) (u : jsstring) :
  Destinations.orElse a b = Some u -> a = Some u \/ b = Some u.
Proof. unfold Destinations.orElse. destruct (truthyStr a); auto. Qed.

Lemma detail_orElse (a b : option jsstring) (u : jsstring) :
  Detail.orElse a b = Some u -> a = Some u \/ b = Some u.
Proof. unfold Detail.orElse. destruct (truthyStr a); auto. Qed.

End WithEngine.
End Images.

(** X11.  Neither page makes up the url of an image: what the card of the
    destinations list page and the head of the detail page show is the url
    of an image of the row in the database, or the url of one of the local
    files.  When the row has a primary image whose url is not empty, both
    pages show that image, whatever the local files are. *)
Theorem shown_image_has_a_source {E : Engine} (entries : list Entry)
        (d : Destination) :
  (forall u,
      Destinations.cardImage entries d = Returns (Some u) ->
      Images.fromDatabase d u \/ Images.fromFiles entries u)
  /\ (forall u,
         Detail.primaryImageUrl entries d = Returns (Some u) ->
         Images.fromDatabase d u \/ Images.fromFiles entries u)
  /\ (forall images p,
         destination_images d = Some images ->
         JsArray.find is_primary images = Some p ->
         img_url p <> [] ->
         Destinations.cardImage entries d = Returns (Some (img_url p))
         /\ Detail.primaryImageUrl entries d = Returns (Some (img_url p))).
Proof.
  split; [|split].
  - intros u. unfold Destinations.cardImage.
    set (images := match destination_images d with
                   | Some l => l | None => [] end).
    assert (Hdb : forall i, In i images -> Images.fromDatabase d (img_url i)).
    { intros i Hi. unfold images in Hi.
      destruct (destination_images d) as [l|] eqn:Hl; [|destruct Hi].
      now exists l, i. }
    match goal with
    | |- context [truthyStr ?l] => destruct (truthyStr l) eqn:Ht
    end.
    + intros [= H].
      destruct (Images.list_orElse _ _ H) as [H1|H1];
        [destruct (Images.list_orElse _ _ H1) as [H2|H2];
         [destruct (Images.list_orElse _ _ H2) as [H3|H3]|]|].
      * left. unfold JsArray.find in H3.
        destruct (find is_primary images) as [i|] eqn:Hf; [|discriminate].
        injection H3 as <-. apply find_some in Hf as [Hi _].
        now apply Hdb.
      * left. destruct images as [|i l]; [discriminate|].
        injection H3 as <-. apply Hdb. now left.
      * right. exact (@Images.list_override_url E _ _ _ H2).
      * right. exact (@Images.head_url _ _ _ H1).
    + destruct (province_name d) as [p|]; [|discriminate].
      intros [= H]. right. exact (@Images.list_province_url E _ _ _ H).
  - intros u. unfold Detail.primaryImageUrl.
    destruct (destination_images d) as [images|] eqn:Hi; [|discriminate].
    destruct (JsArray.find is_primary images) as [i|] eqn:Hf.
    + intros [= <-]. left. apply find_some in Hf as [Hin _].
      now exists images, i.
    + intros [= H]. right.
      destruct (Images.detail_orElse _ _ H) as [H1|H1]; [|discriminate].
      destruct (Images.detail_orElse _ _ H1) as [H2|H2];
        [destruct (Images.detail_orElse _ _ H2) as [H3|H3]|].
      * exact (@Images.head_url _ _ _ H3).
      * exact (@Images.detail_override_url E _ _ _ H3).
      * exact (@Images.detail_province_url E _ _ _ H2).
  - intros images p Hi Hf Hne. apply nonEmpty_iff in Hne. split.
    + unfold Destinations.cardImage. rewrite Hi, Hf.
      unfold Destinations.orElse. simpl.
      repeat (rewrite Hne; cbn [truthyStr]). reflexivity.
    + unfold Detail.primaryImageUrl. now rewrite Hi, Hf.
Qed.

(** The row ["Aluvihare Temple"] has no image in the database; the card
    shows the file found by the override. *)
Lemma shown_image_has_a_source_witness :
  let entries :=
    localImageEntries (E := basicEngine)
                      [Examples.templeFile; Examples.aluvihareFile;
                       Examples.aluvihareTempleFile] in
  Destinations.cardImage (E := basicEngine) entries Examples.aluvihare
  = Returns (Some (lit "/assets/aluvihare.jpg"))
  /\ existsb (fun e => eqb (url e) (lit "/assets/aluvihare.jpg")) entries
     = true.
Proof.
  intros entries.
  assert (H : Destinations.cardImage (E := basicEngine) entries
                                     Examples.aluvihare
              = Returns (Some (lit "/assets/aluvihare.jpg")))
    by (vm_compute; reflexivity).
  split; [exact H|].
  destruct (proj1 (@shown_image_has_a_source basicEngine entries
                                             Examples.aluvihare) _ H)
    as [[images [i [Hi [Hin _]]]]|[e [He Hu]]].
  - vm_compute in Hi. injection Hi as <-. destruct Hin.
  - apply existsb_exists. exists e. split; [exact He|].
    apply eqb_eq. exact Hu.
Defined.



(* ================================================================== *)
(** * The entry of a local file *)
(* ================================================================== *)

Module Files.

Definition notSlash (c : N) : bool := negb (c =? 47)%N.
Definition notDot (c : N) : bool := negb (c =? 46)%N.

Lemma splitSlashGo_cons (s acc : jsstring) : splitSlashGo s acc <> [].
Proof.
  revert acc. induction s as [|c s IH]; intros acc; simpl; [discriminate|].
  destruct (c =? 47)%N; [discriminate | apply IH].
Qed.

Lemma last_cons A (x d : A) (l : list A) : l <> [] -> last (x :: l) d = last l d.
Proof. destruct l; [contradiction | reflexivity]. Qed.

(** The last piece of [path.split('/')] is what follows the last slash. *)
Lemma splitSlashGo_last (s : jsstring) :
  forall acc, forallb notSlash acc = true ->
  exists dir,
    rev acc ++ s = dir ++ last (splitSlashGo s acc) []
    /\ forallb notSlash (last (splitSlashGo s acc) []) = true
    /\ (dir = [] \/ exists d, dir = d ++ [47%N]).
Proof.
  induction s as [|c s IH]; intros acc Hacc; simpl.
  - exists []. rewrite app_nil_r. split; [reflexivity|]. split; [|now left].
    rewrite forallb_forall in *. intros x Hx. apply Hacc. now apply in_rev.
  - destruct (N.eqb_spec c 47) as [->|Hc].
    + rewrite last_cons by apply splitSlashGo_cons.
      destruct (IH [] eq_refl) as [dir [H1 [H2 H3]]]. simpl in H1.
      exists (rev acc ++ 47%N :: dir). split; [|split].
      * rewrite <- app_assoc. cbn [app]. do 2 f_equal. exact H1.
      * exact H2.
      * right. destruct H3 as [->|[d ->]].
        -- now exists (rev acc).
        -- exists (rev acc ++ 47%N :: d). now rewrite <- app_assoc.
    + destruct (IH (c :: acc)) as [dir [H1 [H2 H3]]].
      * simpl. unfold notSlash at 1.
        destruct (N.eqb_spec c 47); [contradiction | exact Hacc].
      * exists dir. split; [|now split]. rewrite <- H1. cbn [rev].
        now rewrite <- app_assoc.
Qed.

Definition noDotSlash (s : jsstring) : bool :=
  forallb (fun x => negb ((x =? 47) || (x =? 46))%N) s.

(** [replace(/\.[^/.]+$/, '')] removes the last dot and what follows it,
    when something follows it and has no slash. *)
Lemma stripExtension_found (base ext : jsstring) :
  ext <> [] -> noDotSlash ext = true ->
  stripExtension (base ++ 46%N :: ext) = base.
Proof.
  intros Hne Hext. induction base as [|c base IH]; simpl.
  - apply nonEmpty_iff in Hne. rewrite Hne.
    unfold noDotSlash in Hext. now rewrite Hext.
  - rewrite IH.
    assert (Hf : forallb (fun x => negb ((x =? 47) || (x =? 46))%N)
                         (base ++ 46%N :: ext) = false).
    { rewrite forallb_app. simpl. now rewrite andb_false_r. }
    rewrite Hf. now rewrite !andb_false_r.
Qed.

Lemma stripExtension_none (f : jsstring) :
  (forall base ext, f = base ++ 46%N :: ext ->
                    ext = [] \/ noDotSlash ext = false) ->
  stripExtension f = f.
Proof.
  induction f as [|c f IH]; intros H; simpl; [reflexivity|].
  destruct (N.eqb_spec c 46) as [->|Hc]; simpl.
  - destruct (H [] f eq_refl) as [->|Hf]; [reflexivity|].
    unfold noDotSlash in Hf. rewrite Hf, andb_false_r.
    rewrite IH; [reflexivity|].
    intros base ext ->. apply (H (46%N :: base) ext). reflexivity.
  - rewrite IH; [reflexivity|].
    intros base ext ->. apply (H (c :: base) ext). reflexivity.
Qed.

Lemma noDotSlash_parts (s : jsstring) :
  forallb notSlash s = true -> forallb notDot s = true -> noDotSlash s = true.
Proof.
  unfold noDotSlash. rewrite !forallb_forall. intros H1 H2 x Hx.
  specialize (H1 x Hx). specialize (H2 x Hx). unfold notSlash, notDot in *.
  now rewrite negb_orb, H1, H2.
Qed.

End Files.

(** X13.  The entry of a local file keeps the path and the url; its file
    name is what follows the last slash of the path; its key is the key of
    the file name without its extension, where the extension is the last
    dot and what follows it when something follows it: a file name with no
    dot, or that ends with a dot, is taken whole. *)
Theorem entry_of_file {E : Engine} (p u : jsstring) :
  let e := mkEntry (p, u) in
  (path e = p /\ url e = u)
  /\ (exists dir,
         p = dir ++ filename e /\ (dir = [] \/ exists d, dir = d ++ [47%N]))
  /\ forallb Files.notSlash (filename e) = true
  /\ (forall base ext,
         filename e = base ++ 46%N :: ext ->
         ext <> [] -> forallb Files.notDot ext = true ->
         key e = normalizeForKey base)
  /\ ((forall base ext,
          filename e = base ++ 46%N :: ext ->
          ext = [] \/ forallb Files.notDot ext = false) ->
      key e = normalizeForKey (filename e)).
Proof.
  intros e. subst e. unfold mkEntry. cbn [path url filename key].
  unfold splitSlash.
  destruct (@Files.splitSlashGo_last p [] eq_refl) as [dir [H1 [H2 H3]]].
  simpl in H1. set (f := last (splitSlashGo p []) []) in *.
  split; [now split|]. split; [now exists dir|]. split; [exact H2|]. split.
  - intros base ext Hf Hne Hdot. f_equal. rewrite Hf.
    apply Files.stripExtension_found; [exact Hne|].
    apply Files.noDotSlash_parts; [|exact Hdot].
    rewrite Hf, forallb_app in H2. apply andb_true_iff in H2 as [_ H2].
    simpl in H2. exact H2.
  - intros H. f_equal. apply Files.stripExtension_none.
    intros base ext Hf. destruct (H base ext Hf) as [->|Hd]; [now left|].
    right. unfold Files.noDotSlash.
    destruct (forallb (fun x => negb ((x =? 47) || (x =? 46))%N) ext) eqn:Ha;
      [|reflexivity].
    rewrite <- Hd. symmetry. apply forallb_forall. intros x Hx.
    rewrite forallb_forall in Ha. specialize (Ha x Hx).
    rewrite negb_orb in Ha. apply andb_true_iff in Ha as [_ Ha]. exact Ha.
Qed.

(** The file [lovers.leap.jpg]: the extension is [.jpg], the key is
    ["loversleap"]. *)
Lemma entry_of_file_witness :
  let e := mkEntry (E := basicEngine)
                   (lit "/src/pictures/lovers.leap.jpg", lit "/assets/l.jpg") in
  filename e = lit "lovers.leap" ++ 46%N :: lit "jpg"
  /\ key e = normalizeForKey (E := basicEngine) (lit "lovers.leap")
  /\ key e = lit "loversleap".
Proof.
  intros e.
  assert (Hf : filename e = lit "lovers.leap" ++ 46%N :: lit "jpg")
    by (vm_compute; reflexivity).
  split; [exact Hf|]. split; [|vm_compute; reflexivity].
  refine (proj1 (proj2 (proj2 (proj2
            (@entry_of_file basicEngine
               (lit "/src/pictures/lovers.leap.jpg") (lit "/assets/l.jpg")))))
            (lit "lovers.leap") (lit "jpg") Hf _ _).
  - vm_compute. discriminate.
  - vm_compute. reflexivity.
Defined.

(* ================================================================== *)
(** * The script that assigns the local images *)
(* ================================================================== *)

Module Assign.
Import Regex.

(** A file under [src/pictures] is given by its path from the working
    directory, with slashes; the absolute path recorded as [full] is not
    read afterwards. *)
Record FileRecord := {
  rel : jsstring;
  filename : jsstring;
  key : jsstring
}.

Record Assignment := {
  dest_id : option jsstring;
  dest_name : option jsstring;
  image_rel : jsstring
}.

(** [\.(jpg|jpeg|png|webp|gif)] *)
Definition imageExtension : re :=
  Seq (Chr 46) (anyOf [str "jpg"; str "jpeg"; str "png"; str "webp"; str "gif"]).

(** Does [r] match the whole of [s]? *)
Fixpoint matchAll (i : bool) (r : re) (s : jsstring) : bool :=
  match s with
  | [] => nullable r
  | c :: s' => matchAll i (deriv i c r) s'
  end.

(** [/r$/.test(s)] *)
Fixpoint testAtEnd (i : bool) (r : re) (s : jsstring) : bool :=
  matchAll i r s ||
  match s with
  | [] => false
  | _ :: s' => testAtEnd i r s'
  end.

(** [s.replace(/r$/, '')]: the first place from which [r] matches up to the
    end of [s] is where [s] is cut. *)
Fixpoint replaceAtEnd (i : bool) (r : re) (s : jsstring) : jsstring :=
  if matchAll i r s then []
  else
    match s with
    | [] => []
    | c :: s' => c :: replaceAtEnd i r s'
    end.

Section WithEngine.
Context {E : Engine}.

(** [function normalize(s = '') { return String(s || '').toLowerCase()
    .replace(/[^a-z0-9]/g, '').trim(); }], on a string. *)
Definition normalize (s : jsstring) : jsstring :=
  trim (stripNonAlnum (toLowerCase s)).

Definition fileRecord (p : jsstring) : FileRecord :=
  let filename := last (splitSlash p) [] in
  {| rel := 47%N :: p;
     filename := filename;
     key := normalize (replaceAtEnd true imageExtension filename) |}.

Definition fileRecords (files : list jsstring) : list FileRecord :=
  map fileRecord (filter (testAtEnd true imageExtension) files).

(** [fileRecords.find((fr) => fr.key.includes(k))] *)
Definition findKey (fileRecords : list FileRecord) (k : jsstring)
  : option FileRecord :=
  JsArray.find (fun fr => includes (key fr) k) fileRecords.

(** The loop over the words of the name, left at the first word found. *)
Fixpoint firstPart (fileRecords : list FileRecord) (parts : list jsstring)
  : option FileRecord :=
  match parts with
  | [] => None
  | p :: parts' =>
    match findKey fileRecords (normalize p) with
    | Some m => Some m
    | None => firstPart fileRecords parts'
    end
  end.

Definition partsOf (name : jsstring) : list jsstring :=
  filterBoolean (splitNonAlnum (toLowerCase name)).

Definition matchOf (fileRecords : list FileRecord) (dest : Destination)
  : option FileRecord :=
  let n := normalize (orEmpty (name dest)) in
  match findKey fileRecords n with
  | Some m => Some m
  | None => firstPart fileRecords (partsOf (orEmpty (name dest)))
  end.

Fixpoint assignments (fileRecords : list FileRecord)
         (destinations : list Destination) : list Assignment :=
  match destinations with
  | [] => []
  | dest :: rest =>
    match matchOf fileRecords dest with
    | Some m =>
      {| dest_id := id dest; dest_name := name dest; image_rel := rel m |}
        :: assignments fileRecords rest
    | None => assignments fileRecords rest
    end
  end.

End WithEngine.

(** ** The extension of an image file *)

Lemma matchAll_spec (i : bool) (r : re) (s : jsstring) :
  matchAll i r s = true <-> matches i r s.
Proof.
  revert r. induction s as [|c s IH]; intros r; simpl.
  - apply nullable_spec.
  - rewrite IH. apply deriv_spec.
Qed.

Lemma testAtEnd_spec (i : bool) (r : re) (s : jsstring) :
  testAtEnd i r s = true <-> exists pre t, s = pre ++ t /\ matches i r t.
Proof.
  induction s as [|c s IH]; cbn [testAtEnd].
  - rewrite orb_false_r, matchAll_spec. split.
    + intros H. now exists [], [].
    + intros [pre [t [Hs H]]]. symmetry in Hs.
      apply app_eq_nil in Hs as [_ ->]. exact H.
  - rewrite orb_true_iff, matchAll_spec, IH. split.
    + intros [H|[pre [t [-> H]]]].
      * now exists [], (c :: s).
      * now exists (c :: pre), t.
    + intros [[|x pre] [t [Hs H]]]; simpl in Hs.
      * left. now rewrite Hs.
      * right. injection Hs as _ ->. now exists pre, t.
Qed.

Lemma canon_cases (c : N) :
  ((97 <= c <= 122)%N /\ canon c = (c - 32)%N)
  \/ (~ (97 <= c <= 122)%N /\ canon c = c).
Proof.
  unfold canon. destruct (N.leb_spec 97 c) as [Ha|Ha];
    [destruct (N.leb_spec c 122) as [Hb|Hb]|]; cbn [andb];
    [left | right | right]; split; try reflexivity; lia.
Qed.

Lemma dot_only (c : N) : sameChar true 46 c = true -> c = 46%N.
Proof.
  unfold sameChar. intros H. apply N.eqb_eq in H.
  destruct (canon_cases 46) as [[H1 _]|[_ H1]]; [lia|].
  destruct (canon_cases c) as [[H2 H3]|[_ H3]]; lia.
Qed.

Lemma letter_only (p c : N) :
  (97 <= p <= 122)%N -> sameChar true p c = true ->
  negb ((c =? 47) || (c =? 46))%N = true.
Proof.
  intros Hp. unfold sameChar. intros H. apply N.eqb_eq in H.
  destruct (canon_cases p) as [[_ H1]|[H1 _]]; [|lia].
  destruct (N.eqb_spec c 47) as [Hc|Hc];
    [destruct (canon_cases c) as [[H2 H3]|[_ H3]]; lia|].
  destruct (N.eqb_spec c 46) as [Hd|Hd];
    [destruct (canon_cases c) as [[H2 H3]|[_ H3]]; lia|].
  reflexivity.
Qed.

Ltac letters :=
  repeat match goal with
         | H : sameChar true _ _ = true |- _ =>
           apply letter_only in H; [|lia]
         end.

(** What the pattern matches: a dot and a few letters. *)
Lemma extension_shape (t : jsstring) :
  matches true imageExtension t ->
  exists e, t = 46%N :: e /\ e <> [] /\ Files.noDotSlash e = true.
Proof.
  intros H. unfold imageExtension in H. inv H.
  match goal with H : matches _ (Chr _) _ |- _ => inv H end.
  match goal with H : sameChar true 46 _ = true |- _ =>
    apply dot_only in H; subst end.
  match goal with H : matches _ _ ?x |- _ => exists x end.
  split; [reflexivity|].
  match goal with H : matches _ _ _ |- _ => vm_compute in H end.
  repeat match goal with
         | H : matches _ (Alt _ _) _ |- _ => inv H
         | H : matches _ (Seq _ _) _ |- _ => inv H
         | H : matches _ (Chr _) _ |- _ => inv H
         end;
    letters; (split; [discriminate|]); unfold Files.noDotSlash; simpl;
    repeat match goal with
           | H : negb _ = true |- _ => rewrite H; clear H
           end; reflexivity.
Qed.

Lemma replaceAtEnd_found (base t : jsstring) :
  matches true imageExtension t ->
  replaceAtEnd true imageExtension (base ++ t) = base.
Proof.
  intros Ht. destruct (extension_shape Ht) as [e [-> [Hne He]]].
  induction base as [|c base IH].
  - simpl app. apply matchAll_spec in Ht. destruct e; [contradiction|].
    cbn [replaceAtEnd]. now rewrite Ht.
  - cbn [app replaceAtEnd].
    destruct (matchAll true imageExtension (c :: base ++ 46%N :: e)) eqn:Hm.
    + exfalso. apply matchAll_spec in Hm.
      destruct (extension_shape Hm) as [e' [He' [_ Hd]]].
      injection He' as -> <-. unfold Files.noDotSlash in Hd.
      rewrite forallb_app in Hd. simpl in Hd.
      now rewrite andb_false_r in Hd.
    + now rewrite IH.
Qed.

Lemma splitSlashGo_plain (t acc : jsstring) :
  forallb Files.notSlash t = true -> splitSlashGo t acc = [rev acc ++ t].
Proof.
  revert acc. induction t as [|c t IH]; intros acc; simpl.
  - now rewrite app_nil_r.
  - unfold Files.notSlash at 1. destruct (c =? 47)%N; [discriminate|].
    simpl. intros H. rewrite IH by exact H. simpl.
    now rewrite <- app_assoc.
Qed.

Lemma splitSlashGo_suffix (pre t : jsstring) :
  forallb Files.notSlash t = true ->
  forall acc, last (splitSlashGo (pre ++ t) acc) []
              = last (splitSlashGo pre acc) [] ++ t.
Proof.
  intros Ht. induction pre as [|c pre IH]; intros acc; simpl.
  - rewrite splitSlashGo_plain by exact Ht. reflexivity.
  - destruct (c =? 47)%N.
    + rewrite !Files.last_cons by apply Files.splitSlashGo_cons. apply IH.
    + apply IH.
Qed.

Lemma noDotSlash_notSlash (e : jsstring) :
  Files.noDotSlash e = true -> forallb Files.notSlash e = true.
Proof.
  unfold Files.noDotSlash. rewrite !forallb_forall. intros H x Hx.
  specialize (H x Hx). rewrite negb_orb in H.
  now apply andb_true_iff in H as [H _].
Qed.

(** An image file has a file name that ends with the extension. *)
Lemma image_filename (p : jsstring) :
  testAtEnd true imageExtension p = true ->
  exists base e,
    last (splitSlash p) [] = base ++ 46%N :: e
    /\ e <> [] /\ Files.noDotSlash e = true
    /\ matches true imageExtension (46%N :: e).
Proof.
  intros H. apply testAtEnd_spec in H as [pre [t [-> Ht]]].
  destruct (extension_shape Ht) as [e [-> [Hne He]]].
  exists (last (splitSlashGo pre []) []), e.
  split; [|now repeat split]. unfold splitSlash.
  apply splitSlashGo_suffix. simpl. now apply noDotSlash_notSlash.
Qed.

Section Matching.
Context {E : Engine}.

Lemma normalize_part (t : jsstring) :
  forallb isLowerAlnum t = true -> normalize t = t.
Proof.
  intros H. unfold normalize. rewrite trim_stripNonAlnum.
  now apply NormalForms.strip_lower_alnum.
Qed.

Lemma findKey_Some (frs : list FileRecord) (k : jsstring) (m : FileRecord) :
  findKey frs k = Some m -> In m frs /\ occursIn k (key m).
Proof.
  unfold findKey, JsArray.find. intros H. apply find_some in H as [Hin H].
  split; [exact Hin | now apply includes_occursIn].
Qed.

Lemma findKey_None (frs : list FileRecord) (k : jsstring) :
  findKey frs k = None <-> forall fr, In fr frs -> ~ occursIn k (key fr).
Proof.
  unfold findKey, JsArray.find. split.
  - intros H fr Hin Ho. apply includes_occursIn in Ho.
    pose proof (find_none _ _ H fr Hin) as Hn. simpl in Hn. congruence.
  - intros H. destruct (find _ frs) as [m|] eqn:Hf; [|reflexivity].
    apply find_some in Hf as [Hin Hm]. apply includes_occursIn in Hm.
    now destruct (H m Hin).
Qed.

Lemma firstPart_Some (frs : list FileRecord) (parts : list jsstring)
      (m : FileRecord) :
  Forall (fun t => forallb isLowerAlnum t = true) parts ->
  firstPart frs parts = Some m ->
  In m frs /\ exists t, In t parts /\ occursIn t (key m).
Proof.
  induction parts as [|p parts IH]; simpl; [discriminate|].
  intros Hall. inversion Hall as [|? ? Hp Hall']; subst.
  rewrite (normalize_part _ Hp).
  destruct (findKey frs p) as [m'|] eqn:Hf.
  - intros [= <-]. apply findKey_Some in Hf as [Hin Ho]. split; [exact Hin|].
    exists p. split; [now left | exact Ho].
  - intros H. destruct (IH Hall' H) as [Hin [t [Ht Ho]]].
    split; [exact Hin|]. exists t. split; [now right | exact Ho].
Qed.

Lemma firstPart_None (frs : list FileRecord) (parts : list jsstring) :
  Forall (fun t => forallb isLowerAlnum t = true) parts ->
  (firstPart frs parts = None <->
   forall fr, In fr frs -> forall t, In t parts -> ~ occursIn t (key fr)).
Proof.
  induction parts as [|p parts IH]; simpl.
  - intros _. split; [intros _ fr _ t [] | reflexivity].
  - intros Hall. inversion Hall as [|? ? Hp Hall']; subst.
    rewrite (normalize_part _ Hp).
    destruct (findKey frs p) as [m'|] eqn:Hf.
    + split; [discriminate|]. intros H.
      apply findKey_Some in Hf as [Hin Ho].
      now destruct (H m' Hin p (or_introl eq_refl)).
    + rewrite (IH Hall'). split.
      * intros H fr Hin t [<-|Ht]; [|now apply H].
        now apply (proj1 (findKey_None frs p) Hf).
      * intros H fr Hin t Ht. apply (H fr Hin). now right.
Qed.

Lemma parts_alnum (name : jsstring) :
  Forall (fun t => forallb isLowerAlnum t = true) (partsOf name).
Proof.
  apply Forall_forall. intros t Ht.
  now apply (proj1 (tokensOf_spec name) t Ht).
Qed.

End Matching.
End Assign.

(** X14.  In the script that assigns local images, the file given to a
    destination is a file whose key contains the key of the name or one of
    the words of the name; a destination is left without a file exactly
    when no key contains the key of its name nor any of its words; and a
    destination whose name has no letter and no digit, or no name at all,
    is given the first file, whatever it shows.  Every assignment pairs a
    destination of the input with a file, and there is at most one for
    each destination. *)
Theorem assigned_file_matches {E : Engine}
        (fileRecords : list Assign.FileRecord) :
  (forall dest,
      let n := Assign.normalize (orEmpty (name dest)) in
      let parts := Assign.partsOf (orEmpty (name dest)) in
      (forall m,
          Assign.matchOf fileRecords dest = Some m ->
          In m fileRecords
          /\ (occursIn n (Assign.key m)
              \/ exists t, In t parts /\ occursIn t (Assign.key m)))
      /\ (Assign.matchOf fileRecords dest = None <->
          forall fr, In fr fileRecords ->
                     ~ occursIn n (Assign.key fr)
                     /\ forall t, In t parts -> ~ occursIn t (Assign.key fr))
      /\ (n = [] -> Assign.matchOf fileRecords dest = hd_error fileRecords))
  /\ (forall destinations,
         (length (Assign.assignments fileRecords destinations)
          <= length destinations)%nat
         /\ forall a,
           In a (Assign.assignments fileRecords destinations) ->
           exists dest m,
             In dest destinations
             /\ Assign.matchOf fileRecords dest = Some m
             /\ a = {| Assign.dest_id := id dest;
                       Assign.dest_name := name dest;
                       Assign.image_rel := Assign.rel m |}).
Proof.
  split.
  - intros dest. cbv zeta. unfold Assign.matchOf.
    pose proof (Assign.parts_alnum (orEmpty (name dest))) as Hal.
    pose proof (tokensOf_spec (orEmpty (name dest))) as [Hne Hc].
    change (Detail.tokensOf (orEmpty (name dest)))
      with (Assign.partsOf (orEmpty (name dest))) in Hne, Hc.
    set (n := Assign.normalize (orEmpty (name dest))) in *.
    set (parts := Assign.partsOf (orEmpty (name dest))) in *.
    split; [|split].
    + intros m. destruct (Assign.findKey fileRecords n) as [m'|] eqn:Hf.
      * intros [= <-]. apply Assign.findKey_Some in Hf as [Hin Ho].
        split; [exact Hin | now left].
      * intros H. destruct (Assign.firstPart_Some _ Hal H) as [Hin Ht].
        split; [exact Hin | now right].
    + destruct (Assign.findKey fileRecords n) as [m'|] eqn:Hf.
      * split; [discriminate|]. intros H.
        apply Assign.findKey_Some in Hf as [Hin Ho].
        now destruct (proj1 (H m' Hin)).
      * rewrite (Assign.firstPart_None _ Hal). split.
        -- intros H fr Hin. split; [|now apply H].
           now apply (proj1 (Assign.findKey_None fileRecords n) Hf).
        -- intros H fr Hin. now apply (H fr Hin).
    + intros Hn. rewrite Hn. unfold Assign.findKey, JsArray.find.
      destruct fileRecords as [|fr frs]; simpl.
      * assert (Hp : parts = []).
        { unfold n, Assign.normalize in Hn. rewrite trim_stripNonAlnum in Hn.
          rewrite Hn in Hc. destruct parts as [|t ts]; [reflexivity|].
          destruct (Hne t (or_introl eq_refl)) as [Ht _].
          simpl in Hc. destruct t; [contradiction | discriminate]. }
        now rewrite Hp.
      * now rewrite includes_nil.
  - intros destinations. split.
    + induction destinations as [|dest rest IH]; simpl; [lia|].
      destruct (Assign.matchOf fileRecords dest); simpl; lia.
    + induction destinations as [|dest rest IH]; simpl; [intros a []|].
      intros a. destruct (Assign.matchOf fileRecords dest) as [m|] eqn:Hm.
      * intros [<-|Ha].
        -- exists dest, m. repeat split; auto.
        -- destruct (IH a Ha) as [d [m' [Hd H]]]. exists d, m'.
           split; [now right | exact H].
      * intros Ha. destruct (IH a Ha) as [d [m' [Hd H]]]. exists d, m'.
        split; [now right | exact H].
Qed.

(** With [zebra.png] and [sigiriya.jpg], the destination named ["?!"] is
    given [zebra.png]. *)
Lemma assigned_file_matches_witness :
  let frs := Assign.fileRecords (E := basicEngine)
               [lit "src/pictures/zebra.png"; lit "src/pictures/sigiriya.jpg"] in
  let dest := Examples.bare "d1" "?!" in
  Assign.normalize (E := basicEngine) (orEmpty (name dest)) = []
  /\ Assign.matchOf (E := basicEngine) frs dest = hd_error frs
  /\ option_map Assign.rel (hd_error frs) = Some (lit "/src/pictures/zebra.png").
Proof.
  intros frs dest.
  assert (Hn : Assign.normalize (E := basicEngine) (orEmpty (name dest)) = [])
    by (vm_compute; reflexivity).
  split; [exact Hn|]. split; [|vm_compute; reflexivity].
  exact (proj2 (proj2 (proj1 (@assigned_file_matches basicEngine frs) dest)) Hn).
Defined.

(** X15.  For an image file whose name is of the Basic Latin block, the key
    the script gives the file is the key the pages give it: the extension
    the script removes is the one the pages remove, and the two
    normalizations agree on what is left. *)
Theorem script_key_is_page_key {E : Engine} (p u : jsstring) :
  Assign.testAtEnd true Assign.imageExtension p = true ->
  BasicLatin.plain (last (splitSlash p) []) = true ->
  let fr := Assign.fileRecord p in
  let e := mkEntry (Assign.rel fr, u) in
  Assign.filename fr = filename e /\ Assign.key fr = key e.
Proof.
  intros Himg Hplain fr e. subst fr e.
  unfold Assign.fileRecord, mkEntry.
  cbn [Assign.rel Assign.filename Assign.key filename key].
  assert (Hf : last (splitSlash (47%N :: p)) [] = last (splitSlash p) []).
  { unfold splitSlash.
    change (splitSlashGo (47%N :: p) []) with ([] :: splitSlashGo p []).
    now rewrite Files.last_cons by apply Files.splitSlashGo_cons. }
  rewrite Hf. split; [reflexivity|].
  destruct (Assign.image_filename p Himg) as [base [x [Hb [Hne [Hx Hm]]]]].
  rewrite Hb in *.
  rewrite (Assign.replaceAtEnd_found base Hm).
  rewrite (Files.stripExtension_found base Hne Hx).
  unfold Assign.normalize. rewrite trim_stripNonAlnum.
  symmetry. apply NormalForms.normalizeForKey_ascii.
  unfold BasicLatin.plain in Hplain. rewrite forallb_app in Hplain.
  now apply andb_true_iff in Hplain as [Hplain _].
Qed.

(** [Lovers-Leap.JPG] has the key ["loversleap"] in the script and on the
    pages. *)
Lemma script_key_is_page_key_witness :
  let p := lit "src/pictures/falls/Lovers-Leap.JPG" in
  Assign.testAtEnd true Assign.imageExtension p = true
  /\ Assign.key (Assign.fileRecord (E := basicEngine) p)
     = key (mkEntry (E := basicEngine) (47%N :: p, lit "/assets/l.jpg"))
  /\ Assign.key (Assign.fileRecord (E := basicEngine) p) = lit "loversleap".
Proof.
  intros p.
  assert (H1 : Assign.testAtEnd true Assign.imageExtension p = true)
    by (vm_compute; reflexivity).
  assert (H2 : BasicLatin.plain (last (splitSlash p) []) = true)
    by (vm_compute; reflexivity).
  split; [exact H1|]. split; [|vm_compute; reflexivity].
  exact (proj2 (@script_key_is_page_key basicEngine p (lit "/assets/l.jpg")
                                        H1 H2)).
Defined.

(* ================================================================== *)
(** * Who is an administrator *)
(* ================================================================== *)

Module UseAdmin.

(** [s.split(',')] *)
Fixpoint splitCommaGo (s acc : jsstring) : list jsstring :=
  match s with
  | [] => [rev acc]
  | c :: s' =>
    if (c =? 44)%N then rev acc :: splitCommaGo s' []
    else splitCommaGo s' (c :: acc)
  end.

Definition splitComma (s : jsstring) : list jsstring := splitCommaGo s [].

(** The user of the session: its [email] may be missing. *)
Record User := { user_id : jsstring; email : option jsstring }.

(** The answer to the query on [admin_users]: the rows, or an error. *)
Inductive answer :=
| Rows (data : option (list jsstring))
| Failed.

Section WithEngine.
Context {E : Engine}.

(** [(import.meta.env.VITE_ADMIN_EMAILS || '').split(',')
    .map(s => s.trim().toLowerCase()).filter(Boolean)] *)
Definition adminEmails (env : option jsstring) : list jsstring :=
  filterBoolean (map (fun s => toLowerCase (trim s)) (splitComma (orEmpty env))).

(** [adminEmails.includes((user.email || '').toLowerCase())] *)
Definition listed (env : option jsstring) (u : User) : bool :=
  existsb (eqb (toLowerCase (orEmpty (email u)))) (adminEmails env).

(** The value given to [setIsAdmin] by [check], when nothing throws. *)
Definition check (user : option User) (admins : answer)
           (env : option jsstring) : bool :=
  match user with
  | None => false
  | Some u =>
    match admins with
    | Rows (Some (_ :: _)) => true
    | _ => listed env u
    end
  end.

Lemma toLowerCase_nil : toLowerCase [] = [].
Proof. now rewrite toLowerCase_ascii. Qed.

End WithEngine.
End UseAdmin.

(** X16.  A visitor without a session is never an administrator.  A user
    is one when the table [admin_users] has a row for the user; otherwise,
    only when the lower-cased address of the user is, lower-cased and
    without the spaces around it, one of the pieces of
    [VITE_ADMIN_EMAILS] between commas.  So a user without an address is
    an administrator only through the table, and when the variable is
    missing or empty nobody is one through the list. *)
Theorem admin_only_by_table_or_list {E : Engine} (env : option jsstring) :
  UseAdmin.check None = (fun _ _ => false)
  /\ (forall u rows admins,
         admins = UseAdmin.Rows (Some rows) -> rows <> [] ->
         UseAdmin.check (Some u) admins env = true)
  /\ (forall u admins,
         UseAdmin.check (Some u) admins env = true ->
         (exists rows, admins = UseAdmin.Rows (Some rows) /\ rows <> [])
         \/ (exists a piece,
                UseAdmin.email u = Some a /\ a <> []
                /\ In piece (UseAdmin.splitComma (orEmpty env))
                /\ toLowerCase (trim piece) = toLowerCase a))
  /\ (forall u, orEmpty env = [] -> UseAdmin.listed env u = false).
Proof.
  split; [reflexivity|]. split; [|split].
  - intros u rows admins -> Hne. destruct rows; [contradiction | reflexivity].
  - intros u admins. unfold UseAdmin.check.
    assert (L : UseAdmin.listed env u = true ->
                exists a piece,
                  UseAdmin.email u = Some a /\ a <> []
                  /\ In piece (UseAdmin.splitComma (orEmpty env))
                  /\ toLowerCase (trim piece) = toLowerCase a).
    { unfold UseAdmin.listed, UseAdmin.adminEmails, filterBoolean.
      intros H. apply existsb_exists in H as [x [Hx He]].
      apply eqb_eq in He. subst x. apply filter_In in Hx as [Hx Hne].
      apply in_map_iff in Hx as [piece [Hp Hin]].
      destruct (UseAdmin.email u) as [a|] eqn:Ha; simpl in *.
      - destruct (nonEmpty a) eqn:Hna.
        + exists a, piece. repeat split; auto. now apply nonEmpty_iff.
        + now rewrite UseAdmin.toLowerCase_nil in Hne.
      - now rewrite UseAdmin.toLowerCase_nil in Hne. }
    destruct admins as [[[|r rows]|]|]; try (intros H; right; now apply L).
    intros _. left. now exists (r :: rows).
  - intros u Hn. unfold UseAdmin.listed, UseAdmin.adminEmails. rewrite Hn.
    simpl. now rewrite UseAdmin.toLowerCase_nil.
Qed.

(** With the list [" Admin@Compass.lk ,ops@compass.lk"], the user
    [admin@compass.LK] is an administrator without a row in the table. *)
Lemma admin_only_by_table_or_list_witness :
  let env := Some (lit " Admin@Compass.lk ,ops@compass.lk") in
  let u := {| UseAdmin.user_id := lit "u1";
              UseAdmin.email := Some (lit "admin@compass.LK") |} in
  UseAdmin.check (E := basicEngine) (Some u) (UseAdmin.Rows (Some [])) env
  = true
  /\ existsb (fun piece => eqb (toLowerCase (Engine := basicEngine) (trim piece))
                               (lit "admin@compass.lk"))
             (UseAdmin.splitComma (orEmpty env)) = true.
Proof.
  intros env u.
  assert (H : UseAdmin.check (E := basicEngine) (Some u)
                             (UseAdmin.Rows (Some [])) env = true)
    by (vm_compute; reflexivity).
  split; [exact H|].
  destruct (proj1 (proj2 (proj2 (@admin_only_by_table_or_list basicEngine env)))
                  u _ H) as [[rows [Hr Hne]]|[a [piece [Ha [_ [Hin Hp]]]]]].
  - injection Hr as <-. now destruct Hne.
  - apply existsb_exists. exists piece. split; [exact Hin|].
    apply eqb_eq. rewrite Hp. injection Ha as <-. vm_compute. reflexivity.
Defined.

(* ================================================================== *)
(** * The rows of the destinations list page *)
(* ================================================================== *)

Module ListPage.
Import Regex.

(** ** Patterns with word boundaries *)

(** [\w] *)
Definition isWordChar (c : N) : bool :=
  ((97 <=? c) && (c <=? 122) || (65 <=? c) && (c <=? 90)
   || (48 <=? c) && (c <=? 57) || (c =? 95))%N.

Definition isWord (c : option N) : bool :=
  match c with
  | Some c => isWordChar c
  | None => false
  end.

(** [\b] between two places of the string; outside the string there is no
    word character. *)
Definition isBoundary (before after : option N) : bool :=
  xorb (isWord before) (isWord after).

(** The literal [w], whatever the case, at the start of [s]: what is left
    of [s], and the last character read. *)
Fixpoint matchLit (w s : jsstring) (before : option N)
  : option (option N * jsstring) :=
  match w with
  | [] => Some (before, s)
  | p :: w' =>
    match s with
    | [] => None
    | c :: s' => if sameChar true p c then matchLit w' s' (Some c) else None
    end
  end.

(** [/\bw\b/i.test(s)], where [before] is the character before [s]. *)
Fixpoint testWordFrom (w : jsstring) (before : option N) (s : jsstring)
  : bool :=
  (isBoundary before (hd_error s)
   && match matchLit w s before with
      | Some (last, rest) => isBoundary last (hd_error rest)
      | None => false
      end)
  || match s with
     | [] => false
     | c :: s' => testWordFrom w (Some c) s'
     end.

Definition testWord (w : string) (s : jsstring) : bool :=
  testWordFrom (lit w) None s.

(** ** The rows left after the fetch *)

(** [String(r.name || '')] *)
Definition nameOf (r : Destination) : jsstring := orEmpty (name r).

Definition isGenericLotus (r : Destination) : bool :=
  testWord "lotus tower" (nameOf r) && negb (testWord "colombo" (nameOf r)).

Definition isColomboLotus (r : Destination) : bool :=
  testWord "lotus" (nameOf r) && testWord "colombo" (nameOf r).

Definition dropLotus (rows : list Destination) : list Destination :=
  let hasGenericLotus := existsb isGenericLotus rows in
  filter (fun r => negb (isColomboLotus r && hasGenericLotus)) rows.

Definition isGenericTooth (r : Destination) : bool :=
  testWord "tooth" (nameOf r) && test true (str "temple") (nameOf r)
  && negb (test true (str "relic") (nameOf r)).

Definition isToothRelic (r : Destination) : bool :=
  testWord "tooth" (nameOf r) && test true (str "relic") (nameOf r).

Definition dropTooth (cleaned : list Destination) : list Destination :=
  let hasGenericTooth := existsb isGenericTooth cleaned in
  if hasGenericTooth then filter (fun r => negb (isToothRelic r)) cleaned
  else cleaned.

Definition munnesPattern : re := anyOf [str "munneshwaram"; str "munneswaram"].
Definition kaliPattern : re := anyOf [str "kali"; str "kovil"].

Definition isMunneshwaramKali (r : Destination) : bool :=
  test true munnesPattern (nameOf r) && test true kaliPattern (nameOf r).

Definition isGenericMunneshwaram (r : Destination) : bool :=
  test true munnesPattern (nameOf r) && test true (str "temple") (nameOf r)
  && negb (test true kaliPattern (nameOf r)).

Definition dropMunneshwaram (cleaned : list Destination) : list Destination :=
  let hasMunneshwaramKali := existsb isMunneshwaramKali cleaned in
  if hasMunneshwaramKali
  then filter (fun r => negb (isGenericMunneshwaram r)) cleaned
  else cleaned.

(** What [fetchDestinations] hands to [setDestinations]. *)
Definition cleanup (rows : list Destination) : list Destination :=
  dropMunneshwaram (dropTooth (dropLotus rows)).

(** ** The rows that match the search *)

Section WithEngine.
Context {E : Engine}.

(** The callback of [destinations.filter]; [dest.name.toLowerCase()] throws
    on a row without a name. *)
Definition matchesFilters (searchQuery : jsstring)
           (selectedProvince : option jsstring) (dest : Destination)
  : outcome bool :=
  match name dest with
  | None => Throws TypeError
  | Some n =>
    let matchesSearch := includes (toLowerCase n) (toLowerCase searchQuery) in
    let matchesProvince :=
      if truthyStr selectedProvince
      then match province_id dest, selectedProvince with
           | Some p, Some q => eqb p q
           | _, _ => false
           end
      else true in
    Returns (matchesSearch && matchesProvince)
  end.

Fixpoint filteredDestinations (searchQuery : jsstring)
         (selectedProvince : option jsstring)
         (destinations : list Destination) : outcome (list Destination) :=
  match destinations with
  | [] => Returns []
  | dest :: rest =>
    bind (matchesFilters searchQuery selectedProvince dest) (fun keep =>
    bind (filteredDestinations searchQuery selectedProvince rest) (fun l =>
    Returns (if keep then dest :: l else l)))
  end.

(** [displayDestinations] *)
Definition displayDestinations (searchQuery : jsstring)
           (selectedProvince : option jsstring)
           (destinations : list Destination) : outcome (list Destination) :=
  bind (filteredDestinations searchQuery selectedProvince destinations)
       dedupeDestinations.

End WithEngine.

(** ** Facts *)

(** A step of the clean-up: when a preferred row is there, the variants
    are dropped. *)
Section DropStep.
Variables variant preferred : Destination -> bool.
Hypothesis preferred_stays : forall g, preferred g = true -> variant g = false.

Definition dropWhen (rows : list Destination) : list Destination :=
  if existsb preferred rows then filter (fun r => negb (variant r)) rows
  else rows.

Lemma dropWhen_In (rows : list Destination) (r : Destination) :
  In r (dropWhen rows) -> In r rows.
Proof.
  unfold dropWhen. destruct (existsb preferred rows); [|auto].
  intros H. now apply filter_In in H.
Qed.

Lemma dropWhen_cases (rows : list Destination) (r : Destination) :
  In r rows ->
  In r (dropWhen rows)
  \/ (variant r = true
      /\ exists g, In g (dropWhen rows) /\ preferred g = true).
Proof.
  intros Hr. unfold dropWhen. destruct (existsb preferred rows) eqn:Hex;
    [|now left].
  destruct (variant r) eqn:Hv.
  - right. split; [reflexivity|]. apply existsb_exists in Hex as [g [Hg Hp]].
    exists g. split; [|exact Hp]. apply filter_In. split; [exact Hg|].
    now rewrite (@preferred_stays g Hp).
  - left. apply filter_In. split; [exact Hr|]. now rewrite Hv.
Qed.

Lemma dropWhen_cons (rows : list Destination) :
  rows <> [] -> dropWhen rows <> [].
Proof.
  destruct rows as [|r rows]; [contradiction|]. intros _ H.
  destruct (dropWhen_cases (r :: rows) r (or_introl eq_refl))
    as [Hin|[_ [g [Hin _]]]]; rewrite H in Hin; destruct Hin.
Qed.

Lemma dropWhen_none (rows : list Destination) :
  existsb preferred rows = false -> dropWhen rows = rows.
Proof. unfold dropWhen. now intros ->. Qed.

End DropStep.

Lemma dropLotus_dropWhen (rows : list Destination) :
  dropLotus rows = dropWhen isColomboLotus isGenericLotus rows.
Proof.
  unfold dropLotus, dropWhen. destruct (existsb isGenericLotus rows).
  - apply filter_ext. intros r. now rewrite andb_true_r.
  - apply NormalForms.filter_all, forallb_forall. intros r _.
    now rewrite andb_false_r.
Qed.

Lemma dropTooth_dropWhen (rows : list Destination) :
  dropTooth rows = dropWhen isToothRelic isGenericTooth rows.
Proof. reflexivity. Qed.

Lemma dropMunneshwaram_dropWhen (rows : list Destination) :
  dropMunneshwaram rows
  = dropWhen isGenericMunneshwaram isMunneshwaramKali rows.
Proof. reflexivity. Qed.

Lemma lotus_stays (g : Destination) :
  isGenericLotus g = true -> isColomboLotus g = false.
Proof.
  unfold isGenericLotus, isColomboLotus. intros H.
  apply andb_true_iff in H as [_ H]. apply negb_true_iff in H.
  rewrite H. apply andb_false_r.
Qed.

Lemma tooth_stays (g : Destination) :
  isGenericTooth g = true -> isToothRelic g = false.
Proof.
  unfold isGenericTooth, isToothRelic. intros H.
  apply andb_true_iff in H as [_ H]. apply negb_true_iff in H.
  rewrite H. apply andb_false_r.
Qed.

Lemma kali_stays (g : Destination) :
  isMunneshwaramKali g = true -> isGenericMunneshwaram g = false.
Proof.
  unfold isMunneshwaramKali, isGenericMunneshwaram. intros H.
  apply andb_true_iff in H as [_ H]. rewrite H. apply andb_false_r.
Qed.

Section Filtering.
Context {E : Engine}.

Lemma filtered_spec (q : jsstring) (p : option jsstring)
      (rows shown : list Destination) :
  filteredDestinations q p rows = Returns shown ->
  exists keep : Destination -> bool,
    shown = filter keep rows
    /\ forall d, In d rows -> matchesFilters q p d = Returns (keep d).
Proof.
  revert shown. induction rows as [|d rows IH]; simpl; intros shown.
  - intros [= <-]. exists (fun _ => true). split; [reflexivity | intros d []].
  - destruct (matchesFilters q p d) as [k|] eqn:Hk; simpl; [|discriminate].
    destruct (filteredDestinations q p rows) as [l|] eqn:Hl; simpl;
      [|discriminate].
    intros [= <-]. destruct (IH l eq_refl) as [keep [-> Hkeep]].
    exists (fun x => match matchesFilters q p x with
                     | Returns b => b
                     | Throws _ => false
                     end).
    assert (Hext : filter keep rows
                   = filter (fun x => match matchesFilters q p x with
                                      | Returns b => b
                                      | Throws _ => false
                                      end) rows).
    { apply filter_ext_in. intros x Hx. now rewrite (Hkeep x Hx). }
    split.
    + simpl. rewrite Hk, Hext. reflexivity.
    + intros x [<-|Hx]; [now rewrite Hk|]. now rewrite (Hkeep x Hx).
Qed.

Lemma filtered_all (rows : list Destination) :
  (forall d, In d rows -> name d <> None) ->
  filteredDestinations [] None rows = Returns rows.
Proof.
  induction rows as [|d rows IH]; simpl; intros H; [reflexivity|].
  unfold matchesFilters at 1. destruct (name d) as [n|] eqn:Hn.
  - rewrite UseAdmin.toLowerCase_nil, includes_nil. simpl.
    rewrite IH by (intros; apply H; now right). reflexivity.
  - now destruct (H d (or_introl eq_refl)).
Qed.

End Filtering.
End ListPage.

(** X17.  The clean-up after the fetch on the destinations list page only
    drops rows: a row of the result is a row of the answer, and a row is
    dropped only at one of three steps, each time because a preferred row
    is there, which that step keeps: a row naming both [lotus] and
    [colombo], when a row names [lotus tower] without [colombo]; a row
    naming [tooth] and [relic], when a row names [tooth] and [temple]
    without [relic]; a row naming Munneshwaram and [temple] without [kali]
    or [kovil], when a row names Munneshwaram with [kali] or [kovil].  So
    an answer that is not empty never becomes an empty list, and an answer
    without any preferred row is left as it is. *)
Theorem cleanup_drops_only_variants (rows : list Destination) :
  (forall r, In r (ListPage.cleanup rows) -> In r rows)
  /\ (forall r,
         In r rows -> ~ In r (ListPage.cleanup rows) ->
         (ListPage.isColomboLotus r = true
          /\ exists g, In g (ListPage.dropLotus rows)
                       /\ ListPage.isGenericLotus g = true)
         \/ (ListPage.isToothRelic r = true
             /\ exists g, In g (ListPage.dropTooth (ListPage.dropLotus rows))
                          /\ ListPage.isGenericTooth g = true)
         \/ (ListPage.isGenericMunneshwaram r = true
             /\ exists g, In g (ListPage.cleanup rows)
                          /\ ListPage.isMunneshwaramKali g = true))
  /\ (rows <> [] -> ListPage.cleanup rows <> [])
  /\ (existsb ListPage.isGenericLotus rows = false ->
      existsb ListPage.isGenericTooth rows = false ->
      existsb ListPage.isMunneshwaramKali rows = false ->
      ListPage.cleanup rows = rows).
Proof.
  unfold ListPage.cleanup.
  rewrite ListPage.dropMunneshwaram_dropWhen, ListPage.dropTooth_dropWhen.
  set (l1 := ListPage.dropLotus rows).
  set (l2 := ListPage.dropWhen ListPage.isToothRelic ListPage.isGenericTooth l1).
  split; [|split; [|split]].
  - intros r Hr. apply ListPage.dropWhen_In in Hr.
    apply ListPage.dropWhen_In in Hr. unfold l1 in Hr.
    rewrite ListPage.dropLotus_dropWhen in Hr.
    now apply ListPage.dropWhen_In in Hr.
  - intros r Hr Hn.
    assert (H1 : In r l1
                 \/ (ListPage.isColomboLotus r = true
                     /\ exists g, In g l1 /\ ListPage.isGenericLotus g = true)).
    { unfold l1. rewrite ListPage.dropLotus_dropWhen.
      now apply ListPage.dropWhen_cases; [apply ListPage.lotus_stays|]. }
    destruct H1 as [H1|H1]; [|now left].
    destruct (@ListPage.dropWhen_cases _ _ ListPage.tooth_stays l1 r H1)
      as [H2|H2]; [|right; now left].
    destruct (@ListPage.dropWhen_cases _ _ ListPage.kali_stays l2 r H2)
      as [H3|H3]; [contradiction|]. right. now right.
  - intros Hne. apply ListPage.dropWhen_cons; [apply ListPage.kali_stays|].
    apply ListPage.dropWhen_cons; [apply ListPage.tooth_stays|].
    unfold l1. rewrite ListPage.dropLotus_dropWhen.
    now apply ListPage.dropWhen_cons; [apply ListPage.lotus_stays|].
  - intros H1 H2 H3. unfold l2, l1. rewrite ListPage.dropLotus_dropWhen.
    rewrite (ListPage.dropWhen_none _ _ _ H1).
    rewrite (ListPage.dropWhen_none _ _ _ H2).
    now rewrite (ListPage.dropWhen_none _ _ _ H3).
Qed.

(** Of [Colombo Lotus Tower], [Lotus Tower] and [Kandy], the first is
    dropped because the second is there. *)
Lemma cleanup_drops_only_variants_witness :
  let colombo := Examples.bare "c1" "Colombo Lotus Tower" in
  let lotus := Examples.bare "l1" "Lotus Tower" in
  let kandy := Examples.bare "k1" "Kandy" in
  ListPage.cleanup [colombo; lotus; kandy] = [lotus; kandy]
  /\ ListPage.isColomboLotus colombo = true
  /\ existsb ListPage.isGenericLotus (ListPage.dropLotus [colombo; lotus; kandy])
     = true.
Proof.
  intros colombo lotus kandy.
  assert (Hc : ListPage.cleanup [colombo; lotus; kandy] = [lotus; kandy])
    by (vm_compute; reflexivity).
  split; [exact Hc|].
  assert (Hn : ~ In colombo (ListPage.cleanup [colombo; lotus; kandy])).
  { rewrite Hc. intros [H|[H|[]]]; vm_compute in H; discriminate H. }
  destruct (proj1 (proj2 (cleanup_drops_only_variants [colombo; lotus; kandy]))
                  colombo (or_introl eq_refl) Hn)
    as [[H1 [g [Hg Hp]]]|[[H1 _]|[H1 _]]].
  - split; [exact H1|]. apply existsb_exists. now exists g.
  - vm_compute in H1. discriminate H1.
  - vm_compute in H1. discriminate H1.
Defined.

(** X18.  The rows displayed on the destinations list page are rows that
    match the search and the province chosen, one for every key among the
    rows that match and no two with the same key.  With no search and no
    province they are the rows [dedupeDestinations] gives for all the
    rows.  A row without a name makes the filter throw. *)
Theorem displayed_rows_match_the_search {E : Engine} (q : jsstring)
        (p : option jsstring) (rows : list Destination) :
  (forall shown,
      ListPage.displayDestinations q p rows = Returns shown ->
      (forall s, In s shown ->
                 In s rows /\ ListPage.matchesFilters q p s = Returns true)
      /\ NoDup (map keyOf shown)
      /\ (forall d, In d rows ->
                    ListPage.matchesFilters q p d = Returns true ->
                    exists s, In s shown /\ keyOf s = keyOf d))
  /\ ((forall d, In d rows -> name d <> None) ->
      ListPage.displayDestinations [] None rows = dedupeDestinations rows)
  /\ (forall d, In d rows -> name d = None ->
                ListPage.displayDestinations q p rows = Throws TypeError).
Proof.
  split; [|split].
  - intros shown. unfold ListPage.displayDestinations.
    destruct (ListPage.filteredDestinations q p rows) as [l|] eqn:Hl; simpl;
      [|discriminate].
    intros Hs. destruct (ListPage.filtered_spec _ _ _ Hl) as [keep [-> Hk]].
    pose proof (OnePerKey.shown_In _ Hs) as H1.
    pose proof (OnePerKey.shown_keys _ Hs) as H2.
    pose proof (OnePerKey.shown_covers _ Hs) as H3.
    split; [|split; [exact H2|]].
    + intros s Hin. apply H1, filter_In in Hin as [Hin Hkeep].
      split; [exact Hin|]. now rewrite (Hk s Hin), Hkeep.
    + intros d Hd Hm. apply H3. apply filter_In. split; [exact Hd|].
      rewrite (Hk d Hd) in Hm. now injection Hm.
  - intros H. unfold ListPage.displayDestinations.
    now rewrite (ListPage.filtered_all rows H).
  - intros d Hd Hn. unfold ListPage.displayDestinations.
    assert (Hf : ListPage.filteredDestinations q p rows = Throws TypeError).
    { induction rows as [|x rows IH]; [destruct Hd|]. simpl.
      destruct (ListPage.matchesFilters q p x) as [k|[]] eqn:Hk; simpl;
        [|reflexivity].
      destruct Hd as [->|Hd].
      - unfold ListPage.matchesFilters in Hk. now rewrite Hn in Hk.
      - now rewrite (IH Hd). }
    now rewrite Hf.
Qed.

(** Searching ["temple"] among [Temple A (z9)], [Kandy] and [temple a
    (a1)] shows [temple a (a1)] only. *)
Lemma displayed_rows_match_the_search_witness :
  let rows := [Examples.templeZ9; Examples.bare "k1" "Kandy";
               Examples.templeA1] in
  ListPage.displayDestinations (E := basicEngine) (lit "temple") None rows
  = Returns [Examples.templeA1]
  /\ NoDup (map (keyOf (E := basicEngine)) [Examples.templeA1]).
Proof.
  intros rows.
  assert (H : ListPage.displayDestinations (E := basicEngine) (lit "temple")
                                           None rows
              = Returns [Examples.templeA1]) by (vm_compute; reflexivity).
  split; [exact H|].
  exact (proj1 (proj2 (proj1 (@displayed_rows_match_the_search basicEngine
                                (lit "temple") None rows) _ H))).
Defined.

(* ================================================================== *)
(** * The detail page of a Munneshwaram row *)
(* ================================================================== *)

Module DetailPage.
Import Regex.

(** What [fetchDestination] does with the row it fetched: it shows the
    row, goes to the page of another row, or shows that nothing was
    found. *)
Inductive view :=
| Shows (d : Destination)
| Navigates (to : option jsstring)
| NotFound.

Definition munnesPattern : re := anyOf [str "munneshwaram"; str "munneswaram"].
Definition kaliPattern : re := anyOf [str "kali"; str "kovil"].

(** The row is a Munneshwaram row that names neither Kali nor Kovil. *)
Definition isGeneric (data : Destination) : bool :=
  let name := orEmpty (name data) in
  test true munnesPattern name && negb (test true kaliPattern name).

(** [fetchDestination], from the row fetched and the answer to the second
    query ([None] when it failed or gave no array). *)
Definition fetchDestination (data : Destination)
           (mRows : option (list Destination)) : view :=
  if isGeneric data then
    match mRows with
    | Some (r :: rows) =>
      match JsArray.find
              (fun r => test true kaliPattern (orEmpty (name r)))
              (r :: rows)
      with
      | Some kali => Navigates (id kali)
      | None => NotFound
      end
    | _ => NotFound
    end
  else Shows data.

End DetailPage.

(** X19.  The detail page shows the row it fetched, unless the row names
    Munneshwaram without Kali or Kovil: such a row is never shown.  The
    page then goes to a row of the second answer that names Kali or Kovil,
    whose own page is shown without going further, or says that nothing
    was found.  On the destinations list page such a row that also
    names a temple stays listed when the rows have no preferred row, so
    its card leads to a page that does not show it. *)
Theorem generic_munneshwaram_is_never_shown (data : Destination)
        (mRows : option (list Destination)) :
  (forall d, DetailPage.fetchDestination data mRows = DetailPage.Shows d ->
             d = data /\ DetailPage.isGeneric data = false)
  /\ (DetailPage.isGeneric data = false ->
      DetailPage.fetchDestination data mRows = DetailPage.Shows data)
  /\ (forall to,
         DetailPage.fetchDestination data mRows = DetailPage.Navigates to ->
         exists l kali,
           mRows = Some l /\ In kali l /\ id kali = to
           /\ Regex.test true DetailPage.kaliPattern (orEmpty (name kali))
              = true
           /\ forall data' m, name data' = name kali ->
                              DetailPage.fetchDestination data' m
                              = DetailPage.Shows data')
  /\ (forall rows,
         existsb ListPage.isGenericLotus rows = false ->
         existsb ListPage.isGenericTooth rows = false ->
         existsb ListPage.isMunneshwaramKali rows = false ->
         In data rows -> ListPage.isGenericMunneshwaram data = true ->
         In data (ListPage.cleanup rows)
         /\ DetailPage.fetchDestination data mRows <> DetailPage.Shows data).
Proof.
  split; [|split; [|split]].
  - intros d. unfold DetailPage.fetchDestination.
    destruct (DetailPage.isGeneric data).
    + destruct mRows as [[|r rows]|]; try discriminate.
      destruct (JsArray.find _ (r :: rows)); discriminate.
    + intros [= <-]. now split.
  - intros H. unfold DetailPage.fetchDestination. now rewrite H.
  - intros to. unfold DetailPage.fetchDestination.
    destruct (DetailPage.isGeneric data); [|discriminate].
    destruct mRows as [[|r rows]|]; try discriminate.
    destruct (JsArray.find _ (r :: rows)) as [kali|] eqn:Hf; [|discriminate].
    intros [= <-]. apply find_some in Hf as [Hin Hk].
    exists (r :: rows), kali.
    split; [reflexivity|]. split; [exact Hin|]. split; [reflexivity|].
    split; [exact Hk|].
    intros data' m Hn. unfold DetailPage.isGeneric. rewrite Hn, Hk.
    now rewrite andb_false_r.
  - intros rows H1 H2 H3 Hin Hg. split.
    + unfold ListPage.cleanup.
      rewrite ListPage.dropMunneshwaram_dropWhen, ListPage.dropTooth_dropWhen,
        ListPage.dropLotus_dropWhen.
      rewrite (ListPage.dropWhen_none _ _ _ H1).
      rewrite (ListPage.dropWhen_none _ _ _ H2).
      now rewrite (ListPage.dropWhen_none _ _ _ H3).
    + unfold DetailPage.fetchDestination.
      assert (Hgen : DetailPage.isGeneric data = true).
      { unfold ListPage.isGenericMunneshwaram in Hg.
        apply andb_true_iff in Hg as [Hg Hk].
        apply andb_true_iff in Hg as [Hm _].
        unfold DetailPage.isGeneric. unfold ListPage.nameOf in *.
        change DetailPage.munnesPattern with ListPage.munnesPattern.
        change DetailPage.kaliPattern with ListPage.kaliPattern.
        now rewrite Hm, Hk. }
      rewrite Hgen. destruct mRows as [[|r l]|]; try discriminate.
      destruct (JsArray.find _ (r :: l)); discriminate.
Qed.

(** [Munneshwaram Temple] stays on the list when it is alone with [Kandy];
    its page goes to [Munneshwaram Kali Kovil] when the second answer has
    that row, and the page of that row is shown. *)
Lemma generic_munneshwaram_is_never_shown_witness :
  let temple := Examples.bare "m1" "Munneshwaram Temple" in
  let kovil := Examples.bare "m2" "Munneshwaram Kali Kovil" in
  let kandy := Examples.bare "k1" "Kandy" in
  ListPage.cleanup [kandy; temple] = [kandy; temple]
  /\ DetailPage.fetchDestination temple (Some [temple; kovil])
     = DetailPage.Navigates (Some (lit "m2"))
  /\ DetailPage.fetchDestination kovil (Some [temple; kovil])
     = DetailPage.Shows kovil
  /\ DetailPage.fetchDestination temple None = DetailPage.NotFound.
Proof.
  intros temple kovil kandy.
  assert (H : DetailPage.fetchDestination temple (Some [temple; kovil])
              = DetailPage.Navigates (Some (lit "m2")))
    by (vm_compute; reflexivity).
  split; [vm_compute; reflexivity|]. split; [exact H|].
  split; [|vm_compute; reflexivity].
  destruct (proj1 (proj2 (proj2
              (generic_munneshwaram_is_never_shown temple
                                                   (Some [temple; kovil]))))
                  _ H) as [l [kali [Hl [Hin [Hid [_ Hshow]]]]]].
  injection Hl as <-.
  destruct Hin as [<-|[<-|[]]].
  - vm_compute in Hid. discriminate Hid.
  - apply Hshow. reflexivity.
Defined.

(* ================================================================== *)
(** * The admin page *)
(* ================================================================== *)

Module AdminPage.

(** ** The rows the page loads *)

(** [select("id,name,province_id,description")]: the other columns are
    missing from the rows of the page. *)
Definition selected (d : Destination) : Destination :=
  {| id := id d; name := name d; description := description d;
     province_id := province_id d; image_url := None;
     location_lat := None; location_lng := None;
     destination_images := None; province_name := None |}.

(** [destinations], the state of the page, from the answer to
    [fetchDestinations]. *)
Definition loaded (answer : list Destination) : list Destination :=
  map selected answer.

(** ** Local images *)

Section WithEngine.
Context {E : Engine}.

(** The entry of a file: the key is made from the whole file name, with
    its extension. *)
Definition mkEntry (file : jsstring * jsstring) : Entry :=
  let '(path, url) := file in
  let parts := splitSlash path in
  let filename := last parts [] in
  let key := stripNonAlnum (toLowerCase filename) in
  {| path := path; url := url; filename := filename; key := key |}.

Definition localImageEntries (files : list (jsstring * jsstring))
  : list Entry :=
  map mkEntry files.

Definition findLocalImages (entries : list Entry) (name : option jsstring)
  : list jsstring :=
  let k := stripNonAlnum (toLowerCase (orEmpty name)) in
  map url (filter (fun e => includes (key e) k) entries).

End WithEngine.



Lemma selected_key {E : Engine} (d : Destination) :
  keyOf (selected d) = keyOf d.
Proof. reflexivity. Qed.

End AdminPage.

(** X20.  The admin page loads four columns of the rows, so its resolver
    gives no point for an image or for coordinates: of two rows of a group
    that are alike in description and province, it deletes the one whose
    id comes last, whatever images the rows have.  When that row is the
    one with the greater score, the maintenance script deletes the other
    row: the two tools then delete different rows of the same table. *)
Theorem admin_page_does_not_count_images {E : Engine}
        (table : list Destination) (a b : Destination) :
  In a table -> In b table -> keyOf a = keyOf b ->
  score (AdminPage.selected a) = score (AdminPage.selected b) ->
  (localeCompare (orEmpty (id a)) (orEmpty (id b)) < 0)%Z ->
  ((score (AdminPage.selected a) <= 3)%Z
   /\ (score (AdminPage.selected a) <= score a)%Z)
  /\ (forall ids, idsToDelete (AdminPage.loaded table) = Returns ids ->
                  In (id b) ids)
  /\ ((score a < score b)%Z ->
      forall plan, duplicates table = Returns plan ->
                   In (id a) (toDelete plan)).
Proof.
  intros Ha Hb Hk Hs Hlt. split; [|split].
  - unfold score, AdminPage.selected.
    cbn [description province_id image_url location_lat location_lng
         truthyStr truthyNum orb].
    destruct (truthyStr (description a)
              && (0 <? length (trim (toStr (description a))))%nat),
             (truthyStr (province_id a)), (truthyStr (image_url a)),
             (truthyNum (location_lat a) || truthyNum (location_lng a));
      simpl; lia.
  - intros ids Hids.
    change (id b) with (id (AdminPage.selected b)).
    apply (@idsToDelete_after E (AdminPage.loaded table)
             (AdminPage.selected a) (AdminPage.selected b) ids).
    + now apply in_map.
    + now apply in_map.
    + exact Hk.
    + unfold compare_id. simpl. rewrite Hs, Z.eqb_refl. simpl.
      now apply localeCompare_flip.
    + exact Hids.
  - intros Hsc plan Hp.
    destruct (@duplicates_after E table b a plan Hb Ha (eq_sym Hk)) as
        [g [_ [_ H]]]; [|exact Hp|exact H].
    unfold compare_script. simpl.
    destruct (Z.eqb_spec (score b) (score a)); simpl; lia.
Qed.

(** Two rows named [Temple A], alike but for the image the second has:
    the admin page deletes the second, the script deletes the first. *)
Lemma admin_page_does_not_count_images_witness :
  let a := {| id := Some (lit "a"); name := Some (lit "Temple A");
              description := Some (lit "x"); province_id := Some (lit "p");
              image_url := None; location_lat := None; location_lng := None;
              destination_images := None; province_name := None |} in
  let b := {| id := Some (lit "b"); name := Some (lit "temple a");
              description := Some (lit "y"); province_id := Some (lit "p");
              image_url := Some (lit "/assets/a.jpg");
              location_lat := None; location_lng := None;
              destination_images := None; province_name := None |} in
  idsToDelete (E := basicEngine) (AdminPage.loaded [a; b])
  = Returns [Some (lit "b")]
  /\ toDelete [{| keep := b; remove := [a] |}] = [Some (lit "a")]
  /\ duplicates (E := basicEngine) [a; b]
     = Returns [{| keep := b; remove := [a] |}]
  /\ existsb (sameId (id b)) [Some (lit "b")] = true
  /\ existsb (sameId (id a)) (toDelete [{| keep := b; remove := [a] |}])
     = true.
Proof.
  intros a b.
  assert (H1 : idsToDelete (E := basicEngine) (AdminPage.loaded [a; b])
               = Returns [Some (lit "b")]) by (vm_compute; reflexivity).
  assert (H2 : duplicates (E := basicEngine) [a; b]
               = Returns [{| keep := b; remove := [a] |}])
    by (vm_compute; reflexivity).
  destruct (@admin_page_does_not_count_images basicEngine [a; b] a b)
    as (_ & Hadmin & Hscript);
    [now left | right; now left | vm_compute; reflexivity | reflexivity
     | reflexivity |].
  split; [exact H1|]. split; [reflexivity|]. split; [exact H2|]. split.
  - apply existsb_exists. exists (id b). split; [exact (Hadmin _ H1)|].
    vm_compute. reflexivity.
  - apply existsb_exists. exists (id a).
    split; [apply (Hscript eq_refl _ H2)|]. vm_compute. reflexivity.
Defined.



(* ================================================================== *)
(** * The rows written by the admin page *)
(* ================================================================== *)

Module Forms.





(** ** What [trim] leaves *)









End Forms.


